(** * The OpenVPN protocol engine of [openvpn/ssl/proto.hpp]

    A shallow embedding of the [ProtoContext] / [KeyContext] subsystem:
    the packet codec, the key-id allocator, the control-channel
    encapsulation, the data-channel wrapping and the keepalive timers.

    Unsigned machine integers are carried as [Z] with their wrap-around
    written out, buffers as lists of bytes, C++ exceptions as an explicit
    outcome, and the objects that [proto.hpp] only uses through an
    interface (cipher instance, compressor, replay window, reliability
    windows, clock) as the members of one type class. *)

From Stdlib Require Import String ZArith Lia Bool List.
From Stdlib Require Import Strings.Byte.
Import ListNotations.
Open Scope Z_scope.

(** ** Bytes, buffers and exceptions *)

Module Wire.

Definition Buffer := list byte.

Definition byte_to_Z (b : byte) : Z := Z.of_N (Byte.to_N b).

(** Conversion to [unsigned char]: the value is reduced modulo 256. *)
Definition byte_of_Z (z : Z) : byte :=
  match Byte.of_N (Z.to_N (z mod 256)) with
  | Some b => b
  | None => x00
  end.

(** [htons] followed by a raw two-byte write. *)
Definition u16be (z : Z) : Buffer :=
  [byte_of_Z (Z.shiftr z 8); byte_of_Z z].

(** [htonl] followed by a raw four-byte write. *)
Definition u32be (z : Z) : Buffer :=
  [byte_of_Z (Z.shiftr z 24); byte_of_Z (Z.shiftr z 16);
   byte_of_Z (Z.shiftr z 8); byte_of_Z z].

(** A raw four-byte read followed by [ntohl]: the value of four bytes
    in network order. *)
Definition u32be_val (b0 b1 b2 b3 : byte) : Z :=
  byte_to_Z b0 * 2 ^ 24 + byte_to_Z b1 * 2 ^ 16 + byte_to_Z b2 * 2 ^ 8 + byte_to_Z b3.

Definition uint32 (z : Z) : Z := z mod 2 ^ 32.

Inductive Exn : Type :=
| BufferException
| proto_error (what : string)
| select_key_context_error
| ovpn_hmac_context_bad_sizing.

Inductive outcome (A : Type) : Type :=
| Ret (a : A)
| Throw (e : Exn).
Arguments Ret {A} a.
Arguments Throw {A} e.

Definition obind {A B : Type} (o : outcome A) (k : A -> outcome B) : outcome B :=
  match o with
  | Ret a => k a
  | Throw e => Throw e
  end.

(** Modelled from the spec: the [Buffer] class lives outside
    [proto.hpp].  The spec treats a packet as a byte string that is
    consumed from the front and extended at either end; reading past the
    end is the buffer error of the spec.  Capacity and headroom are taken
    to be sufficient, as prepared by the frame.  [buf_size] is
    [Buffer::size]. *)
Definition buf_size (b : Buffer) : nat := length b.

(** Modelled from the spec: [Buffer::advance], which drops [n] leading
    bytes and throws when fewer are there. *)
Definition buf_advance (n : nat) (b : Buffer) : outcome Buffer :=
  if (n <=? length b)%nat then Ret (skipn n b) else Throw BufferException.

(** Modelled from the spec: [Buffer::read] and [Buffer::read_alloc],
    which hand out [n] leading bytes and throw when fewer are there. *)
Definition buf_read (n : nat) (b : Buffer) : outcome (Buffer * Buffer) :=
  if (n <=? length b)%nat then Ret (firstn n b, skipn n b)
  else Throw BufferException.

(** Modelled from the spec: [Buffer::pop_front]. *)
Definition buf_pop_front (b : Buffer) : outcome (byte * Buffer) :=
  match b with
  | x :: r => Ret (x, r)
  | [] => Throw BufferException
  end.

(** Modelled from the spec: [buf[0]], the bounds-checked first byte. *)
Definition buf_index0 (b : Buffer) : outcome byte :=
  match b with
  | x :: _ => Ret x
  | [] => Throw BufferException
  end.

(** Modelled from the spec: [Buffer::write] appends at the back. *)
Definition buf_write (data : Buffer) (b : Buffer) : Buffer := b ++ data.

(** Modelled from the spec: [Buffer::prepend] and [Buffer::prepend_alloc]
    extend the front. *)
Definition buf_prepend (data : Buffer) (b : Buffer) : Buffer := data ++ b.

(** Modelled from the spec: [Buffer::push_front]. *)
Definition buf_push_front (x : byte) (b : Buffer) : Buffer := x :: b.

(** Modelled from the spec: [Buffer::null_terminate] writes the 0x00
    terminator that closes an auth string and a control string. *)
Definition buf_null_terminate (b : Buffer) : Buffer := b ++ [x00].

(** Modelled from the spec: [Buffer::reset_size] truncates the buffer to
    zero size. *)
Definition buf_reset_size (b : Buffer) : Buffer := [].

Definition bytes_eqb (a b : Buffer) : bool :=
  if list_eq_dec Byte.byte_eq_dec a b then true else false.

End Wire.
Export Wire.

(** ** Opcode byte *)

Module Op.

Definition KEY_ID_MASK : Z := 0x07.
Definition OPCODE_SHIFT : Z := 3.

Definition CONTROL_SOFT_RESET_V1 : Z := 3.
Definition CONTROL_V1 : Z := 4.
Definition ACK_V1 : Z := 5.
Definition DATA_V1 : Z := 6.
Definition DATA_V2 : Z := 9.
Definition CONTROL_HARD_RESET_CLIENT_V2 : Z := 7.
Definition CONTROL_HARD_RESET_SERVER_V2 : Z := 8.
Definition INVALID_OPCODE : Z := 0.

Definition OP_SIZE_V2 : nat := 4.
Definition OP_PEER_ID_UNDEF : Z := 0x00FFFFFF.

(** Key negotiation states. *)
Definition STATE_UNDEF : Z := -1.
Definition C_WAIT_RESET_ACK : Z := 0.
Definition C_WAIT_AUTH_ACK : Z := 1.
Definition S_WAIT_RESET_ACK : Z := 2.
Definition S_WAIT_AUTH_ACK : Z := 3.
Definition LAST_ACK_STATE : Z := 3.
Definition C_INITIAL : Z := 4.
Definition C_WAIT_RESET : Z := 5.
Definition C_WAIT_AUTH : Z := 6.
Definition S_INITIAL : Z := 7.
Definition S_WAIT_RESET : Z := 8.
Definition S_WAIT_AUTH : Z := 9.
Definition ACTIVE : Z := 10.

Definition opcode_extract (op : Z) : Z := Z.shiftr op OPCODE_SHIFT.

Definition key_id_extract (op : Z) : Z := Z.land op KEY_ID_MASK.

Definition op_head_size (op : Z) : nat :=
  if opcode_extract op =? DATA_V2 then OP_SIZE_V2 else 1%nat.

Definition op_compose (opcode key_id : Z) : Z :=
  Z.lor (uint32 (Z.shiftl opcode OPCODE_SHIFT)) key_id.

Definition op32_compose (opcode key_id op_peer_id : Z) : Z :=
  Z.lor (uint32 (Z.shiftl (op_compose opcode key_id) 24))
        (Z.land op_peer_id 0x00FFFFFF).

End Op.
Export Op.

(** ** Authentication strings *)

Module AuthString.

Definition write_string_length (size : Z) (buf : Buffer) : outcome Buffer :=
  if size >? 0xFFFF then Throw (proto_error "auth_string_overflow")
  else Ret (buf_write (u16be size) buf).

(** The template parameter [S] is any string class; only its bytes
    ([c_str()]) and its [length()] are used. *)
Definition write_auth_string (str : list byte) (buf : Buffer) : outcome Buffer :=
  let len := Z.of_nat (length str) in
  if negb (len =? 0) then
    obind (write_string_length (len + 1) buf) (fun buf =>
    let buf := buf_write str buf in
    Ret (buf_null_terminate buf))
  else
    write_string_length 0 buf.

Definition write_empty_string (buf : Buffer) : outcome Buffer :=
  write_string_length 0 buf.

End AuthString.
Export AuthString.

(** ** Enumerations of the engine *)

(** Modelled from the spec: [Error::Type] is declared outside
    [proto.hpp]; these are the members that [proto.hpp] raises or tests,
    [SUCCESS] being the value that [if (err)] takes for no error. *)
Inductive ErrorType : Type :=
| SUCCESS
| HMAC_ERROR
| DECRYPT_ERROR
| BUFFER_ERROR
| CC_ERROR
| REPLAY_ERROR
| KEEPALIVE_TIMEOUT
| PRIMARY_EXPIRE
| HANDSHAKE_TIMEOUT
| KEV_NEGOTIATE_ERROR
| KEV_PENDING_ERROR
| N_KEV_EXPIRE
| N_KEY_LIMIT_RENEG.

Definition ErrorType_eq_dec (a b : ErrorType) : {a = b} + {a <> b}.
Proof. decide equality. Defined.

Definition error_eqb (a b : ErrorType) : bool :=
  if ErrorType_eq_dec a b then true else false.

Inductive EventType : Type :=
| KEV_NONE
| KEV_ACTIVE
| KEV_NEGOTIATE
| KEV_BECOME_PRIMARY
| KEV_PRIMARY_PENDING
| KEV_RENEGOTIATE
| KEV_RENEGOTIATE_FORCE
| KEV_RENEGOTIATE_QUEUE
| KEV_EXPIRE.

Definition EventType_eq_dec (a b : EventType) : {a = b} + {a <> b}.
Proof. decide equality. Defined.

Definition event_eqb (a b : EventType) : bool :=
  if EventType_eq_dec a b then true else false.

(** Modelled from the spec: [ProtoStackBase::NetSendType] is declared in
    [openvpn/ssl/protostack.hpp].  [proto.hpp] names only
    [NET_SEND_RETRANSMIT], the re-emission of an unacknowledged packet; the
    other tags are the first sends of SSL ciphertext, of raw packets and of
    ACKs. *)
Inductive NetSendType : Type :=
| NET_SEND_SSL
| NET_SEND_RAW
| NET_SEND_ACK
| NET_SEND_RETRANSMIT.

Definition is_retransmit (t : NetSendType) : bool :=
  match t with NET_SEND_RETRANSMIT => true | _ => false end.

(** Modelled from the spec: [Protocol] is declared in
    [openvpn/transport/protocol.hpp].  The spec knows a datagram (UDP) and
    a stream (TCP) transport, and that the is-reliable-transport flag is
    false on UDP and true on TCP. *)
Inductive Protocol : Type :=
| PROTO_NONE
| PROTO_UDP
| PROTO_TCP.

Definition Protocol_is_tcp (p : Protocol) : bool :=
  match p with PROTO_TCP => true | _ => false end.

Definition Protocol_is_udp (p : Protocol) : bool :=
  match p with PROTO_UDP => true | _ => false end.

Definition Protocol_is_reliable (p : Protocol) : bool := Protocol_is_tcp p.

(** Modelled from the spec: [DataLimit::Mode], the two byte counters of
    a key. *)
Inductive DataLimitMode : Type := Encrypt | Decrypt.

(** Modelled from the spec: [DataLimit::State], ordered None < Green <
    Red. *)
Inductive DataLimitState : Type := DL_None | DL_Green | DL_Red.

Definition DataLimitState_gt_None (s : DataLimitState) : bool :=
  match s with DL_None => false | _ => true end.

Definition DataLimitState_is_Red (s : DataLimitState) : bool :=
  match s with DL_Red => true | _ => false end.

(** Modelled from the spec: [PacketID] in its long form, a 32-bit counter
    and the 32-bit epoch seconds. *)
Record PacketID : Type := mkPacketID { pid_id : Z; pid_time : Z }.

(** Modelled from the spec: [ProtoSessionID] ([openvpn/ssl/psid.hpp]) is
    8 bytes identifying an endpoint instance, undefined until learned;
    two ids match when both are defined and their bytes agree. *)
Record ProtoSessionID : Type := mkPSID { psid_defined : bool; psid_id : Buffer }.

Definition PSID_SIZE : nat := 8.

Definition psid_undefined : ProtoSessionID := mkPSID false (repeat x00 PSID_SIZE).

(** Modelled from the spec: [ProtoSessionID::match]. *)
Definition psid_match (a b : ProtoSessionID) : bool :=
  psid_defined a && psid_defined b && bytes_eqb (psid_id a) (psid_id b).

(** Modelled from the spec: the constructor of [ProtoSessionID] from a
    buffer reads its 8 bytes. *)
Definition psid_read (b : Buffer) : outcome (ProtoSessionID * Buffer) :=
  obind (buf_read PSID_SIZE b) (fun '(id, rest) => Ret (mkPSID true id, rest)).

(** Modelled from the spec: [ProtoSessionID::prepend] writes the 8
    bytes in front. *)
Definition psid_prepend (p : ProtoSessionID) (b : Buffer) : Buffer :=
  buf_prepend (psid_id p) b.

(** [Packet]: an opcode and the buffer it owns. *)
Record Packet : Type := mkPacket { opcode : Z; buf : Buffer }.

Definition Packet_is_raw (p : Packet) : bool := negb (opcode p =? CONTROL_V1).

(** ** Collaborators

    The objects that [proto.hpp] reaches only through their interface. *)
Class Collaborators : Type := {
  (** clock: [Time], [Time::Duration] *)
  Time : Type;
  Duration : Type;
  time_add : Time -> Duration -> Time;
  time_ge : Time -> Time -> bool;
  time_defined : Time -> bool;
  time_undef : Time;
  time_infinite : Time;
  seconds : Z -> Duration;
  seconds_since_epoch : Time -> Z;
  (** [CryptoDCInstance] *)
  CryptoDC : Type;
  CRYPTO_DEFINED : Z;
  crypto_encrypt : CryptoDC -> Buffer -> Z -> option Buffer -> CryptoDC * (bool * Buffer);
  crypto_decrypt : CryptoDC -> Buffer -> Z -> option Buffer ->
                   CryptoDC * outcome (ErrorType * Buffer);
  (** [Compress] *)
  Compress : Type;
  comp_compress : Compress -> Buffer -> bool -> Compress * Buffer;
  comp_decompress : Compress -> Buffer -> Compress * outcome Buffer;
  (** [DataLimit] *)
  DataLimit : Type;
  dl_add : DataLimitMode -> nat -> DataLimit -> DataLimit * DataLimitState;
  dl_is_decrypt_green : DataLimit -> bool;
  (** [PacketIDSend], [PacketIDReceive] of tls-auth *)
  PacketIDSend : Type;
  pid_send_next : PacketIDSend -> Z -> PacketIDSend * PacketID;
  PacketIDReceive : Type;
  pid_test_add : PacketID -> Z -> bool -> PacketIDReceive -> PacketIDReceive * bool;
  pid_is_valid : PacketID -> bool;
  (** [ReliableSend], [ReliableRecv] *)
  ReliableSend : Type;
  rel_send_ack : Z -> ReliableSend -> ReliableSend;
  ReliableRecv : Type;
  rel_recv_receive : Packet -> Z -> ReliableRecv -> ReliableRecv * Z;
  ACK_TO_SENDER : Z;
  IN_WINDOW : Z;
  (** [OvpnHMACInstance]: the keyed digest and its output size *)
  OvpnHMAC : Type;
  hmac_output_size : OvpnHMAC -> nat;
  hmac_digest : OvpnHMAC -> Buffer -> Buffer
}.

(** ** A state monad with exceptions

    A method is a function from the state it can reach to the state it
    leaves and either a result or the exception that left it.  State
    changes made before a throw stay, as in C++. *)
Module StateExn.

Definition M (S A : Type) : Type := S -> S * outcome A.

Definition ret {S A : Type} (a : A) : M S A := fun s => (s, Ret a).

Definition bind {S A B : Type} (m : M S A) (k : A -> M S B) : M S B :=
  fun s => match m s with
           | (s', Ret a) => k a s'
           | (s', Throw e) => (s', Throw e)
           end.

Definition throw {S A : Type} (e : Exn) : M S A := fun s => (s, Throw e).

Definition lift {S A : Type} (o : outcome A) : M S A := fun s => (s, o).

Definition gets {S A : Type} (f : S -> A) : M S A := fun s => (s, Ret (f s)).

Definition modify {S : Type} (f : S -> S) : M S unit := fun s => (f s, Ret tt).

Definition when {S : Type} (c : bool) (m : M S unit) : M S unit :=
  if c then m else ret tt.

(** [try { m } catch (BufferException&) { h }] *)
Definition catch_buffer {S A : Type} (m : M S A) (h : M S A) : M S A :=
  fun s => match m s with
           | (s', Throw BufferException) => h s'
           | r => r
           end.

Declare Scope monad_scope.
Delimit Scope monad_scope with monad.
Notation "x <- m ;; k" := (bind m (fun x => k))
  (at level 61, m at next level, right associativity) : monad_scope.
Notation "' p <- m ;; k" := (bind m (fun x => match x with p => k end))
  (at level 61, p pattern, m at next level, right associativity) : monad_scope.
Notation "m ;; k" := (bind m (fun _ => k))
  (at level 61, right associativity) : monad_scope.

End StateExn.
Export StateExn.
Open Scope monad_scope.

(** ** State of the engine *)

Section Model.

Context {C : Collaborators}.

(** The members of [ProtoContext::Config] read by the modelled methods. *)
Record Config : Type := mkConfig {
  cfg_protocol : Protocol;
  cfg_max_ack_list : nat;
  cfg_handshake_window : Duration;
  cfg_keepalive_ping : Duration;
  cfg_keepalive_timeout : Duration;
  cfg_enable_op32 : bool;
  cfg_remote_peer_id : Z
}.

(** The data members of [ProtoContext] other than the two key-context
    slots.  [stats] is the error sink (one entry per [stats->error]
    call, newest first), [net_out] the buffers handed to the
    [control_net_send] callback (newest first), [now_] the clock value
    behind the time pointer. *)
Record Proto : Type := mkProto {
  config : Config;
  stats : list ErrorType;
  net_out : list Buffer;
  hmac_size : nat;
  use_tls_auth : bool;
  mode_server : bool;
  upcoming_key_id : Z;
  n_key_ids : Z;
  now_ : Time;
  keepalive_xmit : Time;
  keepalive_expire : Time;
  ta_hmac_send : OvpnHMAC;
  ta_hmac_recv : OvpnHMAC;
  ta_pid_send : PacketIDSend;
  ta_pid_recv : PacketIDReceive;
  psid_self : ProtoSessionID;
  psid_peer : ProtoSessionID
}.

(** The data members of [KeyContext], followed by the members it
    inherits from [ProtoStackBase]. *)
Record KeyContext : Type := mkKeyContext {
  state : Z;
  key_id_ : Z;
  crypto_flags : Z;
  remote_peer_id : Z;
  enable_op32 : bool;
  dirty : bool;
  key_limit_renegotiation_fired : bool;
  is_reliable : bool;
  compress : option Compress;
  crypto : CryptoDC;
  construct_time : Time;
  reached_active_time_ : Time;
  next_event_time : Time;
  current_event : EventType;
  next_event : EventType;
  data_limit : option DataLimit;
  invalidated_ : bool;
  invalidation_reason_ : ErrorType;
  rel_send : ReliableSend;
  rel_recv : ReliableRecv;
  xmit_acks : list Z
}.

Record ProtoContext : Type := mkProtoContext {
  core : Proto;
  primary : option KeyContext;
  secondary : option KeyContext
}.

(** What a [KeyContext] method can reach: itself and its parent. *)
Record KSt : Type := mkKSt { proto : Proto; self : KeyContext }.

(** *** Field updates *)

Definition set_stats (v : list ErrorType) (p : Proto) : Proto :=
  mkProto (config p) v (net_out p) (hmac_size p) (use_tls_auth p) (mode_server p)
    (upcoming_key_id p) (n_key_ids p) (now_ p) (keepalive_xmit p) (keepalive_expire p)
    (ta_hmac_send p) (ta_hmac_recv p) (ta_pid_send p) (ta_pid_recv p)
    (psid_self p) (psid_peer p).

Definition set_net_out (v : list Buffer) (p : Proto) : Proto :=
  mkProto (config p) (stats p) v (hmac_size p) (use_tls_auth p) (mode_server p)
    (upcoming_key_id p) (n_key_ids p) (now_ p) (keepalive_xmit p) (keepalive_expire p)
    (ta_hmac_send p) (ta_hmac_recv p) (ta_pid_send p) (ta_pid_recv p)
    (psid_self p) (psid_peer p).

Definition set_key_ids (up n : Z) (p : Proto) : Proto :=
  mkProto (config p) (stats p) (net_out p) (hmac_size p) (use_tls_auth p) (mode_server p)
    up n (now_ p) (keepalive_xmit p) (keepalive_expire p)
    (ta_hmac_send p) (ta_hmac_recv p) (ta_pid_send p) (ta_pid_recv p)
    (psid_self p) (psid_peer p).

Definition set_keepalive_xmit (v : Time) (p : Proto) : Proto :=
  mkProto (config p) (stats p) (net_out p) (hmac_size p) (use_tls_auth p) (mode_server p)
    (upcoming_key_id p) (n_key_ids p) (now_ p) v (keepalive_expire p)
    (ta_hmac_send p) (ta_hmac_recv p) (ta_pid_send p) (ta_pid_recv p)
    (psid_self p) (psid_peer p).

Definition set_keepalive_expire (v : Time) (p : Proto) : Proto :=
  mkProto (config p) (stats p) (net_out p) (hmac_size p) (use_tls_auth p) (mode_server p)
    (upcoming_key_id p) (n_key_ids p) (now_ p) (keepalive_xmit p) v
    (ta_hmac_send p) (ta_hmac_recv p) (ta_pid_send p) (ta_pid_recv p)
    (psid_self p) (psid_peer p).

Definition set_ta_pid_send (v : PacketIDSend) (p : Proto) : Proto :=
  mkProto (config p) (stats p) (net_out p) (hmac_size p) (use_tls_auth p) (mode_server p)
    (upcoming_key_id p) (n_key_ids p) (now_ p) (keepalive_xmit p) (keepalive_expire p)
    (ta_hmac_send p) (ta_hmac_recv p) v (ta_pid_recv p)
    (psid_self p) (psid_peer p).

Definition set_ta_pid_recv (v : PacketIDReceive) (p : Proto) : Proto :=
  mkProto (config p) (stats p) (net_out p) (hmac_size p) (use_tls_auth p) (mode_server p)
    (upcoming_key_id p) (n_key_ids p) (now_ p) (keepalive_xmit p) (keepalive_expire p)
    (ta_hmac_send p) (ta_hmac_recv p) (ta_pid_send p) v
    (psid_self p) (psid_peer p).

Definition set_psid_peer (v : ProtoSessionID) (p : Proto) : Proto :=
  mkProto (config p) (stats p) (net_out p) (hmac_size p) (use_tls_auth p) (mode_server p)
    (upcoming_key_id p) (n_key_ids p) (now_ p) (keepalive_xmit p) (keepalive_expire p)
    (ta_hmac_send p) (ta_hmac_recv p) (ta_pid_send p) (ta_pid_recv p)
    (psid_self p) v.

Definition set_is_reliable (v : bool) (k : KeyContext) : KeyContext :=
  mkKeyContext (state k) (key_id_ k) (crypto_flags k) (remote_peer_id k) (enable_op32 k)
    (dirty k) (key_limit_renegotiation_fired k) v (compress k) (crypto k)
    (construct_time k) (reached_active_time_ k) (next_event_time k) (current_event k)
    (next_event k) (data_limit k) (invalidated_ k) (invalidation_reason_ k)
    (rel_send k) (rel_recv k) (xmit_acks k).

Definition set_key_limit_renegotiation_fired (v : bool) (k : KeyContext) : KeyContext :=
  mkKeyContext (state k) (key_id_ k) (crypto_flags k) (remote_peer_id k) (enable_op32 k)
    (dirty k) v (is_reliable k) (compress k) (crypto k)
    (construct_time k) (reached_active_time_ k) (next_event_time k) (current_event k)
    (next_event k) (data_limit k) (invalidated_ k) (invalidation_reason_ k)
    (rel_send k) (rel_recv k) (xmit_acks k).

Definition set_compress (v : option Compress) (k : KeyContext) : KeyContext :=
  mkKeyContext (state k) (key_id_ k) (crypto_flags k) (remote_peer_id k) (enable_op32 k)
    (dirty k) (key_limit_renegotiation_fired k) (is_reliable k) v (crypto k)
    (construct_time k) (reached_active_time_ k) (next_event_time k) (current_event k)
    (next_event k) (data_limit k) (invalidated_ k) (invalidation_reason_ k)
    (rel_send k) (rel_recv k) (xmit_acks k).

Definition set_crypto (v : CryptoDC) (k : KeyContext) : KeyContext :=
  mkKeyContext (state k) (key_id_ k) (crypto_flags k) (remote_peer_id k) (enable_op32 k)
    (dirty k) (key_limit_renegotiation_fired k) (is_reliable k) (compress k) v
    (construct_time k) (reached_active_time_ k) (next_event_time k) (current_event k)
    (next_event k) (data_limit k) (invalidated_ k) (invalidation_reason_ k)
    (rel_send k) (rel_recv k) (xmit_acks k).

Definition set_data_limit (v : option DataLimit) (k : KeyContext) : KeyContext :=
  mkKeyContext (state k) (key_id_ k) (crypto_flags k) (remote_peer_id k) (enable_op32 k)
    (dirty k) (key_limit_renegotiation_fired k) (is_reliable k) (compress k) (crypto k)
    (construct_time k) (reached_active_time_ k) (next_event_time k) (current_event k)
    (next_event k) v (invalidated_ k) (invalidation_reason_ k)
    (rel_send k) (rel_recv k) (xmit_acks k).

(** The three members written by [set_event] and [invalidate_callback]. *)
Definition set_events (reached next_time : Time) (cur next : EventType)
           (k : KeyContext) : KeyContext :=
  mkKeyContext (state k) (key_id_ k) (crypto_flags k) (remote_peer_id k) (enable_op32 k)
    (dirty k) (key_limit_renegotiation_fired k) (is_reliable k) (compress k) (crypto k)
    (construct_time k) reached next_time cur next
    (data_limit k) (invalidated_ k) (invalidation_reason_ k)
    (rel_send k) (rel_recv k) (xmit_acks k).

Definition set_invalidated (v : bool) (r : ErrorType) (k : KeyContext) : KeyContext :=
  mkKeyContext (state k) (key_id_ k) (crypto_flags k) (remote_peer_id k) (enable_op32 k)
    (dirty k) (key_limit_renegotiation_fired k) (is_reliable k) (compress k) (crypto k)
    (construct_time k) (reached_active_time_ k) (next_event_time k) (current_event k)
    (next_event k) (data_limit k) v r
    (rel_send k) (rel_recv k) (xmit_acks k).

Definition set_rel_send (v : ReliableSend) (k : KeyContext) : KeyContext :=
  mkKeyContext (state k) (key_id_ k) (crypto_flags k) (remote_peer_id k) (enable_op32 k)
    (dirty k) (key_limit_renegotiation_fired k) (is_reliable k) (compress k) (crypto k)
    (construct_time k) (reached_active_time_ k) (next_event_time k) (current_event k)
    (next_event k) (data_limit k) (invalidated_ k) (invalidation_reason_ k)
    v (rel_recv k) (xmit_acks k).

Definition set_rel_recv (v : ReliableRecv) (k : KeyContext) : KeyContext :=
  mkKeyContext (state k) (key_id_ k) (crypto_flags k) (remote_peer_id k) (enable_op32 k)
    (dirty k) (key_limit_renegotiation_fired k) (is_reliable k) (compress k) (crypto k)
    (construct_time k) (reached_active_time_ k) (next_event_time k) (current_event k)
    (next_event k) (data_limit k) (invalidated_ k) (invalidation_reason_ k)
    (rel_send k) v (xmit_acks k).

Definition set_xmit_acks (v : list Z) (k : KeyContext) : KeyContext :=
  mkKeyContext (state k) (key_id_ k) (crypto_flags k) (remote_peer_id k) (enable_op32 k)
    (dirty k) (key_limit_renegotiation_fired k) (is_reliable k) (compress k) (crypto k)
    (construct_time k) (reached_active_time_ k) (next_event_time k) (current_event k)
    (next_event k) (data_limit k) (invalidated_ k) (invalidation_reason_ k)
    (rel_send k) (rel_recv k) v.

Definition on_proto (f : Proto -> Proto) : M KSt unit :=
  modify (fun s => mkKSt (f (proto s)) (self s)).

Definition on_self (f : KeyContext -> KeyContext) : M KSt unit :=
  modify (fun s => mkKSt (proto s) (f (self s))).

(** *** [ProtoContext] members called from a key context *)

Definition is_server (p : Proto) : bool := mode_server p.
Definition is_client (p : Proto) : bool := negb (mode_server p).
Definition is_tcp (p : Proto) : bool := Protocol_is_tcp (cfg_protocol (config p)).
Definition is_udp (p : Proto) : bool := Protocol_is_udp (cfg_protocol (config p)).

(** [stats->error(e)]: one more occurrence of [e] in the sink. *)
Definition stats_error (e : ErrorType) (p : Proto) : Proto :=
  set_stats (e :: stats p) p.

Definition update_last_received (p : Proto) : Proto :=
  set_keepalive_expire (time_add (now_ p) (cfg_keepalive_timeout (config p))) p.

Definition update_last_sent (p : Proto) : Proto :=
  set_keepalive_xmit (time_add (now_ p) (cfg_keepalive_ping (config p))) p.

(** [ProtoContext::net_send]: the buffer goes to the host's
    [control_net_send] callback. *)
Definition proto_net_send (key_id : Z) (net_pkt : Packet) (p : Proto) : Proto :=
  set_net_out (buf net_pkt :: net_out p) p.

Definition next_key_id (p : Proto) : Proto * Z :=
  let n := uint32 (n_key_ids p + 1) in
  let ret := upcoming_key_id p in
  let up := Z.land (uint32 (upcoming_key_id p + 1)) KEY_ID_MASK in
  let up := if up =? 0 then 1 else up in
  (set_key_ids up n p, ret).

(** *** Events and invalidation of a key context *)

Definition invalidated (k : KeyContext) : bool := invalidated_ k.

Definition set_event1 (current : EventType) (k : KeyContext) : KeyContext :=
  set_events (reached_active_time_ k) (next_event_time k) current (next_event k) k.

Definition set_event (current next : EventType) (next_time : Time)
           (k : KeyContext) : KeyContext :=
  set_events (reached_active_time_ k) next_time current next k.

Definition invalidate_callback (k : KeyContext) : KeyContext :=
  set_events time_undef time_infinite (current_event k) KEV_NONE k.

(** Modelled from the spec: [ProtoStackBase::invalidate] is declared in
    [openvpn/ssl/protostack.hpp].  To invalidate a key context marks it
    invalidated, remembers the reason of the first invalidation and runs
    the [invalidate_callback] of [proto.hpp]. *)
Definition Base_invalidate (reason : ErrorType) (k : KeyContext) : KeyContext :=
  if invalidated_ k then k
  else invalidate_callback (set_invalidated true reason k).

Definition invalidate (reason : ErrorType) : M KSt unit :=
  on_self (Base_invalidate reason).

Definition set_protocol (p : Protocol) : M KSt unit :=
  on_self (set_is_reliable (Protocol_is_reliable p)).

Definition key_limit_reneg (ev : EventType) (t : Time) : M KSt unit :=
  p <- gets proto ;;
  when (time_defined t)
    (on_self (set_event KEV_NONE ev
                (time_add t (seconds (if is_server p then 2 else 1))))).

Definition schedule_key_limit_renegotiation : M KSt unit :=
  k <- gets self ;;
  when (negb (key_limit_renegotiation_fired k) && (state k >=? ACTIVE)
        && negb (invalidated k))
    (on_self (set_key_limit_renegotiation_fired true) ;;
     on_proto (stats_error N_KEY_LIMIT_RENEG) ;;
     k <- gets self ;;
     p <- gets proto ;;
     if event_eqb (next_event k) KEV_BECOME_PRIMARY
     then on_self (set_event1 KEV_RENEGOTIATE_QUEUE)
     else key_limit_reneg KEV_RENEGOTIATE (now_ p)).

Definition data_limit_event (mode : DataLimitMode) (st : DataLimitState) : M KSt unit :=
  when (DataLimitState_is_Red st) schedule_key_limit_renegotiation ;;
  k <- gets self ;;
  p <- gets proto ;;
  when (event_eqb (next_event k) KEV_PRIMARY_PENDING
        && match data_limit k with
           | Some dl => dl_is_decrypt_green dl
           | None => false
           end)
    (on_self (set_event KEV_NONE KEV_BECOME_PRIMARY (time_add (now_ p) (seconds 1)))).

(** Called only where [data_limit] is non-null. *)
Definition data_limit_add (mode : DataLimitMode) (size : nat) : M KSt unit :=
  k <- gets self ;;
  match data_limit k with
  | Some dl =>
      let '(dl', st) := dl_add mode size dl in
      on_self (set_data_limit (Some dl')) ;;
      when (DataLimitState_gt_None st) (data_limit_event mode st)
  | None => ret tt
  end.

Definition is_Some {A : Type} (o : option A) : bool :=
  match o with Some _ => true | None => false end.

(** *** Data channel *)

Definition do_encrypt (buf : Buffer) (compress_hint : bool) : M KSt (bool * Buffer) :=
  k <- gets self ;;
  buf <- match compress k with
         | Some c =>
             let '(c', b') := comp_compress c buf compress_hint in
             on_self (set_compress (Some c')) ;; ret b'
         | None => ret buf
         end ;;
  k <- gets self ;;
  when (is_Some (data_limit k)) (data_limit_add Encrypt (buf_size buf)) ;;
  k <- gets self ;;
  p <- gets proto ;;
  if enable_op32 k then
    let op32 := u32be (op32_compose DATA_V2 (key_id_ k) (remote_peer_id k)) in
    let '(c', (pid_wrap, b')) :=
      crypto_encrypt (crypto k) buf (seconds_since_epoch (now_ p)) (Some op32) in
    on_self (set_crypto c') ;;
    ret (pid_wrap, buf_prepend op32 b')
  else
    let '(c', (pid_wrap, b')) :=
      crypto_encrypt (crypto k) buf (seconds_since_epoch (now_ p)) None in
    on_self (set_crypto c') ;;
    ret (pid_wrap, buf_push_front (byte_of_Z (op_compose DATA_V1 (key_id_ k))) b').

(** The guard shared by [encrypt], [decrypt] and
    [send_data_channel_message]. *)
Definition crypto_ready (k : KeyContext) : bool :=
  (state k >=? ACTIVE)
  && negb (Z.land (crypto_flags k) CRYPTO_DEFINED =? 0)
  && negb (invalidated k).

Definition encrypt (buf : Buffer) : M KSt Buffer :=
  k <- gets self ;;
  if crypto_ready k then
    ' (pid_wrap, buf) <- do_encrypt buf true ;;
    when pid_wrap schedule_key_limit_renegotiation ;;
    ret buf
  else
    ret (buf_reset_size buf).

Definition crypto_decrypt_call (buf : Buffer) (t : Z) (op32 : option Buffer)
  : M KSt (ErrorType * Buffer) :=
  fun s =>
    let '(c', o) := crypto_decrypt (crypto (self s)) buf t op32 in
    (mkKSt (proto s) (set_crypto c' (self s)), o).

Definition decompress_call (c : Compress) (buf : Buffer) : M KSt Buffer :=
  fun s =>
    let '(c', o) := comp_decompress c buf in
    (mkKSt (proto s) (set_compress (Some c') (self s)), o).

(** The [try] block of [decrypt]. *)
Definition decrypt_try (buf : Buffer) : M KSt Buffer :=
  k <- gets self ;;
  if crypto_ready k then
    op <- lift (buf_index0 buf) ;;
    let head_size := op_head_size (byte_to_Z op) in
    let op32 := if Nat.eqb head_size OP_SIZE_V2
                then Some (firstn OP_SIZE_V2 buf) else None in
    buf <- lift (buf_advance head_size buf) ;;
    p <- gets proto ;;
    ' (err, buf) <- crypto_decrypt_call buf (seconds_since_epoch (now_ p)) op32 ;;
    when (negb (error_eqb err SUCCESS))
      (on_proto (stats_error err) ;;
       when (is_tcp p && (error_eqb err DECRYPT_ERROR || error_eqb err HMAC_ERROR))
         (invalidate err)) ;;
    k <- gets self ;;
    when (is_Some (data_limit k)) (data_limit_add Decrypt (buf_size buf)) ;;
    k <- gets self ;;
    match compress k with
    | Some c => decompress_call c buf
    | None => ret buf
    end
  else
    ret (buf_reset_size buf).

(** Its [catch (BufferException&)] handler. *)
Definition decrypt_catch (buf : Buffer) : M KSt Buffer :=
  on_proto (stats_error BUFFER_ERROR) ;;
  p <- gets proto ;;
  when (is_tcp p) (invalidate BUFFER_ERROR) ;;
  ret (buf_reset_size buf).

Definition decrypt (buf : Buffer) : M KSt Buffer :=
  catch_buffer (decrypt_try buf) (decrypt_catch buf).

Definition keepalive_message : Buffer :=
  [x2a; x18; x7b; xf3; x64; x1e; xb4; xcb; x07; xed; x2d; x0a; x98; x1f; xc7; x48].

Definition KEEPALIVE_FIRST_BYTE : byte := x2a.

Definition explicit_exit_notify_message : Buffer :=
  [x28; x7f; x34; x6b; xd4; xef; x7a; x81; x2d; x56; xb8; xd3; xaf; xc5; x45; x9c;
   x06].

Definition is_keepalive (buf : Buffer) : bool :=
  (length keepalive_message <=? buf_size buf)%nat
  && match buf with
     | b0 :: _ => Byte.eqb b0 KEEPALIVE_FIRST_BYTE
     | [] => false
     end
  && bytes_eqb keepalive_message (firstn (length keepalive_message) buf).

(** [frame_prepare] leaves an empty buffer with headroom. *)
Definition send_data_channel_message (data : Buffer) : M KSt unit :=
  k <- gets self ;;
  if crypto_ready k then
    let pkt_buf := buf_write data [] in
    ' (_, b) <- do_encrypt pkt_buf false ;;
    k <- gets self ;;
    on_proto (proto_net_send (key_id_ k) (mkPacket INVALID_OPCODE b))
  else
    ret tt.

Definition send_keepalive : M KSt unit :=
  send_data_channel_message keepalive_message.

Definition net_send (net_pkt : Packet) (nstype : NetSendType) : M KSt unit :=
  k <- gets self ;;
  when (negb (is_reliable k) || negb (is_retransmit nstype))
    (on_proto (proto_net_send (key_id_ k) net_pkt)).

(** *** Control channel: the wire helpers

    [ReliableAck], [PacketID] and [OvpnHMACInstance] are declared outside
    [proto.hpp].  The spec gives their wire image: a message id is 4 bytes
    in network order; the ACK block is [ack_len(1) | ack_ids(4 each)]; the
    long-form packet id is the 4-byte counter followed by the 4-byte epoch
    seconds; the HMAC slot follows the opcode byte and the source session
    id, and the digest covers the packet id, then the opcode byte and
    source session id, then the rest of the packet. *)

(** Modelled from the spec: [ReliableAck::read_id], a message id of 4
    bytes in network order. *)
Definition read_id (b : Buffer) : outcome (Z * Buffer) :=
  obind (buf_read 4 b) (fun '(bs, rest) =>
    match bs with
    | [b0; b1; b2; b3] => Ret (u32be_val b0 b1 b2 b3, rest)
    | _ => Throw BufferException
    end).

(** Modelled from the spec: [ReliableAck::prepend_id]. *)
Definition prepend_id (b : Buffer) (id : Z) : Buffer :=
  buf_prepend (u32be id) b.

(** Modelled from the spec: [PacketID::size(PacketID::LONG_FORM)]. *)
Definition PID_LONG_SIZE : nat := 8.

(** Modelled from the spec: [PacketIDReceive::read_next] in long form
    reads the counter, then the epoch seconds. *)
Definition pid_read_long (b : Buffer) : outcome (PacketID * Buffer) :=
  obind (read_id b) (fun '(id, b) =>
  obind (read_id b) (fun '(time, b) =>
  Ret (mkPacketID id time, b))).

(** Modelled from the spec: the write of [PacketIDSend::write_next] in
    long form with [prepend] set. *)
Definition pid_write_prepend_long (pid : PacketID) (b : Buffer) : Buffer :=
  let b := buf_prepend (u32be (pid_time pid)) b in
  buf_prepend (u32be (pid_id pid)) b.

(** Modelled from the spec: the digest input of [ovpn_hmac_gen] and
    [ovpn_hmac_cmp], or [None] when the packet is too short to hold the
    three leading fields or the slot is not of the digest size. *)
Definition ovpn_hmac_pre (h : OvpnHMAC) (data : Buffer) (l1 l2 l3 : nat)
  : option Buffer :=
  let lsum := (l1 + l2 + l3)%nat in
  if (length data <? lsum)%nat || negb (Nat.eqb l2 (hmac_output_size h)) then None
  else Some (firstn l3 (skipn (l1 + l2) data) ++ firstn l1 data ++ skipn lsum data).

(** Modelled from the spec: [OvpnHMACInstance::ovpn_hmac_gen] writes
    the digest into the slot. *)
Definition ovpn_hmac_gen (h : OvpnHMAC) (data : Buffer) (l1 l2 l3 : nat)
  : outcome Buffer :=
  match ovpn_hmac_pre h data l1 l2 l3 with
  | Some input =>
      Ret (firstn l1 data ++ firstn l2 (hmac_digest h input) ++ skipn (l1 + l2) data)
  | None => Throw ovpn_hmac_context_bad_sizing
  end.

(** Modelled from the spec: [OvpnHMACInstance::ovpn_hmac_cmp] compares
    the slot with the digest. *)
Definition ovpn_hmac_cmp (h : OvpnHMAC) (data : Buffer) (l1 l2 l3 : nat) : bool :=
  match ovpn_hmac_pre h data l1 l2 l3 with
  | Some input =>
      bytes_eqb (firstn l2 (skipn l1 data)) (firstn l2 (hmac_digest h input))
  | None => false
  end.

(** Modelled from the spec: the loop of [ReliableAck::ack(rel_send, buf,
    live)], which reads the ids of the ACK block and, when [live],
    acknowledges each of them in the send window. *)
Fixpoint ack_loop (n : nat) (live : bool) (b : Buffer) : M KSt Buffer :=
  match n with
  | O => ret b
  | S n' =>
      ' (id, b) <- lift (read_id b) ;;
      when live (on_self (fun k => set_rel_send (rel_send_ack id (rel_send k)) k)) ;;
      ack_loop n' live b
  end.

(** Modelled from the spec: [ReliableAck::ack(rel_send, buf, live)]
    reads the count byte, then the ids, and returns the count. *)
Definition ReliableAck_ack (live : bool) (b : Buffer) : M KSt (nat * Buffer) :=
  ' (len, b) <- lift (buf_pop_front b) ;;
  let len := Z.to_nat (byte_to_Z len) in
  b <- ack_loop len live b ;;
  ret (len, b).

(** *** Methods that write into a packet

    [gen_head], [prepend_dest_psid_and_acks], [encapsulate] and
    [generate_ack] write through a [Buffer&] or a [Packet&]: what they
    have put into the buffer is there when they throw.  Their state is
    the key context together with the packet they were given. *)

Record PktSt : Type := mkPktSt { kst : KSt; packet : Packet }.

Definition on_kst {A : Type} (m : M KSt A) : M PktSt A :=
  fun s => let '(k', o) := m (kst s) in (mkPktSt k' (packet s), o).

Definition on_buf (f : Buffer -> Buffer) : M PktSt unit :=
  modify (fun s => mkPktSt (kst s) (mkPacket (opcode (packet s)) (f (buf (packet s))))).

(** Modelled from the spec: [xmit_acks.prepend(buf)], by which at most
    [max_ack_list] ids leave the queue and are prepended last to first,
    then their count. *)
Definition ReliableAck_prepend : M PktSt unit :=
  k <- gets (fun s => self (kst s)) ;;
  p <- gets (fun s => proto (kst s)) ;;
  let len := Nat.min (length (xmit_acks k)) (cfg_max_ack_list (config p)) in
  on_buf (fun b => fold_right (fun id b => prepend_id b id) b (firstn len (xmit_acks k))) ;;
  on_buf (buf_push_front (byte_of_Z (Z.of_nat len))) ;;
  on_kst (on_self (set_xmit_acks (skipn len (xmit_acks k)))).

(** Modelled from the spec: [xmit_acks.push_back(id)]. *)
Definition xmit_acks_push_back (id : Z) : M KSt unit :=
  on_self (fun k => set_xmit_acks (xmit_acks k ++ [id]) k).

Definition ta_pid_recv_test_add (pid : PacketID) (t : Z) (mod_ : bool) : M KSt bool :=
  fun s =>
    let '(r', ok) := pid_test_add pid t mod_ (ta_pid_recv (proto s)) in
    (mkKSt (set_ta_pid_recv r' (proto s)) (self s), Ret ok).

Definition rel_recv_receive_call (pkt : Packet) (id : Z) : M KSt Z :=
  fun s =>
    let '(r', rflags) := rel_recv_receive pkt id (rel_recv (self s)) in
    (mkKSt (proto s) (set_rel_recv r' (self s)), Ret rflags).

Definition flag_set (flags mask : Z) : bool := negb (Z.land flags mask =? 0).

(** *** Control channel: [KeyContext] methods *)

Definition gen_head (opcode : Z) : M PktSt unit :=
  p <- gets (fun s => proto (kst s)) ;;
  k <- gets (fun s => self (kst s)) ;;
  if use_tls_auth p then
    let '(snd', pid) := pid_send_next (ta_pid_send p) (seconds_since_epoch (now_ p)) in
    on_kst (on_proto (set_ta_pid_send snd')) ;;
    on_buf (pid_write_prepend_long pid) ;;
    on_buf (buf_prepend (repeat x00 (hmac_size p))) ;;
    on_buf (psid_prepend (psid_self p)) ;;
    on_buf (buf_push_front (byte_of_Z (op_compose opcode (key_id_ k)))) ;;
    b <- gets (fun s => buf (packet s)) ;;
    b <- lift (ovpn_hmac_gen (ta_hmac_send p) b (1 + PSID_SIZE) (hmac_size p)
                 PID_LONG_SIZE) ;;
    on_buf (fun _ => b)
  else
    on_buf (psid_prepend (psid_self p)) ;;
    on_buf (buf_push_front (byte_of_Z (op_compose opcode (key_id_ k)))).

Definition prepend_dest_psid_and_acks : M PktSt unit :=
  k <- gets (fun s => self (kst s)) ;;
  p <- gets (fun s => proto (kst s)) ;;
  match xmit_acks k with
  | [] => ret tt
  | _ :: _ =>
      if psid_defined (psid_peer p) then on_buf (psid_prepend (psid_peer p))
      else on_kst (on_proto (stats_error CC_ERROR)) ;;
           throw (proto_error "peer_psid_undef")
  end ;;
  ReliableAck_prepend.

Definition verify_src_psid (src_psid : ProtoSessionID) : M KSt bool :=
  p <- gets proto ;;
  if psid_defined (psid_peer p) then
    if negb (psid_match (psid_peer p) src_psid) then
      on_proto (stats_error CC_ERROR) ;;
      when (is_tcp p) (invalidate CC_ERROR) ;;
      ret false
    else ret true
  else
    on_proto (set_psid_peer src_psid) ;;
    ret true.

Definition verify_dest_psid (b : Buffer) : M KSt (bool * Buffer) :=
  ' (dest_psid, b) <- lift (psid_read b) ;;
  p <- gets proto ;;
  if negb (psid_match (psid_self p) dest_psid) then
    on_proto (stats_error CC_ERROR) ;;
    when (is_tcp p) (invalidate CC_ERROR) ;;
    ret (false, b)
  else ret (true, b).

Definition encapsulate (id : Z) : M PktSt unit :=
  on_buf (fun b => prepend_id b id) ;;
  prepend_dest_psid_and_acks ;;
  opc <- gets (fun s => opcode (packet s)) ;;
  gen_head opc.

Definition generate_ack : M PktSt unit :=
  prepend_dest_psid_and_acks ;;
  gen_head ACK_V1.

(** The part of [decapsulate] that its two branches share, from the
    ACK block on.  In tls-auth mode [pid] is the packet id read from the
    packet with the time of its test and [pid_ok] the result of the
    replay test; in non-tls-auth mode there is no packet id and the
    source passes [true] where the tls-auth branch passes [pid_ok]. *)
Definition decapsulate_tail (pkt : Packet) (recv : Buffer)
           (pid : option (PacketID * Z)) (pid_ok : bool) : M KSt bool :=
  ' (n, recv) <- ReliableAck_ack pid_ok recv ;;
  ' (ok, recv) <- (if (0 <? n)%nat then verify_dest_psid recv else ret (true, recv)) ;;
  if negb ok then ret false else
  if negb (opcode pkt =? ACK_V1) then
    ' (id, recv) <- lift (read_id recv) ;;
    if pid_ok then
      rflags <- rel_recv_receive_call (mkPacket (opcode pkt) recv) id ;;
      when (flag_set rflags ACK_TO_SENDER) (xmit_acks_push_back id) ;;
      if flag_set rflags IN_WINDOW then
        match pid with
        | Some (pid, t) => ta_pid_recv_test_add pid t true ;; ret true
        | None => ret true
        end
      else ret false
    else
      on_proto (stats_error REPLAY_ERROR) ;;
      when (match pid with Some (pid, _) => pid_is_valid pid | None => false end)
        (xmit_acks_push_back id) ;;
      ret false
  else
    match pid with
    | Some (pid, t) =>
        (if pid_ok then ta_pid_recv_test_add pid t true ;; ret tt
         else on_proto (stats_error REPLAY_ERROR)) ;;
        ret false
    | None => ret false
    end.

(** The [try] block of [decapsulate]. *)
Definition decapsulate_try (pkt : Packet) : M KSt bool :=
  let recv := buf pkt in
  p <- gets proto ;;
  if use_tls_auth p then
    let orig := recv in
    recv <- lift (buf_advance 1 recv) ;;
    ' (src_psid, recv) <- lift (psid_read recv) ;;
    recv <- lift (buf_advance (hmac_size p) recv) ;;
    if negb (ovpn_hmac_cmp (ta_hmac_recv p) orig
               (1 + PSID_SIZE) (hmac_size p) PID_LONG_SIZE) then
      on_proto (stats_error HMAC_ERROR) ;;
      when (is_tcp p) (invalidate HMAC_ERROR) ;;
      ret false
    else
      on_proto update_last_received ;;
      ok <- verify_src_psid src_psid ;;
      if negb ok then ret false else
      ' (pid, recv) <- lift (pid_read_long recv) ;;
      let t := seconds_since_epoch (now_ p) in
      pid_ok <- ta_pid_recv_test_add pid t false ;;
      decapsulate_tail pkt recv (Some (pid, t)) pid_ok
  else
    on_proto update_last_received ;;
    recv <- lift (buf_advance 1 recv) ;;
    ' (src_psid, recv) <- lift (psid_read recv) ;;
    ok <- verify_src_psid src_psid ;;
    if negb ok then ret false else
    decapsulate_tail pkt recv None true.

(** Its [catch (BufferException&)] handler, followed by the final
    [return false]. *)
Definition decapsulate_catch : M KSt bool :=
  on_proto (stats_error BUFFER_ERROR) ;;
  p <- gets proto ;;
  when (is_tcp p) (invalidate BUFFER_ERROR) ;;
  ret false.

Definition decapsulate (pkt : Packet) : M KSt bool :=
  catch_buffer (decapsulate_try pkt) decapsulate_catch.

(** *** [PacketType]: classification of an incoming packet *)

Definition DEFINED : Z := Z.shiftl 1 0.
Definition CONTROL : Z := Z.shiftl 1 1.
Definition SECONDARY : Z := Z.shiftl 1 2.
Definition SOFT_RESET : Z := Z.shiftl 1 3.

Record PacketType : Type := mkPacketType {
  flags : Z;
  pt_opcode : Z;
  peer_id_ : Z
}.

Definition is_defined (t : PacketType) : bool := flag_set (flags t) DEFINED.

Definition is_control (t : PacketType) : bool :=
  Z.land (flags t) (Z.lor CONTROL DEFINED) =? Z.lor CONTROL DEFINED.

Definition is_data (t : PacketType) : bool :=
  Z.land (flags t) (Z.lor CONTROL DEFINED) =? DEFINED.

Definition is_soft_reset (t : PacketType) : bool :=
  Z.land (flags t) (Z.lor CONTROL (Z.lor DEFINED (Z.lor SECONDARY SOFT_RESET)))
  =? Z.lor CONTROL (Z.lor DEFINED (Z.lor SECONDARY SOFT_RESET)).

Definition key_id_of (o : option KeyContext) (kid : Z) : bool :=
  match o with
  | Some k => kid =? key_id_ k
  | None => false
  end.

(** The opcode switch of the constructor: [None] is an early [return],
    otherwise the flags, opcode and peer id set so far. *)
Definition examine_opcode (b : Buffer) (op : Z) (pc : ProtoContext)
  : option (Z * Z * Z) :=
  let opc := opcode_extract op in
  if (opc =? CONTROL_SOFT_RESET_V1) || (opc =? CONTROL_V1) || (opc =? ACK_V1) then
    Some (CONTROL, opc, -1)
  else if opc =? DATA_V2 then
    if (buf_size b <? 4)%nat then None
    else
      let opi := match b with
                 | b0 :: b1 :: b2 :: b3 :: _ => Z.land (u32be_val b0 b1 b2 b3) 0x00FFFFFF
                 | _ => 0
                 end in
      Some (0, opc, if negb (opi =? OP_PEER_ID_UNDEF) then opi else -1)
  else if opc =? DATA_V1 then
    Some (0, opc, -1)
  else if opc =? CONTROL_HARD_RESET_CLIENT_V2 then
    if negb (is_server (core pc)) then None else Some (CONTROL, opc, -1)
  else if opc =? CONTROL_HARD_RESET_SERVER_V2 then
    if is_server (core pc) then None else Some (CONTROL, opc, -1)
  else None.

Definition PacketType_ctor (b : Buffer) (pc : ProtoContext) : PacketType :=
  let init := mkPacketType 0 INVALID_OPCODE (-1) in
  match b with
  | [] => init
  | b0 :: _ =>
      let op := byte_to_Z b0 in
      match examine_opcode b op pc with
      | None => init
      | Some (flags, opcode, peer_id) =>
          let kid := key_id_extract op in
          let flags :=
            if key_id_of (primary pc) kid then Z.lor flags DEFINED
            else if key_id_of (secondary pc) kid then
              Z.lor flags (Z.lor DEFINED SECONDARY)
            else if (opcode =? CONTROL_SOFT_RESET_V1)
                    && (kid =? upcoming_key_id (core pc)) then
              Z.lor flags (Z.lor DEFINED (Z.lor SECONDARY SOFT_RESET))
            else flags in
          mkPacketType flags opcode peer_id
      end
  end.

Definition packet_type (b : Buffer) (pc : ProtoContext) : PacketType :=
  PacketType_ctor b pc.

(** *** [ProtoContext] methods *)

Inductive Slot : Type := Primary | Secondary.

Definition set_slot (sl : Slot) (k : KeyContext) (pc : ProtoContext) : ProtoContext :=
  match sl with
  | Primary => mkProtoContext (core pc) (Some k) (secondary pc)
  | Secondary => mkProtoContext (core pc) (primary pc) (Some k)
  end.

Definition on_core (f : Proto -> Proto) : M ProtoContext unit :=
  modify (fun pc => mkProtoContext (f (core pc)) (primary pc) (secondary pc)).

(** Run a method of the key context [k] held in slot [sl]. *)
Definition call {A : Type} (sl : Slot) (k : KeyContext) (m : M KSt A)
  : M ProtoContext A :=
  fun pc =>
    let '(s', o) := m (mkKSt (core pc) k) in
    (set_slot sl (self s') (mkProtoContext (proto s') (primary pc) (secondary pc)), o).

(** [if (primary) primary->m();] and the like. *)
Definition call_if (sl : Slot) (m : M KSt unit) : M ProtoContext unit :=
  pc <- gets (fun pc => pc) ;;
  match (match sl with Primary => primary pc | Secondary => secondary pc end) with
  | Some k => call sl k m
  | None => ret tt
  end.

Definition select_key_context (type : PacketType) (control : bool)
  : M ProtoContext (Slot * KeyContext) :=
  pc <- gets (fun pc => pc) ;;
  let fl := Z.land (flags type) (Z.lor DEFINED (Z.lor SECONDARY CONTROL)) in
  let for_primary := if control then Z.lor DEFINED CONTROL else DEFINED in
  let for_secondary :=
    if control then Z.lor DEFINED (Z.lor SECONDARY CONTROL)
    else Z.lor DEFINED SECONDARY in
  let try_secondary : M ProtoContext (Slot * KeyContext) :=
    match secondary pc with
    | Some k2 =>
        if fl =? for_secondary then ret (Secondary, k2)
        else throw select_key_context_error
    | None => throw select_key_context_error
    end in
  match primary pc with
  | Some k => if fl =? for_primary then ret (Primary, k) else try_secondary
  | None => try_secondary
  end.

Definition data_encrypt (in_out : Buffer) : M ProtoContext Buffer :=
  pc <- gets (fun pc => pc) ;;
  match primary pc with
  | None => throw (proto_error "data_encrypt: no primary key")
  | Some k => call Primary k (encrypt in_out)
  end.

Definition data_decrypt (type : PacketType) (in_out : Buffer)
  : M ProtoContext (bool * Buffer) :=
  ' (sl, k) <- select_key_context type false ;;
  in_out <- call sl k (decrypt in_out) ;;
  r <- (if (0 <? buf_size in_out)%nat
        then on_core update_last_received ;; ret true
        else ret false) ;;
  let in_out := if is_keepalive in_out then buf_reset_size in_out else in_out in
  ret (r, in_out).

Definition disconnect (reason : ErrorType) : M ProtoContext unit :=
  call_if Primary (invalidate reason) ;;
  call_if Secondary (invalidate reason).

Definition keepalive_housekeeping : M ProtoContext unit :=
  pc <- gets (fun pc => pc) ;;
  let now := now_ (core pc) in
  when (time_ge now (keepalive_xmit (core pc)) && is_Some (primary pc))
    (call_if Primary send_keepalive ;;
     on_core update_last_sent) ;;
  pc <- gets (fun pc => pc) ;;
  when (time_ge now (keepalive_expire (core pc)))
    (on_core (stats_error KEEPALIVE_TIMEOUT) ;;
     disconnect KEEPALIVE_TIMEOUT).

(** [next_key_id] called [n] times: the ids handed out, oldest first. *)
Fixpoint next_key_ids (n : nat) (p : Proto) : Proto * list Z :=
  match n with
  | O => (p, [])
  | S n' =>
      let '(p1, id) := next_key_id p in
      let '(p2, ids) := next_key_ids n' p1 in
      (p2, id :: ids)
  end.

(** *** The control-packet codec

    The fields of a control packet in wire order, the decoder that
    performs the reads of [PacketType] and [decapsulate] without the
    engine state, and the encoder that performs the writes of
    [encapsulate] (or [generate_ack] for an ACK) and [gen_head] from the
    fields. *)

Record ControlPacket : Type := mkControlPacket {
  cp_opcode : Z;
  cp_key_id : Z;
  cp_src_psid : ProtoSessionID;
  cp_tls_auth : option (Buffer * PacketID);
  cp_acks : list Z;
  cp_dest_psid : option ProtoSessionID;
  cp_msg_id : option Z;
  cp_payload : Buffer
}.

Definition opt_of {A : Type} (o : outcome A) : option A :=
  match o with Ret a => Some a | Throw _ => None end.

Definition optbind {A B : Type} (o : option A) (k : A -> option B) : option B :=
  match o with Some a => k a | None => None end.

Fixpoint read_ids (n : nat) (b : Buffer) : outcome (list Z * Buffer) :=
  match n with
  | O => Ret ([], b)
  | S n' =>
      obind (read_id b) (fun '(id, b) =>
      obind (read_ids n' b) (fun '(ids, b) => Ret (id :: ids, b)))
  end.

(** The reads of [decapsulate_tail]: the ACK block, the destination
    session id when there are ACKs, the message id unless the packet is an
    ACK; what is left is the payload. *)
Definition decode_tail (opc kid : Z) (src_psid : ProtoSessionID)
           (auth : option (Buffer * PacketID)) (recv : Buffer)
  : option ControlPacket :=
  optbind (opt_of (buf_pop_front recv)) (fun '(len, recv) =>
  let n := Z.to_nat (byte_to_Z len) in
  optbind (opt_of (read_ids n recv)) (fun '(acks, recv) =>
  optbind
    (if (0 <? n)%nat then
       optbind (opt_of (psid_read recv)) (fun '(dest, recv) => Some (Some dest, recv))
     else Some (None, recv)) (fun '(dest_psid, recv) =>
  optbind
    (if negb (opc =? ACK_V1) then
       optbind (opt_of (read_id recv)) (fun '(id, recv) => Some (Some id, recv))
     else Some (None, recv)) (fun '(msg_id, recv) =>
  Some (mkControlPacket opc kid src_psid auth acks dest_psid msg_id recv))))).

(** The reads of [PacketType] (opcode and key id from the first byte) and
    of [decapsulate] up to the ACK block: the source session id and, in
    tls-auth mode, the HMAC, which must verify, and the packet id. *)
Definition decode (tls_auth : bool) (h : OvpnHMAC) (hsize : nat) (p : Buffer)
  : option ControlPacket :=
  optbind (opt_of (buf_index0 p)) (fun b0 =>
  let op := byte_to_Z b0 in
  optbind (opt_of (buf_advance 1 p)) (fun recv =>
  optbind (opt_of (psid_read recv)) (fun '(src_psid, recv) =>
  optbind
    (if tls_auth then
       optbind (opt_of (buf_read hsize recv)) (fun '(hmac, recv) =>
       if negb (ovpn_hmac_cmp h p (1 + PSID_SIZE) hsize PID_LONG_SIZE) then None
       else
         optbind (opt_of (pid_read_long recv)) (fun '(pid, recv) =>
         Some (Some (hmac, pid), recv)))
     else Some (None, recv)) (fun '(auth, recv) =>
  decode_tail (opcode_extract op) (key_id_extract op) src_psid auth recv)))).

Definition encode (h : OvpnHMAC) (hsize max_ack_list : nat) (f : ControlPacket)
  : outcome Buffer :=
  let b := cp_payload f in
  (* encapsulate prepends the message id, generate_ack does not *)
  let b := match cp_msg_id f with
           | Some id => prepend_id b id
           | None => b
           end in
  let opcode := match cp_msg_id f with
                | Some _ => cp_opcode f
                | None => ACK_V1
                end in
  (* prepend_dest_psid_and_acks *)
  obind
    (match cp_acks f with
     | [] => Ret b
     | _ :: _ =>
         match cp_dest_psid f with
         | Some d => Ret (psid_prepend d b)
         | None => Throw (proto_error "peer_psid_undef")
         end
     end) (fun b =>
  let len := Nat.min (length (cp_acks f)) max_ack_list in
  let b := fold_right (fun id b => prepend_id b id) b (firstn len (cp_acks f)) in
  let b := buf_push_front (byte_of_Z (Z.of_nat len)) b in
  (* gen_head *)
  match cp_tls_auth f with
  | Some (_, pid) =>
      let b := pid_write_prepend_long pid b in
      let b := buf_prepend (repeat x00 hsize) b in
      let b := psid_prepend (cp_src_psid f) b in
      let b := buf_push_front (byte_of_Z (op_compose opcode (cp_key_id f))) b in
      ovpn_hmac_gen h b (1 + PSID_SIZE) hsize PID_LONG_SIZE
  | None =>
      let b := psid_prepend (cp_src_psid f) b in
      Ret (buf_push_front (byte_of_Z (op_compose opcode (cp_key_id f))) b)
  end).

End Model.

(** ** A concrete set of collaborators

    A toy instance on which the engine can be run: an integer clock, a
    cipher whose ciphertext is a tag byte followed by the plaintext (tag 0
    is authentic, tag 1 fails decryption, any other tag fails the HMAC), no
    compression effect, a replay window that remembers the ids it was told
    to add, and a two-byte digest. *)
Module Demo.

Definition demo_encrypt (c : unit) (b : Buffer) (t : Z) (ad : option Buffer)
  : unit * (bool * Buffer) := (tt, (false, x00 :: b)).

Definition demo_decrypt (c : unit) (b : Buffer) (t : Z) (ad : option Buffer)
  : unit * outcome (ErrorType * Buffer) :=
  match b with
  | [] => (tt, Throw BufferException)
  | x00 :: r => (tt, Ret (SUCCESS, r))
  | x01 :: _ => (tt, Ret (DECRYPT_ERROR, []))
  | _ :: _ => (tt, Ret (HMAC_ERROR, []))
  end.

Definition demo_pid_eqb (a b : PacketID) : bool :=
  (pid_id a =? pid_id b) && (pid_time a =? pid_time b).

Definition demo_test_add (pid : PacketID) (t : Z) (mod_ : bool) (w : list PacketID)
  : list PacketID * bool :=
  let fresh := negb (existsb (demo_pid_eqb pid) w) && negb (pid_id pid =? 0) in
  (if mod_ && fresh then pid :: w else w, fresh).

Definition demo_digest (h : unit) (input : Buffer) : Buffer :=
  [byte_of_Z (Z.of_nat (length input)); x5a].

Definition demo : Collaborators := {|
  Time := Z;
  Duration := Z;
  time_add := Z.add;
  time_ge := Z.geb;
  time_defined := fun t => negb (t =? 0);
  time_undef := 0;
  time_infinite := 2 ^ 63 - 1;
  seconds := fun z => z;
  seconds_since_epoch := fun t => t;
  CryptoDC := unit;
  CRYPTO_DEFINED := 1;
  crypto_encrypt := demo_encrypt;
  crypto_decrypt := demo_decrypt;
  Compress := unit;
  comp_compress := fun c b _ => (c, b);
  comp_decompress := fun c b => (c, Ret b);
  DataLimit := unit;
  dl_add := fun _ _ d => (d, DL_None);
  dl_is_decrypt_green := fun _ => false;
  PacketIDSend := PacketID;
  pid_send_next := fun s _ => (mkPacketID (pid_id s + 1) (pid_time s), s);
  PacketIDReceive := list PacketID;
  pid_test_add := demo_test_add;
  pid_is_valid := fun pid => negb (pid_id pid =? 0);
  ReliableSend := list Z;
  rel_send_ack := fun id w => id :: w;
  ReliableRecv := list Z;
  rel_recv_receive := fun _ id w => (id :: w, 3);
  ACK_TO_SENDER := 1;
  IN_WINDOW := 2;
  OvpnHMAC := unit;
  hmac_output_size := fun _ => 2%nat;
  hmac_digest := demo_digest
|}.

Definition demo_config (pr : Protocol) : @Config demo :=
  @mkConfig demo pr 4%nat 60 8 40 false (-1).

Definition self_id : ProtoSessionID :=
  mkPSID true [x01; x02; x03; x04; x05; x06; x07; x08].

Definition peer_id : ProtoSessionID :=
  mkPSID true [x11; x12; x13; x14; x15; x16; x17; x18].

(** A client at time 100 whose last packet arrived at time 90. *)
Definition demo_proto (pr : Protocol) (tls_auth : bool) : @Proto demo :=
  @mkProto demo (demo_config pr) [] [] (if tls_auth then 2%nat else 0%nat) tls_auth false
    1 1 100 104 130 tt tt (mkPacketID 1 99) [] self_id peer_id.

(** An ACTIVE key context with key id [kid]. *)
Definition demo_key (kid : Z) (reliable : bool) : @KeyContext demo :=
  @mkKeyContext demo ACTIVE kid 1 (-1) false false false reliable None tt
    50 55 3650 KEV_NONE KEV_RENEGOTIATE None false SUCCESS [] [] [].

Definition demo_kst (pr : Protocol) (tls_auth : bool) : @KSt demo :=
  @mkKSt demo (demo_proto pr tls_auth) (demo_key 0 (Protocol_is_reliable pr)).

Definition demo_context (pr : Protocol) : @ProtoContext demo :=
  @mkProtoContext demo (demo_proto pr true)
    (Some (demo_key 0 (Protocol_is_reliable pr))) None.

(** A CONTROL_V1 packet for key 0 in tls-auth layout whose HMAC slot
    holds two zero bytes: opcode byte, source session id, HMAC slot,
    packet id (7, 99), no ACKs, message id 0, payload [aa]. *)
Definition forged_packet : Packet :=
  mkPacket CONTROL_V1
    ([x20] ++ psid_id peer_id ++ [x00; x00]
     ++ [x00; x00; x00; x07; x00; x00; x00; x63]
     ++ [x00] ++ [x00; x00; x00; x00] ++ [xaa]).

(** The same packet with the digest of the toy HMAC in its slot. *)
Definition genuine_packet : Packet :=
  mkPacket CONTROL_V1
    ([x20] ++ psid_id peer_id ++ [x17; x5a]
     ++ [x00; x00; x00; x07; x00; x00; x00; x63]
     ++ [x00] ++ [x00; x00; x00; x00] ++ [xaa]).

(** Data packets for key 0: opcode byte [DATA_V1 << 3], cipher tag, body. *)
Definition data_packet (tag : byte) (body : Buffer) : Buffer := x30 :: tag :: body.

(** The fields of [genuine_packet]. *)
Definition genuine_fields : ControlPacket :=
  mkControlPacket CONTROL_V1 0 peer_id (Some ([x17; x5a], mkPacketID 7 99))
    [] None (Some 0) [xaa].

(** An ACK_V1 packet for key 3 in tls-auth layout: packet id (258, 99),
    ACKs for messages 1 and 65536, destination session id. *)
Definition ack_packet : Buffer :=
  [x2b] ++ psid_id peer_id ++ [x22; x5a]
  ++ [x00; x00; x01; x02; x00; x00; x00; x63]
  ++ [x02] ++ [x00; x00; x00; x01] ++ [x00; x01; x00; x00] ++ psid_id self_id.

Definition ack_fields : ControlPacket :=
  mkControlPacket ACK_V1 3 peer_id (Some ([x22; x5a], mkPacketID 258 99))
    [1; 65536] (Some self_id) None [].

End Demo.

(** ** Vocabulary of the specification *)

(** The key-id sequence of the specification: 0 first, then 1..7 in a
    cycle. *)
Definition key_id_seq (n : nat) : Z :=
  match n with
  | O => 0
  | S m => Z.of_nat (m mod 7) + 1
  end.

(** The opcodes that the constructor of [PacketType] lets through to the
    key-id test, with the side conditions it attaches to them. *)
Definition opcode_accepted (size : nat) (server : bool) (opc : Z) : bool :=
  (opc =? CONTROL_SOFT_RESET_V1) || (opc =? CONTROL_V1) || (opc =? ACK_V1)
  || (opc =? DATA_V1)
  || ((opc =? DATA_V2) && (4 <=? size)%nat)
  || ((opc =? CONTROL_HARD_RESET_CLIENT_V2) && server)
  || ((opc =? CONTROL_HARD_RESET_SERVER_V2) && negb server).

Definition control_opcode (opc : Z) : bool :=
  (opc =? CONTROL_SOFT_RESET_V1) || (opc =? CONTROL_V1) || (opc =? ACK_V1)
  || (opc =? CONTROL_HARD_RESET_CLIENT_V2) || (opc =? CONTROL_HARD_RESET_SERVER_V2).


(** ** Frames

    What a method of a key context leaves alone.  [proto_frame upd p p']:
    the configuration and the clock are those of [p], and so is the
    keepalive deadline, unless [upd] allows it to have been reset to
    [now + keepalive_timeout]; the error sink has only grown.  [frame tcp upd s s'] adds the validity of
    the key context: an invalidated context stays invalidated, and off TCP
    the invalidation flag does not change at all. *)
Section Frames.

Context {C : Collaborators}.

Definition proto_frame (upd : bool) (p p' : Proto) : Prop :=
  config p' = config p
  /\ now_ p' = now_ p
  /\ (keepalive_expire p' = keepalive_expire p
      \/ upd = true
         /\ keepalive_expire p' = time_add (now_ p) (cfg_keepalive_timeout (config p)))
  /\ (exists booked, stats p' = booked ++ stats p).

Definition frame (tcp upd : bool) (s s' : KSt) : Prop :=
  proto_frame upd (proto s) (proto s')
  /\ (invalidated_ (self s) = true -> invalidated_ (self s') = true)
  /\ (tcp = false -> invalidated_ (self s') = invalidated_ (self s)).

Definition framed (tcp upd : bool) {A : Type} (m : M KSt A) : Prop :=
  forall s, is_tcp (proto s) = tcp -> frame tcp upd s (fst (m s)).

End Frames.


Section ErrorBooks.

Context {C : Collaborators}.

(** The error a control packet without a valid HMAC is booked under:
    the HMAC error when the packet is long enough for the HMAC slot to
    be reached, the buffer error otherwise. *)
Definition bad_hmac_error (pkt : Packet) (p : Proto) : ErrorType :=
  if (1 + PSID_SIZE + hmac_size p <=? length (buf pkt))%nat
  then HMAC_ERROR else BUFFER_ERROR.

(** The engine after [update_last_received]. *)
Definition received (pc : ProtoContext) : ProtoContext :=
  mkProtoContext (update_last_received (core pc)) (primary pc) (secondary pc).

(** The keepalive deadline a packet received now sets. *)
Definition keepalive_deadline (p : Proto) : Time :=
  time_add (now_ p) (cfg_keepalive_timeout (config p)).

(** The fields of the control packet that a key context in state [s]
    sends next: its own key id and session id, the next tls-auth packet
    id (the HMAC is computed by the encoder), the pending ACKs with the
    peer's session id, and the given opcode, message id and payload. *)
Definition outgoing_fields (opcode : Z) (msg_id : option Z) (payload : Buffer)
           (s : KSt) : ControlPacket :=
  let p := proto s in
  mkControlPacket opcode (key_id_ (self s)) (psid_self p)
    (if use_tls_auth p
     then Some ([], snd (pid_send_next (ta_pid_send p) (seconds_since_epoch (now_ p))))
     else None)
    (xmit_acks (self s))
    (if psid_defined (psid_peer p) then Some (psid_peer p) else None)
    msg_id payload.

End ErrorBooks.

(** A method that returns normally from every state. *)
Definition nothrow {S A : Type} (m : M S A) : Prop :=
  forall s, exists a, snd (m s) = Ret a.

(** ** Authentication and control strings: the readers *)

Module StringReaders.

(** A raw two-byte read followed by [ntohs]. *)
Definition u16be_val (b0 b1 : byte) : Z := byte_to_Z b0 * 2 ^ 8 + byte_to_Z b1.

Definition read_string_length (buf : Buffer) : outcome (Z * Buffer) :=
  if (0 <? buf_size buf)%nat then
    obind (buf_read 2 buf) (fun '(bs, buf) =>
      match bs with
      | [b0; b1] => Ret (u16be_val b0 b1, buf)
      | _ => Throw BufferException
      end)
  else Ret (0, buf).

(** [S(data, len-1)] takes the bytes in front of the terminator. *)
Definition read_auth_string (buf : Buffer) : outcome (Buffer * Buffer) :=
  obind (read_string_length buf) (fun '(len, buf) =>
    if negb (len =? 0) then
      obind (buf_read (Z.to_nat len) buf) (fun '(data, buf) =>
        if len >? 1 then Ret (firstn (Z.to_nat (len - 1)) data, buf)
        else Ret ([], buf))
    else Ret ([], buf)).

Definition write_control_string (str : Buffer) (buf : Buffer) : Buffer :=
  let buf := buf_write str buf in
  buf_null_terminate buf.

Definition read_control_string (buf : Buffer) : Buffer :=
  let size := buf_size buf in
  if (0 <? size)%nat then
    let size := if Byte.eqb (nth (size - 1) buf x00) x00 then (size - 1)%nat else size in
    if (0 <? size)%nat then firstn size buf else []
  else [].

(** The pointer returned is the start of the skipped bytes. *)
Definition skip_string (buf : Buffer) : outcome (Buffer * Buffer) :=
  obind (read_string_length buf) (fun '(len, buf) => buf_read (Z.to_nat len) buf).

(** A string as C sees it: no byte of it is the terminator. *)
Definition has_nul (str : Buffer) : bool := existsb (Byte.eqb x00) str.

End StringReaders.
Export StringReaders.

Section MoreKeyContext.

Context {C : Collaborators}.

(** [KeyContext::initial_op]: the reset opcode this side sends
    ([sender]) or waits for. *)
Definition initial_op (sender : bool) (s : KSt) : Z :=
  if negb (key_id_ (self s) =? 0) then CONTROL_SOFT_RESET_V1
  else if Bool.eqb (is_server (proto s)) sender then CONTROL_HARD_RESET_SERVER_V2
       else CONTROL_HARD_RESET_CLIENT_V2.

End MoreKeyContext.

(** ** Well-formed control-packet fields *)

Definition u32b (z : Z) : bool := (0 <=? z) && (z <? 2 ^ 32).

Definition psid_ok (d : ProtoSessionID) : bool :=
  psid_defined d && Nat.eqb (length (psid_id d)) PSID_SIZE.

(** Fields that a control packet can carry: opcode and key id fit the
    first byte, ids fit 32 bits, session ids have 8 bytes, the ACK count
    fits its byte and [max_ack_list], the destination session id is there
    exactly when there are ACKs, the message id exactly when the opcode is
    not ACK_V1, the tls-auth fields exactly in tls-auth mode. *)
Definition well_formed (tls_auth : bool) (max_ack_list : nat) (f : ControlPacket) : bool :=
  (0 <=? cp_opcode f) && (cp_opcode f <? 32)
  && (0 <=? cp_key_id f) && (cp_key_id f <? 8)
  && psid_ok (cp_src_psid f)
  && match cp_tls_auth f with
     | Some (_, pid) => tls_auth && u32b (pid_id pid) && u32b (pid_time pid)
     | None => negb tls_auth
     end
  && (length (cp_acks f) <=? max_ack_list)%nat
  && (length (cp_acks f) <? 256)%nat
  && forallb u32b (cp_acks f)
  && match cp_acks f, cp_dest_psid f with
     | [], None => true
     | _ :: _, Some d => psid_ok d
     | _, _ => false
     end
  && match cp_msg_id f with
     | Some id => negb (cp_opcode f =? ACK_V1) && u32b id
     | None => cp_opcode f =? ACK_V1
     end.

(** The fields with [m] in the HMAC slot. *)
Definition with_hmac (m : Buffer) (f : ControlPacket) : ControlPacket :=
  mkControlPacket (cp_opcode f) (cp_key_id f) (cp_src_psid f)
    (match cp_tls_auth f with
     | Some (_, pid) => Some (m, pid)
     | None => None
     end)
    (cp_acks f) (cp_dest_psid f) (cp_msg_id f) (cp_payload f).

(** ** Relations kept by a method

    [keeps R m]: every run of [m] ends in a state related by [R] to the
    one it started in, whether it returns or throws. *)
Section Keeps.

Context {C : Collaborators}.

Definition keeps (R : KSt -> KSt -> Prop) {A : Type} (m : M KSt A) : Prop :=
  forall s, R s (fst (m s)).

Class FrameRel (R : KSt -> KSt -> Prop) : Prop := {
  rel_refl : forall s, R s s;
  rel_trans : forall a b c, R a b -> R b c -> R a c
}.

(** The members a data packet is built from: the clock, the cipher
    instance, the compressor and what goes into the packet head. *)
Definition dc_rel (s s' : KSt) : Prop :=
  now_ (proto s') = now_ (proto s)
  /\ crypto (self s') = crypto (self s)
  /\ compress (self s') = compress (self s)
  /\ enable_op32 (self s') = enable_op32 (self s)
  /\ key_id_ (self s') = key_id_ (self s)
  /\ remote_peer_id (self s') = remote_peer_id (self s).

(** What [do_encrypt] hands to the cipher instance, the Additional Data
    it passes along, and the head it prepends. *)
Definition dc_plain (b : Buffer) (hint : bool) (k : KeyContext) : Buffer :=
  match compress k with
  | Some c => snd (comp_compress c b hint)
  | None => b
  end.

Definition dc_ad (k : KeyContext) : option Buffer :=
  if enable_op32 k
  then Some (u32be (op32_compose DATA_V2 (key_id_ k) (remote_peer_id k)))
  else None.

Definition dc_head (k : KeyContext) : Buffer :=
  if enable_op32 k
  then u32be (op32_compose DATA_V2 (key_id_ k) (remote_peer_id k))
  else [byte_of_Z (op_compose DATA_V1 (key_id_ k))].

(** The cipher instance of [r] decrypts what that of [s] encrypts. *)
Definition cipher_inverse (s r : KeyContext) : Prop :=
  forall plain t t' ad,
  exists cr',
    crypto_decrypt (crypto r) (snd (snd (crypto_encrypt (crypto s) plain t ad))) t' ad
    = (cr', Ret (SUCCESS, plain)).

(** [s] and [r] compress alike: neither does, or the compressor of [r]
    undoes that of [s]. *)
Definition compress_inverse (s r : KeyContext) : Prop :=
  match compress s, compress r with
  | None, None => True
  | Some c, Some cr =>
      forall x hint, snd (comp_decompress cr (snd (comp_compress c x hint))) = Ret x
  | _, _ => False
  end.

(** The key context that [PacketType] and [select_key_context] pick for
    a data packet carrying key id [kid]. *)
Definition receiving_key (pc : ProtoContext) (kid : Z) : option (Slot * KeyContext) :=
  if key_id_of (primary pc) kid then option_map (pair Primary) (primary pc)
  else if key_id_of (secondary pc) kid then option_map (pair Secondary) (secondary pc)
  else None.

(** [net_out] is left alone. *)
Definition net_rel (s s' : KSt) : Prop := net_out (proto s') = net_out (proto s).

End Keeps.

(** ** Validation without side effects on the key context *)

Section Validation.

Context {C : Collaborators}.

(** Modelled from the spec: [ReliableAck::ack_skip], which reads the
    count byte of the ACK block, skips that many ids and returns the
    count. *)
Definition ReliableAck_ack_skip (b : Buffer) : outcome (nat * Buffer) :=
  obind (buf_pop_front b) (fun '(len, b) =>
  let len := Z.to_nat (byte_to_Z len) in
  obind (read_ids len b) (fun '(_, b) => Ret (len, b))).

(** [proto.ta_pid_recv.test_add] called on the parent alone. *)
Definition proto_test_add (pid : PacketID) (t : Z) (mod_ : bool) : M Proto bool :=
  fun p =>
    let '(r', ok) := pid_test_add pid t mod_ (ta_pid_recv p) in
    (set_ta_pid_recv r' p, Ret ok).

(** The [try] block of the static [KeyContext::validate]; [now] is the
    clock of the engine it is called on. *)
Definition validate_try (net_buf : Buffer) : M Proto bool :=
  let recv := net_buf in
  p <- gets (fun p => p) ;;
  if use_tls_auth p then
    let orig := recv in
    recv <- lift (buf_advance 1 recv) ;;
    ' (src_psid, recv) <- lift (psid_read recv) ;;
    recv <- lift (buf_advance (hmac_size p) recv) ;;
    if negb (ovpn_hmac_cmp (ta_hmac_recv p) orig
               (1 + PSID_SIZE) (hmac_size p) PID_LONG_SIZE) then ret false else
    if negb (psid_match (psid_peer p) src_psid) then ret false else
    ' (pid, recv) <- lift (pid_read_long recv) ;;
    let t := seconds_since_epoch (now_ p) in
    pid_ok <- proto_test_add pid t false ;;
    ' (n, recv) <- lift (ReliableAck_ack_skip recv) ;;
    if (0 <? n)%nat then
      ' (dest_psid, recv) <- lift (psid_read recv) ;;
      if negb (psid_match (psid_self p) dest_psid) then ret false else ret pid_ok
    else ret pid_ok
  else
    recv <- lift (buf_advance 1 recv) ;;
    ' (src_psid, recv) <- lift (psid_read recv) ;;
    if negb (psid_match (psid_peer p) src_psid) then ret false else
    ' (n, recv) <- lift (ReliableAck_ack_skip recv) ;;
    if (0 <? n)%nat then
      ' (dest_psid, recv) <- lift (psid_read recv) ;;
      if negb (psid_match (psid_self p) dest_psid) then ret false else ret true
    else ret true.

Definition validate (net_buf : Buffer) : M Proto bool :=
  catch_buffer (validate_try net_buf) (ret false).

(** [ProtoContext::control_net_validate]. *)
Definition control_net_validate (type : PacketType) (net_buf : Buffer)
  : M ProtoContext bool :=
  if is_defined type then
    fun pc =>
      let '(p', o) := validate net_buf (core pc) in
      (mkProtoContext p' (primary pc) (secondary pc), o)
  else ret false.

(** [TLSAuthPreValidate]: the reset opcode its constructor saves and its
    [validate], which looks at the tls-auth HMAC only. *)
Definition TLSAuthPreValidate_reset_op (server : bool) : Z :=
  if server then CONTROL_HARD_RESET_CLIENT_V2 else CONTROL_HARD_RESET_SERVER_V2.

Definition TLSAuthPreValidate_validate (reset_op : Z) (ta_hmac_recv : OvpnHMAC)
           (net_buf : Buffer) : bool :=
  match net_buf with
  | [] => false
  | b0 :: _ =>
      let op := byte_to_Z b0 in
      if negb (opcode_extract op =? reset_op) || negb (key_id_extract op =? 0) then false
      else ovpn_hmac_cmp ta_hmac_recv net_buf (1 + PSID_SIZE)
             (hmac_output_size ta_hmac_recv) PID_LONG_SIZE
  end.

(** The parent is left alone. *)
Definition proto_rel (s s' : KSt) : Prop := proto s' = proto s.

End Validation.

(** ** Events of a key context *)

Section Events.

Context {C : Collaborators}.

(** The durations of [ProtoContext::Config] that only the event methods
    read. *)
Record EventConfig : Type := mkEventConfig {
  cfg_become_primary : Duration;
  cfg_renegotiate : Duration;
  cfg_expire : Duration
}.

(** [Time::Duration] times an integer, as in [handshake_window * 2]. *)
Variable duration_mul : Duration -> Z -> Duration.
Variable ec : EventConfig.

Definition data_limit_expire (s : KSt) : Time :=
  time_add (now_ (proto s)) (duration_mul (cfg_handshake_window (config (proto s))) 2).

Definition prepare_expire (current_ev : EventType) : M KSt unit :=
  s <- gets (fun s => s) ;;
  on_self (set_event current_ev KEV_EXPIRE
             (if key_limit_renegotiation_fired (self s)
              then data_limit_expire s
              else time_add (construct_time (self s)) (cfg_expire ec))).

Definition reset_event : M KSt unit := on_self (set_event1 KEV_NONE).

Definition data_limit_defer (s : KSt) : bool :=
  negb (is_server (proto s))
  && match data_limit (self s) with
     | Some dl => negb (key_id_ (self s) =? 0) && negb (dl_is_decrypt_green dl)
     | None => false
     end.

Definition kev_error (ev : EventType) (reason : ErrorType) : M KSt unit :=
  on_proto (stats_error reason) ;;
  invalidate reason ;;
  on_self (set_event1 ev).

Definition process_next_event : M KSt unit :=
  s <- gets (fun s => s) ;;
  when (time_ge (now_ (proto s)) (next_event_time (self s)))
    (match next_event (self s) with
     | KEV_BECOME_PRIMARY =>
         if data_limit_defer s
         then on_self (set_event KEV_NONE KEV_PRIMARY_PENDING (data_limit_expire s))
         else on_self (set_event KEV_BECOME_PRIMARY KEV_RENEGOTIATE
                         (time_add (construct_time (self s)) (cfg_renegotiate ec)))
     | KEV_RENEGOTIATE => prepare_expire KEV_RENEGOTIATE
     | KEV_RENEGOTIATE_FORCE => prepare_expire KEV_RENEGOTIATE_FORCE
     | KEV_NEGOTIATE => kev_error KEV_NEGOTIATE KEV_NEGOTIATE_ERROR
     | KEV_PRIMARY_PENDING => kev_error KEV_PRIMARY_PENDING KEV_PENDING_ERROR
     | KEV_EXPIRE => kev_error KEV_EXPIRE N_KEV_EXPIRE
     | _ => ret tt
     end).

Definition event_pending : M KSt bool :=
  s <- gets (fun s => s) ;;
  when (event_eqb (current_event (self s)) KEV_NONE
        && time_ge (now_ (proto s)) (next_event_time (self s)))
    process_next_event ;;
  k <- gets self ;;
  ret (negb (event_eqb (current_event k) KEV_NONE)).

End Events.

(** The error that the passing of an event's deadline is booked under,
    for the events whose deadline ends the key context. *)
Definition deadline_error (ev : EventType) : option ErrorType :=
  match ev with
  | KEV_NEGOTIATE => Some KEV_NEGOTIATE_ERROR
  | KEV_PRIMARY_PENDING => Some KEV_PENDING_ERROR
  | KEV_EXPIRE => Some N_KEV_EXPIRE
  | _ => None
  end.

Section MoreRelations.

Context {C : Collaborators}.

(** A peer session id, once known, stays. *)
Definition psid_rel (s s' : KSt) : Prop :=
  psid_defined (psid_peer (proto s)) = true ->
  psid_peer (proto s') = psid_peer (proto s).

(** The two reliability windows are left alone. *)
Definition win_rel (s s' : KSt) : Prop :=
  rel_send (self s') = rel_send (self s) /\ rel_recv (self s') = rel_recv (self s).

(** The control channel is left alone: windows, pending ACKs, session
    ids, tls-auth packet ids, negotiation state, key id, key-id
    allocator and what was handed to the network. *)
Definition cc_rel (s s' : KSt) : Prop :=
  rel_send (self s') = rel_send (self s)
  /\ rel_recv (self s') = rel_recv (self s)
  /\ xmit_acks (self s') = xmit_acks (self s)
  /\ state (self s') = state (self s)
  /\ key_id_ (self s') = key_id_ (self s)
  /\ psid_self (proto s') = psid_self (proto s)
  /\ psid_peer (proto s') = psid_peer (proto s)
  /\ ta_pid_send (proto s') = ta_pid_send (proto s)
  /\ ta_pid_recv (proto s') = ta_pid_recv (proto s)
  /\ upcoming_key_id (proto s') = upcoming_key_id (proto s)
  /\ n_key_ids (proto s') = n_key_ids (proto s)
  /\ net_out (proto s') = net_out (proto s)
  /\ keepalive_xmit (proto s') = keepalive_xmit (proto s)
  /\ keepalive_expire (proto s') = keepalive_expire (proto s).

(** A method that returns [a] with [Q a], or runs out of buffer. *)
Definition yields {A : Type} (Q : A -> Prop) (m : M KSt A) : Prop :=
  forall s, match snd (m s) with
            | Ret a => Q a
            | Throw e => e = BufferException
            end.

End MoreRelations.

(** ** A control packet seen through its fields *)

Section Fields.

Context {C : Collaborators}.

(** [ReliableAck::ack] on the ids of the ACK block, once they are read. *)
Fixpoint ack_ids (live : bool) (ids : list Z) : M KSt unit :=
  match ids with
  | [] => ret tt
  | id :: ids =>
      when live (on_self (fun k => set_rel_send (rel_send_ack id (rel_send k)) k)) ;;
      ack_ids live ids
  end.

(** [verify_dest_psid] on the destination session id, once it is read. *)
Definition check_dest_psid (dest_psid : ProtoSessionID) : M KSt bool :=
  p <- gets proto ;;
  if negb (psid_match (psid_self p) dest_psid) then
    on_proto (stats_error CC_ERROR) ;;
    when (is_tcp p) (invalidate CC_ERROR) ;;
    ret false
  else ret true.

(** [decapsulate_tail] with the fields [f] in place of the reads that
    produce them. *)
Definition decapsulate_fields_tail (f : ControlPacket)
           (pid : option (PacketID * Z)) (pid_ok : bool) : M KSt bool :=
  ack_ids pid_ok (cp_acks f) ;;
  ok <- match cp_dest_psid f with
        | Some d => check_dest_psid d
        | None => ret true
        end ;;
  if negb ok then ret false else
  match cp_msg_id f with
  | Some id =>
      if pid_ok then
        rflags <- rel_recv_receive_call (mkPacket (cp_opcode f) (cp_payload f)) id ;;
        when (flag_set rflags ACK_TO_SENDER) (xmit_acks_push_back id) ;;
        if flag_set rflags IN_WINDOW then
          match pid with
          | Some (pid, t) => ta_pid_recv_test_add pid t true ;; ret true
          | None => ret true
          end
        else ret false
      else
        on_proto (stats_error REPLAY_ERROR) ;;
        when (match pid with Some (pid, _) => pid_is_valid pid | None => false end)
          (xmit_acks_push_back id) ;;
        ret false
  | None =>
      match pid with
      | Some (pid, t) =>
          (if pid_ok then ta_pid_recv_test_add pid t true ;; ret tt
           else on_proto (stats_error REPLAY_ERROR)) ;;
          ret false
      | None => ret false
      end
  end.

(** [decapsulate] with the fields [f] of the packet in place of the
    reads that produce them: what the receiver does with a packet whose
    fields are all there and whose HMAC verifies. *)
Definition decapsulate_fields (f : ControlPacket) : M KSt bool :=
  p <- gets proto ;;
  on_proto update_last_received ;;
  ok <- verify_src_psid (cp_src_psid f) ;;
  if negb ok then ret false else
  match cp_tls_auth f with
  | Some (_, pid) =>
      let t := seconds_since_epoch (now_ p) in
      pid_ok <- ta_pid_recv_test_add pid t false ;;
      decapsulate_fields_tail f (Some (pid, t)) pid_ok
  | None => decapsulate_fields_tail f None true
  end.

(** The key context [e] is about to send the fields [f] to the engine
    of [r]: it shares the tls-auth setting and key of [r], has the key
    id and, as its own, the source session id of [f], the ACKs of [f]
    pending with the destination session id of [f] as its peer's, and
    the packet id of [f] next in its tls-auth counter. *)
Definition sends (r e : KSt) (f : ControlPacket) : Prop :=
  use_tls_auth (proto e) = use_tls_auth (proto r)
  /\ ta_hmac_send (proto e) = ta_hmac_recv (proto r)
  /\ hmac_size (proto e) = hmac_size (proto r)
  /\ key_id_ (self e) = cp_key_id f
  /\ psid_self (proto e) = cp_src_psid f
  /\ xmit_acks (self e) = cp_acks f
  /\ (forall d, cp_dest_psid f = Some d -> psid_peer (proto e) = d)
  /\ (forall hm pid, cp_tls_auth f = Some (hm, pid) ->
      snd (pid_send_next (ta_pid_send (proto e)) (seconds_since_epoch (now_ (proto e))))
      = pid).

End Fields.

(** ** More concrete cases

    A second set of collaborators, which differs from [Demo.demo] in its
    cipher instance alone: this one reports HMAC_ERROR for every packet
    and leaves the buffer as it got it.  [proto.hpp] asks nothing of the
    buffer a cipher instance hands back with an error. *)
Module Lax.

Definition lax_decrypt (c : unit) (b : Buffer) (t : Z) (ad : option Buffer)
  : unit * outcome (ErrorType * Buffer) := (tt, Ret (HMAC_ERROR, b)).

Definition lax : Collaborators := {|
  Time := Z;
  Duration := Z;
  time_add := Z.add;
  time_ge := Z.geb;
  time_defined := fun t => negb (t =? 0);
  time_undef := 0;
  time_infinite := 2 ^ 63 - 1;
  seconds := fun z => z;
  seconds_since_epoch := fun t => t;
  CryptoDC := unit;
  CRYPTO_DEFINED := 1;
  crypto_encrypt := Demo.demo_encrypt;
  crypto_decrypt := lax_decrypt;
  Compress := unit;
  comp_compress := fun c b _ => (c, b);
  comp_decompress := fun c b => (c, Ret b);
  DataLimit := unit;
  dl_add := fun _ _ d => (d, DL_None);
  dl_is_decrypt_green := fun _ => false;
  PacketIDSend := PacketID;
  pid_send_next := fun s _ => (mkPacketID (pid_id s + 1) (pid_time s), s);
  PacketIDReceive := list PacketID;
  pid_test_add := Demo.demo_test_add;
  pid_is_valid := fun pid => negb (pid_id pid =? 0);
  ReliableSend := list Z;
  rel_send_ack := fun id w => id :: w;
  ReliableRecv := list Z;
  rel_recv_receive := fun _ id w => (id :: w, 3);
  ACK_TO_SENDER := 1;
  IN_WINDOW := 2;
  OvpnHMAC := unit;
  hmac_output_size := fun _ => 2%nat;
  hmac_digest := Demo.demo_digest
|}.

(** The engine of [Demo.demo_context] over these collaborators: a UDP
    client at time 100 with an ACTIVE primary key context of key id 0. *)
Definition lax_proto : @Proto lax :=
  @mkProto lax (@mkConfig lax PROTO_UDP 4%nat 60 8 40 false (-1)) [] []
    2%nat true false 1 1 100 104 130 tt tt (mkPacketID 1 99) []
    Demo.self_id Demo.peer_id.

Definition lax_key : @KeyContext lax :=
  @mkKeyContext lax ACTIVE 0 1 (-1) false false false false None tt
    50 55 3650 KEV_NONE KEV_RENEGOTIATE None false SUCCESS [] [] [].

Definition lax_kst : @KSt lax := @mkKSt lax lax_proto lax_key.

Definition lax_context : @ProtoContext lax :=
  @mkProtoContext lax lax_proto (Some lax_key) None.

End Lax.

Module Cases.

(** The peer of the toy engine [Demo.demo_kst]: a server with the two
    session ids swapped, [acks] waiting to be sent and [pid] next in its
    tls-auth counter. *)
Definition peer_kst (kid : Z) (acks : list Z) (pid : PacketID) : @KSt Demo.demo :=
  @mkKSt Demo.demo
    (@mkProto Demo.demo (Demo.demo_config PROTO_UDP) [] [] 2%nat true true
       1 1 100 104 130 tt tt pid [] Demo.peer_id Demo.self_id)
    (@set_xmit_acks Demo.demo acks (Demo.demo_key kid false)).

(** A CONTROL_V1 packet for key 0 in tls-auth layout that carries five
    ACKs, one more than [max_ack_list]: packet id (7, 99), ACKs for the
    messages 1 to 5, the destination session id, message id 0 and the
    payload [aa]. *)
Definition five_ack_packet : Packet :=
  mkPacket CONTROL_V1
    ([x20] ++ psid_id Demo.peer_id ++ [x33; x5a]
     ++ [x00; x00; x00; x07; x00; x00; x00; x63]
     ++ [x05] ++ [x00; x00; x00; x01] ++ [x00; x00; x00; x02] ++ [x00; x00; x00; x03]
     ++ [x00; x00; x00; x04] ++ [x00; x00; x00; x05]
     ++ psid_id Demo.self_id ++ [x00; x00; x00; x00] ++ [xaa]).

Definition five_ack_fields : ControlPacket :=
  mkControlPacket CONTROL_V1 0 Demo.peer_id (Some ([x33; x5a], mkPacketID 7 99))
    [1; 2; 3; 4; 5] (Some Demo.self_id) (Some 0) [xaa].

End Cases.


(** * Properties *)

(** ** Bytes and integers on the wire *)

Lemma byte_to_Z_range (b : byte) : 0 <= byte_to_Z b < 256.
Proof.
  unfold byte_to_Z. pose proof (Byte.to_N_bounded b). lia.
Qed.

Lemma byte_of_to_Z (b : byte) : byte_of_Z (byte_to_Z b) = b.
Proof.
  unfold byte_of_Z. pose proof (byte_to_Z_range b) as Hb.
  rewrite Z.mod_small by exact Hb.
  unfold byte_to_Z. rewrite N2Z.id, Byte.of_to_N. reflexivity.
Qed.

Lemma byte_of_Z_mod (z : Z) : byte_of_Z (z mod 256) = byte_of_Z z.
Proof.
  unfold byte_of_Z. rewrite Z.mod_mod by lia. reflexivity.
Qed.

Lemma byte_to_of_Z (z : Z) : 0 <= z < 256 -> byte_to_Z (byte_of_Z z) = z.
Proof.
  intros Hz. unfold byte_of_Z, byte_to_Z. rewrite Z.mod_small by exact Hz.
  destruct (Byte.of_N (Z.to_N z)) as [b|] eqn:E.
  - apply Byte.to_of_N in E. rewrite E. lia.
  - apply Byte.of_N_None_iff in E. lia.
Qed.

Lemma u32be_val_range (b0 b1 b2 b3 : byte) : 0 <= u32be_val b0 b1 b2 b3 < 2 ^ 32.
Proof.
  unfold u32be_val.
  pose proof (byte_to_Z_range b0). pose proof (byte_to_Z_range b1).
  pose proof (byte_to_Z_range b2). pose proof (byte_to_Z_range b3). lia.
Qed.

Lemma u32be_of_val (b0 b1 b2 b3 : byte) :
  u32be (u32be_val b0 b1 b2 b3) = [b0; b1; b2; b3].
Proof.
  unfold u32be, u32be_val.
  pose proof (byte_to_Z_range b0) as H0. pose proof (byte_to_Z_range b1) as H1.
  pose proof (byte_to_Z_range b2) as H2. pose proof (byte_to_Z_range b3) as H3.
  rewrite !Z.shiftr_div_pow2 by lia.
  set (v := byte_to_Z b0 * 2 ^ 24 + byte_to_Z b1 * 2 ^ 16 + byte_to_Z b2 * 2 ^ 8
            + byte_to_Z b3).
  assert (E0 : (v / 2 ^ 24) mod 256 = byte_to_Z b0)
    by (subst v; Z.div_mod_to_equations; lia).
  assert (E1 : (v / 2 ^ 16) mod 256 = byte_to_Z b1)
    by (subst v; Z.div_mod_to_equations; lia).
  assert (E2 : (v / 2 ^ 8) mod 256 = byte_to_Z b2)
    by (subst v; Z.div_mod_to_equations; lia).
  assert (E3 : v mod 256 = byte_to_Z b3)
    by (subst v; Z.div_mod_to_equations; lia).
  rewrite <- (byte_of_Z_mod (v / 2 ^ 24)), <- (byte_of_Z_mod (v / 2 ^ 16)),
          <- (byte_of_Z_mod (v / 2 ^ 8)), <- (byte_of_Z_mod v).
  rewrite E0, E1, E2, E3, !byte_of_to_Z. reflexivity.
Qed.

Lemma u16be_value (z : Z) :
  0 <= z <= 0xFFFF ->
  exists hi lo, u16be z = [hi; lo] /\ byte_to_Z hi * 256 + byte_to_Z lo = z.
Proof.
  intros Hz. unfold u16be. eexists. eexists. split; [reflexivity|].
  rewrite Z.shiftr_div_pow2 by lia.
  rewrite <- (byte_of_Z_mod z).
  rewrite !byte_to_of_Z.
  - change (2 ^ 8) with 256. Z.div_mod_to_equations. lia.
  - apply Z.mod_pos_bound. lia.
  - change (2 ^ 8) with 256. Z.div_mod_to_equations. lia.
Qed.

Lemma op_byte_roundtrip (b : byte) :
  byte_of_Z (op_compose (opcode_extract (byte_to_Z b)) (key_id_extract (byte_to_Z b))) = b.
Proof.
  destruct b; vm_compute; reflexivity.
Qed.

Lemma bytes_eqb_true (a b : Buffer) : bytes_eqb a b = true <-> a = b.
Proof.
  unfold bytes_eqb. destruct (list_eq_dec Byte.byte_eq_dec a b); split; congruence.
Qed.

(** ** Key ids *)

Section KeyIds.

Context {C : Collaborators}.

Lemma key_id_seq_range (n : nat) : 1 <= key_id_seq (S n) <= 7.
Proof.
  cbn [key_id_seq]. pose proof (Nat.mod_upper_bound n 7 ltac:(lia)). lia.
Qed.

Lemma key_id_seq_next (n : nat) :
  (let up := Z.land (uint32 (key_id_seq n + 1)) KEY_ID_MASK in
   if up =? 0 then 1 else up) = key_id_seq (S n).
Proof.
  destruct n as [|m]; [reflexivity|].
  cbn [key_id_seq].
  replace (S m) with (m + 1)%nat by lia.
  rewrite <- Nat.Div0.add_mod_idemp_l.
  pose proof (Nat.mod_upper_bound m 7 ltac:(lia)) as Hb.
  remember (m mod 7)%nat as r eqn:Hr. clear Hr.
  do 7 (destruct r as [|r]; [vm_compute; reflexivity|]). lia.
Qed.

Lemma next_key_ids_from (n k : nat) (p : Proto) :
  upcoming_key_id p = key_id_seq k ->
  0 <= n_key_ids p < 2 ^ 32 ->
  snd (next_key_ids n p) = map key_id_seq (seq k n)
  /\ n_key_ids (fst (next_key_ids n p)) = uint32 (n_key_ids p + Z.of_nat n).
Proof.
  revert k p. induction n as [|n IH]; intros k p Hup Hrange.
  - cbn. split; [reflexivity|].
    unfold uint32. rewrite Z.add_0_r, Z.mod_small; [reflexivity | exact Hrange].
  - cbn [next_key_ids]. unfold next_key_id.
    set (p1 := set_key_ids _ _ p).
    assert (Hup1 : upcoming_key_id p1 = key_id_seq (S k)).
    { subst p1. cbn. rewrite Hup. apply key_id_seq_next. }
    assert (Hn1 : n_key_ids p1 = uint32 (n_key_ids p + 1)) by reflexivity.
    assert (Hr1 : 0 <= n_key_ids p1 < 2 ^ 32).
    { rewrite Hn1. unfold uint32. apply Z.mod_pos_bound. lia. }
    destruct (IH (S k) p1 Hup1 Hr1) as [Hids Hcnt].
    destruct (next_key_ids n p1) as [p2 ids]. cbn [fst snd] in *. split.
    + rewrite Hup, Hids. reflexivity.
    + rewrite Hcnt, Hn1. unfold uint32.
      rewrite Zplus_mod_idemp_l. f_equal. lia.
Qed.

(** C3.  After a reset ([upcoming_key_id] is 0) the ids handed out by
    [n] successive calls of [next_key_id] are the first [n] members of
    the sequence 0, 1, ..., 7, 1, ..., 7, 1, ...: member 0 is 0 and
    member [m+1] is [(m mod 7) + 1], which lies in 1..7, so 0 never
    reappears; and the 32-bit counter [n_key_ids] has advanced by the
    number [n] of ids handed out. *)
Theorem next_key_id_sequence (p : Proto) (n : nat) :
  upcoming_key_id p = 0 ->
  0 <= n_key_ids p < 2 ^ 32 ->
  snd (next_key_ids n p) = map key_id_seq (seq 0 n)
  /\ (forall i, (0 < i < n)%nat -> 1 <= nth i (snd (next_key_ids n p)) 0 <= 7)
  /\ n_key_ids (fst (next_key_ids n p)) = uint32 (n_key_ids p + Z.of_nat n).
Proof.
  intros Hup Hrange.
  destruct (next_key_ids_from n 0 p Hup Hrange) as [Hids Hcnt].
  split; [exact Hids | split; [| exact Hcnt]].
  intros i Hi. rewrite Hids.
  rewrite (nth_indep _ 0 (key_id_seq 0)) by (rewrite length_map, length_seq; lia).
  rewrite map_nth, seq_nth by lia.
  destruct i as [|i]; [lia|]. apply key_id_seq_range.
Qed.

End KeyIds.

(** The first seventeen ids of a fresh engine. *)
Lemma next_key_id_sequence_witness :
  snd (@next_key_ids Demo.demo 17
         (set_key_ids 0 0 (Demo.demo_proto PROTO_UDP true)))
  = [0; 1; 2; 3; 4; 5; 6; 7; 1; 2; 3; 4; 5; 6; 7; 1; 2]
  /\ n_key_ids (fst (@next_key_ids Demo.demo 17
                       (set_key_ids 0 0 (Demo.demo_proto PROTO_UDP true)))) = 17.
Proof.
  destruct (@next_key_id_sequence Demo.demo
              (set_key_ids 0 0 (Demo.demo_proto PROTO_UDP true)) 17)
    as [Hids [_ Hcnt]].
  - reflexivity.
  - cbn. lia.
  - split; [exact Hids | exact Hcnt].
Defined.

(** ** Authentication strings *)

(** C7, as the code has it.  [write_auth_string] appends [u16be 0] for
    the empty string and [u16be (len+1)], the bytes and a 0x00 terminator
    for a string of 1 to 0xFFFE bytes, the two length bytes holding
    [len+1] in network order; a string of 0xFFFF bytes or more raises
    auth_string_overflow and nothing is written, because the guard is on
    the encoded length [len+1]. *)
Theorem write_auth_string_layout (str buf : Buffer) :
  let len := Z.of_nat (length str) in
  (len = 0 -> write_auth_string str buf = Ret (buf ++ u16be 0))
  /\ (0 < len < 0xFFFF ->
      write_auth_string str buf = Ret (buf ++ u16be (len + 1) ++ str ++ [x00])
      /\ exists hi lo, u16be (len + 1) = [hi; lo]
                       /\ byte_to_Z hi * 256 + byte_to_Z lo = len + 1)
  /\ (0xFFFF <= len ->
      write_auth_string str buf = Throw (proto_error "auth_string_overflow")).
Proof.
  intros len. unfold write_auth_string. fold len.
  split; [| split].
  - intros H. rewrite H. reflexivity.
  - intros H. split.
    + destruct (Z.eqb_spec len 0) as [E|E]; [lia|]. cbn [negb].
      unfold write_string_length.
      destruct (Z.gtb_spec (len + 1) 0xFFFF) as [G|G]; [lia|].
      cbn [obind]. unfold buf_null_terminate, buf_write.
      rewrite <- !app_assoc. reflexivity.
    + apply u16be_value. lia.
  - intros H.
    destruct (Z.eqb_spec len 0) as [E|E]; [lia|]. cbn [negb].
    unfold write_string_length.
    destruct (Z.gtb_spec (len + 1) 0xFFFF) as [G|G]; [reflexivity | lia].
Qed.

Lemma write_auth_string_layout_witness :
  write_auth_string [x61; x62] [] = Ret [x00; x03; x61; x62; x00].
Proof.
  destruct (write_auth_string_layout [x61; x62] []) as [_ [H _]].
  destruct H as [H _]; [cbn; lia | exact H].
Defined.

(** C7 as stated fails on a string of exactly 0xFFFF bytes: it is not
    empty and its length does not exceed 0xFFFF, yet nothing is emitted
    and auth_string_overflow is raised. *)
Lemma write_auth_string_0xFFFF_overflows :
  let str := repeat x61 (Z.to_nat 0xFFFF) in
  str <> []
  /\ Z.of_nat (length str) <= 0xFFFF
  /\ write_auth_string str [] = Throw (proto_error "auth_string_overflow").
Proof.
  cbv zeta.
  assert (L : Z.of_nat (length (repeat x61 (Z.to_nat 0xFFFF))) = 0xFFFF)
    by (rewrite repeat_length; apply Z2Nat.id; lia).
  split; [| split].
  - intros E. rewrite E in L. discriminate L.
  - rewrite L. lia.
  - unfold write_auth_string. rewrite L. reflexivity.
Qed.

(** ** Packet classification *)

Section Classification.

Context {C : Collaborators}.

Lemma flag_set_0 (m : Z) : flag_set 0 m = false.
Proof. reflexivity. Qed.

(** C4, as the code has it.  A zero-length buffer has no flag.  A
    non-empty buffer whose opcode is not let through (an opcode outside
    3..9, a DATA_V2 packet shorter than 4 bytes, a hard-reset-client on
    a client, a hard-reset-server on a server) has no flag either.  For
    every other buffer the control opcodes set CONTROL and the low 3
    bits of the first byte select the key context: equal to the
    primary's key id, DEFINED; otherwise equal to the secondary's,
    DEFINED|SECONDARY; otherwise, for CONTROL_SOFT_RESET_V1 with the
    bits equal to [upcoming_key_id], DEFINED|SECONDARY|SOFT_RESET;
    otherwise nothing. *)
Theorem packet_type_classification (b : Buffer) (pc : ProtoContext) :
  let t := PacketType_ctor b pc in
  (b = [] -> flags t = 0 /\ is_defined t = false)
  /\ (forall b0 r, b = b0 :: r ->
      let op := byte_to_Z b0 in
      let opc := opcode_extract op in
      let kid := key_id_extract op in
      let c := if control_opcode opc then CONTROL else 0 in
      if opcode_accepted (length b) (is_server (core pc)) opc then
        flags t =
          (if key_id_of (primary pc) kid then Z.lor c DEFINED
           else if key_id_of (secondary pc) kid then
             Z.lor c (Z.lor DEFINED SECONDARY)
           else if (opc =? CONTROL_SOFT_RESET_V1) && (kid =? upcoming_key_id (core pc))
           then Z.lor c (Z.lor DEFINED (Z.lor SECONDARY SOFT_RESET))
           else c)
      else flags t = 0 /\ is_defined t = false).
Proof.
  cbv zeta. split.
  - intros ->. split; reflexivity.
  - intros b0 r ->. cbn [PacketType_ctor].
    unfold examine_opcode, opcode_accepted, control_opcode, buf_size.
    generalize (key_id_extract (byte_to_Z b0)) as kid.
    generalize (opcode_extract (byte_to_Z b0)) as opc.
    intros opc kid.
    unfold CONTROL_SOFT_RESET_V1, CONTROL_V1, ACK_V1, DATA_V1, DATA_V2,
      CONTROL_HARD_RESET_CLIENT_V2, CONTROL_HARD_RESET_SERVER_V2.
    destruct (Z.eqb_spec opc 3) as [->|N3]; [cbn; repeat (destruct (key_id_of _ _)); cbn; try reflexivity; destruct (kid =? _); reflexivity|].
    destruct (Z.eqb_spec opc 4) as [->|N4]; [cbn; repeat (destruct (key_id_of _ _)); reflexivity|].
    destruct (Z.eqb_spec opc 5) as [->|N5]; [cbn; repeat (destruct (key_id_of _ _)); reflexivity|].
    destruct (Z.eqb_spec opc 9) as [->|N9].
    { cbn [orb andb]. change (9 =? 6) with false. cbn [orb].
      change (9 =? 7) with false. change (9 =? 8) with false. cbn [orb andb].
      destruct (Nat.ltb_spec (length (b0 :: r)) 4) as [L|L];
        destruct (Nat.leb_spec 4 (length (b0 :: r))) as [L'|L']; try lia.
      - split; reflexivity.
      - cbn [flags]. repeat (destruct (key_id_of _ _)); reflexivity. }
    destruct (Z.eqb_spec opc 6) as [->|N6]; [cbn; repeat (destruct (key_id_of _ _)); reflexivity|].
    destruct (Z.eqb_spec opc 7) as [->|N7].
    { cbn [orb andb]. change (7 =? 8) with false. cbn [orb andb].
      unfold is_server. destruct (mode_server (core pc)); cbn [negb andb orb].
      - cbn [flags]. repeat (destruct (key_id_of _ _)); reflexivity.
      - split; reflexivity. }
    destruct (Z.eqb_spec opc 8) as [->|N8].
    { cbn [orb andb].
      unfold is_server. destruct (mode_server (core pc)); cbn [negb andb orb].
      - split; reflexivity.
      - cbn [flags]. repeat (destruct (key_id_of _ _)); reflexivity. }
    cbn. split; reflexivity.
Qed.

End Classification.

Lemma packet_type_classification_witness :
  flags (@PacketType_ctor Demo.demo [x20] (Demo.demo_context PROTO_UDP)) = 3.
Proof.
  destruct (@packet_type_classification Demo.demo [x20] (Demo.demo_context PROTO_UDP))
    as [_ H].
  exact (H x20 [] eq_refl).
Defined.

(** C4 as stated fails on the one-byte packet [00]: its low 3 bits equal
    the key id of the primary (0), yet the opcode 0 is rejected before the
    key id is looked at and the packet is not DEFINED. *)
Lemma packet_type_opcode_0_not_defined :
  key_id_of (primary (Demo.demo_context PROTO_UDP)) (key_id_extract (byte_to_Z x00)) = true
  /\ is_defined (@PacketType_ctor Demo.demo [x00] (Demo.demo_context PROTO_UDP)) = false.
Proof.
  split; reflexivity.
Qed.

(** ** Sends and the data channel guard *)

Section Sends.

Context {C : Collaborators}.

(** C9.  A [net_send] tagged NET_SEND_RETRANSMIT reaches the network
    callback exactly when the key context is not on a reliable
    transport: with the flag cached by [set_protocol] from a TCP
    protocol the call leaves the state (and so the output) untouched,
    with any other protocol the packet is handed to the callback. *)
Theorem retransmit_only_on_unreliable_transport
        (pr : Protocol) (pkt : Packet) (s : KSt) :
  let s1 := fst (set_protocol pr s) in
  let s2 := fst (net_send pkt NET_SEND_RETRANSMIT s1) in
  is_reliable (self s1) = Protocol_is_tcp pr
  /\ snd (net_send pkt NET_SEND_RETRANSMIT s1) = Ret tt
  /\ (if Protocol_is_tcp pr then s2 = s1
      else net_out (proto s2) = buf pkt :: net_out (proto s1) /\ self s2 = self s1)
  /\ (if is_reliable (self s)
      then fst (net_send pkt NET_SEND_RETRANSMIT s) = s
      else net_out (proto (fst (net_send pkt NET_SEND_RETRANSMIT s)))
           = buf pkt :: net_out (proto s)).
Proof.
  cbv zeta. unfold set_protocol, net_send, on_self, on_proto, modify, bind, gets, when.
  cbn [fst snd self proto is_reliable set_is_reliable is_retransmit negb orb].
  unfold Protocol_is_reliable.
  split; [reflexivity | split; [| split]].
  - destruct (Protocol_is_tcp pr); reflexivity.
  - destruct (Protocol_is_tcp pr); cbn; [| split]; reflexivity.
  - destruct (is_reliable (self s)); cbn; [destruct s|]; reflexivity.
Qed.

Lemma crypto_ready_false (k : KeyContext) :
  state k < ACTIVE \/ Z.land (crypto_flags k) CRYPTO_DEFINED = 0
  \/ invalidated k = true ->
  crypto_ready k = false.
Proof.
  unfold crypto_ready. intros [H | [H | H]].
  - destruct (Z.geb_spec (state k) ACTIVE); [lia | reflexivity].
  - rewrite H. cbn. rewrite andb_false_r. reflexivity.
  - rewrite H. cbn. apply andb_false_r.
Qed.

(** C10.  When the key context is not ready (state below ACTIVE, or
    no crypto context defined, or invalidated), [encrypt] and [decrypt]
    return normally with the buffer truncated to zero size and the
    engine state untouched. *)
Theorem not_ready_yields_empty_buffer (b : Buffer) (s : KSt) :
  state (self s) < ACTIVE
  \/ Z.land (crypto_flags (self s)) CRYPTO_DEFINED = 0
  \/ invalidated (self s) = true ->
  encrypt b s = (s, Ret []) /\ decrypt b s = (s, Ret []).
Proof.
  intros H. apply crypto_ready_false in H.
  unfold encrypt, decrypt, decrypt_try, catch_buffer, bind, gets.
  rewrite H. split; reflexivity.
Qed.

End Sends.

Lemma not_ready_yields_empty_buffer_witness :
  let s := @mkKSt Demo.demo (Demo.demo_proto PROTO_UDP true)
             (set_invalidated true HANDSHAKE_TIMEOUT (Demo.demo_key 0 false)) in
  @encrypt Demo.demo [x45; x00] s = (s, Ret [])
  /\ @decrypt Demo.demo (Demo.data_packet x00 [x45; x00]) s = (s, Ret []).
Proof.
  cbv zeta. split.
  - apply (@not_ready_yields_empty_buffer Demo.demo). right. right. reflexivity.
  - apply (@not_ready_yields_empty_buffer Demo.demo). right. right. reflexivity.
Defined.

(** ** Frame rules *)

Create HintDb frames.

Section FrameRules.

Context {C : Collaborators}.
Variables tcp upd : bool.

Lemma proto_frame_refl (p : Proto) : proto_frame upd p p.
Proof. unfold proto_frame. repeat split; auto. exists []. reflexivity. Qed.

Lemma proto_frame_trans (p1 p2 p3 : Proto) :
  proto_frame upd p1 p2 -> proto_frame upd p2 p3 -> proto_frame upd p1 p3.
Proof.
  unfold proto_frame.
  intros (Hc1 & Hn1 & Hk1 & [b1 Hs1]) (Hc2 & Hn2 & Hk2 & [b2 Hs2]).
  split; [congruence | split; [congruence | split]].
  - destruct Hk2 as [Hk2 | [Hu Hk2]].
    + destruct Hk1 as [Hk1 | [Hu Hk1]]; [left | right; split; trivial]; congruence.
    + right. split; [exact Hu | congruence].
  - exists (b2 ++ b1). rewrite Hs2, Hs1. apply app_assoc.
Qed.

Lemma frame_refl (s : KSt) : frame tcp upd s s.
Proof. unfold frame. auto using proto_frame_refl. Qed.

Lemma frame_trans (s1 s2 s3 : KSt) :
  frame tcp upd s1 s2 -> frame tcp upd s2 s3 -> frame tcp upd s1 s3.
Proof.
  unfold frame. intros (Hp1 & Hm1 & Hu1) (Hp2 & Hm2 & Hu2).
  split; [eauto using proto_frame_trans | split].
  - auto.
  - intros Ht. rewrite Hu2, Hu1; auto.
Qed.

Lemma frame_is_tcp (s s' : KSt) :
  frame tcp upd s s' -> is_tcp (proto s') = is_tcp (proto s).
Proof.
  intros ((Hc & _) & _). unfold is_tcp. rewrite Hc. reflexivity.
Qed.

Lemma framed_ret {A : Type} (a : A) : framed tcp upd (ret a).
Proof. intros s _. apply frame_refl. Qed.

Lemma framed_lift {A : Type} (o : outcome A) : framed tcp upd (lift o).
Proof. intros s _. apply frame_refl. Qed.

Lemma framed_throw {A : Type} (e : Exn) : framed tcp upd (@throw KSt A e).
Proof. intros s _. apply frame_refl. Qed.

Lemma framed_gets {A : Type} (f : KSt -> A) : framed tcp upd (gets f).
Proof. intros s _. apply frame_refl. Qed.

Lemma framed_bind {A B : Type} (m : M KSt A) (k : A -> M KSt B) :
  framed tcp upd m -> (forall a, framed tcp upd (k a)) -> framed tcp upd (bind m k).
Proof.
  intros Hm Hk s Hs. unfold bind.
  specialize (Hm s Hs). destruct (m s) as [s1 [a | e]]; cbn [fst] in *.
  - eapply frame_trans; [exact Hm | apply Hk].
    rewrite (frame_is_tcp _ _ Hm). exact Hs.
  - exact Hm.
Qed.

(** A value read from the parent keeps the transport of the state it
    was read in. *)
Lemma framed_bind_proto {B : Type} (k : Proto -> M KSt B) :
  (forall p, is_tcp p = tcp -> framed tcp upd (k p)) ->
  framed tcp upd (bind (gets proto) k).
Proof.
  intros Hk s Hs. unfold bind, gets. apply Hk; exact Hs.
Qed.

Lemma framed_when (c : bool) (m : M KSt unit) :
  framed tcp upd m -> framed tcp upd (when c m).
Proof.
  intros Hm. destruct c; [exact Hm | apply framed_ret].
Qed.

Lemma framed_catch {A : Type} (m h : M KSt A) :
  framed tcp upd m -> framed tcp upd h -> framed tcp upd (catch_buffer m h).
Proof.
  intros Hm Hh s Hs. unfold catch_buffer.
  specialize (Hm s Hs). destruct (m s) as [s1 [a | e]]; cbn [fst] in *.
  - exact Hm.
  - destruct e; try exact Hm.
    eapply frame_trans; [exact Hm | apply Hh].
    rewrite (frame_is_tcp _ _ Hm). exact Hs.
Qed.

Lemma framed_on_proto (f : Proto -> Proto) :
  (forall p, proto_frame upd p (f p)) -> framed tcp upd (on_proto f).
Proof.
  intros Hf s _. unfold on_proto, modify, frame. cbn. auto.
Qed.

Lemma framed_on_self (f : KeyContext -> KeyContext) :
  (forall k, invalidated_ (f k) = invalidated_ k) -> framed tcp upd (on_self f).
Proof.
  intros Hf s _. unfold on_self, modify, frame. cbn.
  rewrite Hf. auto using proto_frame_refl.
Qed.

Lemma Base_invalidate_invalidated (e : ErrorType) (k : KeyContext) :
  invalidated_ (Base_invalidate e k) = true.
Proof.
  unfold Base_invalidate. destruct (invalidated_ k) eqn:E; [exact E | reflexivity].
Qed.

(** Invalidation happens under an [is_tcp] test only. *)
Lemma framed_invalidate_when (p : Proto) (c : bool) (e : ErrorType) :
  is_tcp p = tcp -> framed tcp upd (when (is_tcp p && c) (invalidate e)).
Proof.
  intros Hp s _.
  destruct (is_tcp p) eqn:E; [destruct c |]; cbn [andb when]; try apply frame_refl.
  unfold invalidate, on_self, modify, frame. cbn.
  split; [apply proto_frame_refl | split].
  - intros _. apply Base_invalidate_invalidated.
  - intros Ht. congruence.
Qed.

Lemma framed_invalidate_when_tcp (p : Proto) (e : ErrorType) :
  is_tcp p = tcp -> framed tcp upd (when (is_tcp p) (invalidate e)).
Proof.
  intros Hp. rewrite <- (andb_true_r (is_tcp p)).
  apply framed_invalidate_when. exact Hp.
Qed.

End FrameRules.

#[local] Hint Resolve framed_ret framed_lift framed_throw framed_gets : frames.

Ltac frame_setters :=
  intros; unfold proto_frame, stats_error, proto_net_send; cbn;
  repeat split; auto;
  first [ exists []; reflexivity | eexists [_]; reflexivity ].

Ltac framed_step :=
  cbv beta;
  lazymatch goal with
  | |- framed _ _ (let _ := _ in _) => cbv zeta
  | |- framed _ _ (bind (gets proto) _) => apply framed_bind_proto; intros ? ?
  | |- framed _ _ (bind _ _) => apply framed_bind; [ | intros ? ]
  | |- framed _ _ (ret _) => apply framed_ret
  | |- framed _ _ (lift _) => apply framed_lift
  | |- framed _ _ (throw _) => apply framed_throw
  | |- framed _ _ (gets _) => apply framed_gets
  | |- framed _ _ (when (is_tcp _ && _) (invalidate _)) =>
      apply framed_invalidate_when; assumption
  | |- framed _ _ (when (is_tcp _) (invalidate _)) =>
      apply framed_invalidate_when_tcp; assumption
  | |- framed _ _ (when _ _) => apply framed_when
  | |- framed _ _ (catch_buffer _ _) => apply framed_catch
  | |- framed _ _ (on_self _) => apply framed_on_self; intros; reflexivity
  | |- framed _ _ (on_proto _) => apply framed_on_proto; frame_setters
  | |- framed _ _ (match ?x with _ => _ end) => destruct x
  | |- framed _ _ _ => solve [eauto with frames]
  end.

Ltac framed_auto := repeat framed_step.

(** ** Frames of the methods *)

Section MethodFrames.

Context {C : Collaborators}.

Lemma framed_key_limit_reneg tcp upd ev t :
  framed tcp upd (key_limit_reneg ev t).
Proof. unfold key_limit_reneg. framed_auto. Qed.
Hint Resolve framed_key_limit_reneg : frames.

Lemma framed_schedule_key_limit_renegotiation tcp upd :
  framed tcp upd schedule_key_limit_renegotiation.
Proof. unfold schedule_key_limit_renegotiation. framed_auto. Qed.
Hint Resolve framed_schedule_key_limit_renegotiation : frames.

Lemma framed_data_limit_event tcp upd mode st :
  framed tcp upd (data_limit_event mode st).
Proof. unfold data_limit_event. framed_auto. Qed.
Hint Resolve framed_data_limit_event : frames.

Lemma framed_data_limit_add tcp upd mode size :
  framed tcp upd (data_limit_add mode size).
Proof. unfold data_limit_add. framed_auto. Qed.
Hint Resolve framed_data_limit_add : frames.

Lemma framed_do_encrypt tcp upd b hint :
  framed tcp upd (do_encrypt b hint).
Proof. unfold do_encrypt. framed_auto. Qed.
Hint Resolve framed_do_encrypt : frames.

Lemma framed_encrypt tcp upd b : framed tcp upd (encrypt b).
Proof. unfold encrypt. framed_auto. Qed.

Lemma framed_crypto_decrypt_call tcp upd b t op32 :
  framed tcp upd (crypto_decrypt_call b t op32).
Proof.
  intros s _. unfold crypto_decrypt_call.
  destruct (crypto_decrypt _ _ _ _) as [c' o]. unfold frame. cbn.
  auto using proto_frame_refl.
Qed.
Hint Resolve framed_crypto_decrypt_call : frames.

Lemma framed_decompress_call tcp upd c b :
  framed tcp upd (decompress_call c b).
Proof.
  intros s _. unfold decompress_call.
  destruct (comp_decompress _ _) as [c' o]. unfold frame. cbn.
  auto using proto_frame_refl.
Qed.
Hint Resolve framed_decompress_call : frames.

Lemma framed_decrypt_try tcp upd b : framed tcp upd (decrypt_try b).
Proof. unfold decrypt_try. framed_auto. Qed.
Hint Resolve framed_decrypt_try : frames.

Lemma framed_decrypt_catch tcp upd b : framed tcp upd (decrypt_catch b).
Proof. unfold decrypt_catch. framed_auto. Qed.
Hint Resolve framed_decrypt_catch : frames.

Lemma framed_decrypt tcp upd b : framed tcp upd (decrypt b).
Proof. unfold decrypt. framed_auto. Qed.

Lemma framed_send_data_channel_message tcp upd data :
  framed tcp upd (send_data_channel_message data).
Proof. unfold send_data_channel_message. framed_auto. Qed.

Lemma framed_ack_loop tcp upd n live b : framed tcp upd (ack_loop n live b).
Proof.
  revert b. induction n as [|n IH]; intros b; cbn [ack_loop]; framed_auto.
Qed.
Hint Resolve framed_ack_loop : frames.

Lemma framed_ReliableAck_ack tcp upd live b :
  framed tcp upd (ReliableAck_ack live b).
Proof. unfold ReliableAck_ack. framed_auto. Qed.
Hint Resolve framed_ReliableAck_ack : frames.

Lemma framed_xmit_acks_push_back tcp upd id :
  framed tcp upd (xmit_acks_push_back id).
Proof. unfold xmit_acks_push_back. framed_auto. Qed.
Hint Resolve framed_xmit_acks_push_back : frames.

Lemma framed_ta_pid_recv_test_add tcp upd pid t m :
  framed tcp upd (ta_pid_recv_test_add pid t m).
Proof.
  intros s _. unfold ta_pid_recv_test_add.
  destruct (pid_test_add _ _ _ _) as [r' ok]. unfold frame. cbn.
  split; [frame_setters | auto].
Qed.
Hint Resolve framed_ta_pid_recv_test_add : frames.

Lemma framed_rel_recv_receive_call tcp upd pkt id :
  framed tcp upd (rel_recv_receive_call pkt id).
Proof.
  intros s _. unfold rel_recv_receive_call.
  destruct (rel_recv_receive _ _ _) as [r' fl]. unfold frame. cbn.
  auto using proto_frame_refl.
Qed.
Hint Resolve framed_rel_recv_receive_call : frames.

Lemma framed_verify_src_psid tcp upd src : framed tcp upd (verify_src_psid src).
Proof. unfold verify_src_psid. framed_auto. Qed.
Hint Resolve framed_verify_src_psid : frames.

Lemma framed_verify_dest_psid tcp upd b : framed tcp upd (verify_dest_psid b).
Proof. unfold verify_dest_psid. framed_auto. Qed.
Hint Resolve framed_verify_dest_psid : frames.

Lemma framed_decapsulate_tail tcp upd pkt recv pid pid_ok :
  framed tcp upd (decapsulate_tail pkt recv pid pid_ok).
Proof. unfold decapsulate_tail. framed_auto. Qed.
Hint Resolve framed_decapsulate_tail : frames.

Lemma framed_update_last_received tcp :
  framed tcp true (on_proto update_last_received).
Proof.
  apply framed_on_proto. intros p. unfold proto_frame, update_last_received. cbn.
  repeat split; auto. exists []. reflexivity.
Qed.
Hint Resolve framed_update_last_received : frames.

Lemma framed_decapsulate_try tcp pkt : framed tcp true (decapsulate_try pkt).
Proof. unfold decapsulate_try. framed_auto. Qed.
Hint Resolve framed_decapsulate_try : frames.

Lemma framed_decapsulate_catch tcp upd : framed tcp upd decapsulate_catch.
Proof. unfold decapsulate_catch. framed_auto. Qed.
Hint Resolve framed_decapsulate_catch : frames.

Lemma framed_decapsulate tcp pkt : framed tcp true (decapsulate pkt).
Proof. unfold decapsulate. framed_auto. Qed.

End MethodFrames.

#[local] Hint Resolve framed_key_limit_reneg framed_schedule_key_limit_renegotiation
  framed_data_limit_event framed_data_limit_add framed_do_encrypt framed_encrypt
  framed_crypto_decrypt_call framed_decompress_call framed_decrypt_try
  framed_decrypt_catch framed_decrypt framed_send_data_channel_message
  framed_ack_loop framed_ReliableAck_ack framed_xmit_acks_push_back
  framed_ta_pid_recv_test_add framed_rel_recv_receive_call framed_verify_src_psid
  framed_verify_dest_psid framed_decapsulate_tail framed_update_last_received
  framed_decapsulate_try framed_decapsulate_catch framed_decapsulate : frames.

(** ** Control packets that fail the tls-auth HMAC *)

Ltac bad_hmac_fin s :=
  unfold bind, on_proto, modify, gets, when, invalidate, on_self, ret, is_tcp, stats_error;
  cbn;
  destruct (Protocol_is_tcp (cfg_protocol (config (proto s)))); cbn; reflexivity.

Section HmacFailure.

Context {C : Collaborators}.

(** What [Base_invalidate] leaves alone. *)
Lemma Base_invalidate_frame (e : ErrorType) (k : KeyContext) :
  state (Base_invalidate e k) = state k
  /\ key_id_ (Base_invalidate e k) = key_id_ k
  /\ rel_send (Base_invalidate e k) = rel_send k
  /\ rel_recv (Base_invalidate e k) = rel_recv k
  /\ xmit_acks (Base_invalidate e k) = xmit_acks k.
Proof.
  unfold Base_invalidate. destruct (invalidated_ k); repeat split; reflexivity.
Qed.

Lemma decapsulate_bad_hmac (pkt : Packet) (s : KSt) :
  use_tls_auth (proto s) = true ->
  ovpn_hmac_cmp (ta_hmac_recv (proto s)) (buf pkt)
    (1 + PSID_SIZE) (hmac_size (proto s)) PID_LONG_SIZE = false ->
  decapsulate pkt s
  = (mkKSt (stats_error (bad_hmac_error pkt (proto s)) (proto s))
       (if is_tcp (proto s)
        then Base_invalidate (bad_hmac_error pkt (proto s)) (self s)
        else self s),
     Ret false).
Proof.
  intros Htls Hcmp.
  unfold decapsulate, catch_buffer, decapsulate_try, decapsulate_catch, bad_hmac_error.
  unfold bind at 1. unfold gets at 1. rewrite Htls. cbv zeta.
  unfold bind at 1. unfold lift at 1. unfold buf_advance at 1.
  destruct (Nat.leb_spec 1 (length (buf pkt))) as [L1|L1].
  2:{ destruct (Nat.leb_spec (1 + PSID_SIZE + hmac_size (proto s)) (length (buf pkt)));
      [unfold PSID_SIZE in *; lia|].
      bad_hmac_fin s. }
  unfold bind at 1. unfold lift at 1. unfold psid_read, buf_read, obind.
  rewrite length_skipn.
  destruct (Nat.leb_spec PSID_SIZE (length (buf pkt) - 1)) as [L2|L2].
  2:{ destruct (Nat.leb_spec (1 + PSID_SIZE + hmac_size (proto s)) (length (buf pkt)));
      [unfold PSID_SIZE in *; lia|].
      bad_hmac_fin s. }
  unfold bind at 1. unfold lift at 1. unfold buf_advance at 1.
  rewrite !length_skipn.
  destruct (Nat.leb_spec (hmac_size (proto s)) (length (buf pkt) - 1 - PSID_SIZE))
    as [L3|L3].
  2:{ destruct (Nat.leb_spec (1 + PSID_SIZE + hmac_size (proto s)) (length (buf pkt)));
      [unfold PSID_SIZE in *; lia|].
      bad_hmac_fin s. }
  rewrite Hcmp. cbn [negb].
  destruct (Nat.leb_spec (1 + PSID_SIZE + hmac_size (proto s)) (length (buf pkt)));
    [|unfold PSID_SIZE in *; lia].
  bad_hmac_fin s.
Qed.

(** C1, as the code has it.  A control packet received in tls-auth mode
    whose HMAC does not verify is dropped ([decapsulate] returns false)
    and leaves [psid_peer], the replay window [ta_pid_recv], the
    keepalive deadline, both reliability windows, the pending ACKs and
    the negotiation state as they were.  The parent changes by one entry
    in the error sink.  Off TCP the key context is not touched at all;
    on TCP the key context is invalidated, and that is its only
    change. *)
Theorem hmac_failure_state_effect (pkt : Packet) (s : KSt) :
  use_tls_auth (proto s) = true ->
  ovpn_hmac_cmp (ta_hmac_recv (proto s)) (buf pkt)
    (1 + PSID_SIZE) (hmac_size (proto s)) PID_LONG_SIZE = false ->
  let s' := fst (decapsulate pkt s) in
  let e := bad_hmac_error pkt (proto s) in
  snd (decapsulate pkt s) = Ret false
  /\ proto s' = stats_error e (proto s)
  /\ psid_peer (proto s') = psid_peer (proto s)
  /\ ta_pid_recv (proto s') = ta_pid_recv (proto s)
  /\ keepalive_expire (proto s') = keepalive_expire (proto s)
  /\ rel_send (self s') = rel_send (self s)
  /\ rel_recv (self s') = rel_recv (self s)
  /\ xmit_acks (self s') = xmit_acks (self s)
  /\ state (self s') = state (self s)
  /\ (if is_tcp (proto s)
      then self s' = Base_invalidate e (self s) /\ invalidated (self s') = true
      else self s' = self s).
Proof.
  intros Htls Hcmp. cbv zeta.
  rewrite (decapsulate_bad_hmac pkt s Htls Hcmp). cbn [fst snd proto self].
  destruct (Base_invalidate_frame (bad_hmac_error pkt (proto s)) (self s))
    as (Hst & _ & Hrs & Hrr & Hxa).
  split; [reflexivity|]. split; [reflexivity|].
  split; [reflexivity|]. split; [reflexivity|]. split; [reflexivity|].
  destruct (is_tcp (proto s)).
  - repeat (split; [assumption|]). split; [reflexivity|].
    apply Base_invalidate_invalidated.
  - repeat (split; [reflexivity|]). reflexivity.
Qed.

End HmacFailure.

(** The forged packet on a UDP session: one HMAC error is booked and
    nothing else changes. *)
Lemma hmac_failure_state_effect_witness :
  let s := Demo.demo_kst PROTO_UDP true in
  let r := @decapsulate Demo.demo Demo.forged_packet s in
  snd r = Ret false
  /\ proto (fst r) = stats_error HMAC_ERROR (proto s)
  /\ self (fst r) = self s.
Proof.
  cbv zeta.
  destruct (@hmac_failure_state_effect Demo.demo Demo.forged_packet
              (Demo.demo_kst PROTO_UDP true))
    as (Hr & Hp & _ & _ & _ & _ & _ & _ & _ & Hk).
  - reflexivity.
  - reflexivity.
  - split; [exact Hr | split; [exact Hp | exact Hk]].
Defined.

(** C1 as stated fails on TCP: the forged packet, whose HMAC does not
    verify, invalidates the key context that receives it and wipes its
    pending event. *)
Lemma hmac_failure_invalidates_on_tcp :
  let s := Demo.demo_kst PROTO_TCP true in
  let s' := fst (@decapsulate Demo.demo Demo.forged_packet s) in
  use_tls_auth (proto s) = true
  /\ ovpn_hmac_cmp (ta_hmac_recv (proto s)) (buf Demo.forged_packet)
       (1 + PSID_SIZE) (hmac_size (proto s)) PID_LONG_SIZE = false
  /\ invalidated_ (self s) = false
  /\ invalidated_ (self s') = true
  /\ next_event (self s) = KEV_RENEGOTIATE
  /\ next_event (self s') = KEV_NONE.
Proof.
  cbv zeta. repeat split; vm_compute; reflexivity.
Qed.

(** ** Methods that cannot throw *)

Section NoThrow.

Context {C : Collaborators}.

Lemma nothrow_ret {S A : Type} (a : A) : nothrow (@ret S A a).
Proof. intros s. exists a. reflexivity. Qed.

Lemma nothrow_gets {S A : Type} (f : S -> A) : nothrow (gets f).
Proof. intros s. exists (f s). reflexivity. Qed.

Lemma nothrow_modify {S : Type} (f : S -> S) : nothrow (modify f).
Proof. intros s. exists tt. reflexivity. Qed.

Lemma nothrow_bind {S A B : Type} (m : M S A) (k : A -> M S B) :
  nothrow m -> (forall a, nothrow (k a)) -> nothrow (bind m k).
Proof.
  intros Hm Hk s. unfold bind. destruct (Hm s) as [a Ha].
  destruct (m s) as [s1 o]. cbn in Ha. subst o. apply Hk.
Qed.

Lemma nothrow_when {S : Type} (c : bool) (m : M S unit) :
  nothrow m -> nothrow (when c m).
Proof. intros Hm. destruct c; [exact Hm | apply nothrow_ret]. Qed.

Lemma bind_ret_eq {S A B : Type} (m : M S A) (k : A -> M S B) (s s1 : S) (a : A) :
  m s = (s1, Ret a) -> bind m k s = k a s1.
Proof. intros H. unfold bind. rewrite H. reflexivity. Qed.

End NoThrow.

Ltac nothrow_step :=
  cbv beta;
  lazymatch goal with
  | |- nothrow (let _ := _ in _) => cbv zeta
  | |- nothrow (bind _ _) => apply nothrow_bind; [ | intros ? ]
  | |- nothrow (ret _) => apply nothrow_ret
  | |- nothrow (gets _) => apply nothrow_gets
  | |- nothrow (when _ _) => apply nothrow_when
  | |- nothrow (on_self _) => apply nothrow_modify
  | |- nothrow (on_proto _) => apply nothrow_modify
  | |- nothrow (on_core _) => apply nothrow_modify
  | |- nothrow (modify _) => apply nothrow_modify
  | |- nothrow (match ?x with _ => _ end) => destruct x
  | |- nothrow _ => solve [eauto with frames]
  end.

Ltac nothrow_auto := repeat nothrow_step.

Section NoThrowMethods.

Context {C : Collaborators}.

Lemma nothrow_invalidate e : nothrow (invalidate e).
Proof. unfold invalidate. nothrow_auto. Qed.
Hint Resolve nothrow_invalidate : frames.

Lemma nothrow_key_limit_reneg ev t : nothrow (key_limit_reneg ev t).
Proof. unfold key_limit_reneg. nothrow_auto. Qed.
Hint Resolve nothrow_key_limit_reneg : frames.

Lemma nothrow_schedule_key_limit_renegotiation :
  nothrow schedule_key_limit_renegotiation.
Proof. unfold schedule_key_limit_renegotiation. nothrow_auto. Qed.
Hint Resolve nothrow_schedule_key_limit_renegotiation : frames.

Lemma nothrow_data_limit_event mode st : nothrow (data_limit_event mode st).
Proof. unfold data_limit_event. nothrow_auto. Qed.
Hint Resolve nothrow_data_limit_event : frames.

Lemma nothrow_data_limit_add mode size : nothrow (data_limit_add mode size).
Proof. unfold data_limit_add. nothrow_auto. Qed.
Hint Resolve nothrow_data_limit_add : frames.

Lemma nothrow_do_encrypt b hint : nothrow (do_encrypt b hint).
Proof. unfold do_encrypt. nothrow_auto. Qed.
Hint Resolve nothrow_do_encrypt : frames.

Lemma nothrow_send_data_channel_message data :
  nothrow (send_data_channel_message data).
Proof. unfold send_data_channel_message. nothrow_auto. Qed.

End NoThrowMethods.

#[local] Hint Resolve nothrow_invalidate nothrow_key_limit_reneg
  nothrow_schedule_key_limit_renegotiation nothrow_data_limit_event
  nothrow_data_limit_add nothrow_do_encrypt nothrow_send_data_channel_message : frames.

(** ** Per-packet receive errors *)

Section ReceiveErrors.

Context {C : Collaborators}.

Lemma catch_buffer_caught {S A : Type} (m h : M S A) (s : S) :
  snd (m s) = Throw BufferException -> catch_buffer m h s = h (fst (m s)).
Proof.
  unfold catch_buffer. destruct (m s) as [s1 o]. cbn. intros ->. reflexivity.
Qed.

Lemma catch_buffer_passed {S A : Type} (m h : M S A) (s : S) (a : A) :
  snd (m s) = Ret a -> catch_buffer m h s = m s.
Proof.
  unfold catch_buffer. destruct (m s) as [s1 o]. cbn. intros ->. reflexivity.
Qed.

Lemma decapsulate_catch_eq (s : KSt) :
  decapsulate_catch s
  = (mkKSt (stats_error BUFFER_ERROR (proto s))
       (if is_tcp (proto s) then Base_invalidate BUFFER_ERROR (self s) else self s),
     Ret false).
Proof. unfold decapsulate_catch. bad_hmac_fin s. Qed.

Lemma decrypt_catch_eq (b : Buffer) (s : KSt) :
  decrypt_catch b s
  = (mkKSt (stats_error BUFFER_ERROR (proto s))
       (if is_tcp (proto s) then Base_invalidate BUFFER_ERROR (self s) else self s),
     Ret []).
Proof. unfold decrypt_catch. bad_hmac_fin s. Qed.

(** What a caught buffer error adds to the run of a framed [try]
    block. *)
Lemma caught_buffer_error {A : Type} (upd : bool) (m : M KSt A) (s : KSt) :
  framed (is_tcp (proto s)) upd m ->
  let s1 := fst (m s) in
  let s' := mkKSt (stats_error BUFFER_ERROR (proto s1))
              (if is_tcp (proto s1) then Base_invalidate BUFFER_ERROR (self s1)
               else self s1) in
  (exists booked, stats (proto s') = BUFFER_ERROR :: booked ++ stats (proto s))
  /\ (if is_tcp (proto s) then invalidated (self s') = true
      else invalidated (self s') = invalidated (self s)).
Proof.
  intros Hm. cbv zeta.
  destruct (Hm s eq_refl) as ((Hc & _ & _ & [booked Hb]) & _ & Hu).
  assert (Ht : is_tcp (proto (fst (m s))) = is_tcp (proto s))
    by (unfold is_tcp; rewrite Hc; reflexivity).
  rewrite Ht. cbn [proto self]. split.
  - exists booked. unfold stats_error. cbn. rewrite Hb. reflexivity.
  - destruct (is_tcp (proto s)).
    + apply Base_invalidate_invalidated.
    + apply Hu. reflexivity.
Qed.

(** The run of [decrypt_try] up to the booking of an HMAC or decrypt
    error reported by the cipher instance. *)
Lemma decrypt_try_rejected (b : Buffer) (op : byte) (body : Buffer)
      (c' : CryptoDC) (err : ErrorType) (out : Buffer) (s : KSt) :
  crypto_ready (self s) = true ->
  buf_index0 b = Ret op ->
  buf_advance (op_head_size (byte_to_Z op)) b = Ret body ->
  crypto_decrypt (crypto (self s)) body (seconds_since_epoch (now_ (proto s)))
    (if Nat.eqb (op_head_size (byte_to_Z op)) OP_SIZE_V2
     then Some (firstn OP_SIZE_V2 b) else None) = (c', Ret (err, out)) ->
  err = HMAC_ERROR \/ err = DECRYPT_ERROR ->
  decrypt_try b s
  = (k <- gets self ;;
     when (is_Some (data_limit k)) (data_limit_add Decrypt (buf_size out)) ;;
     k <- gets self ;;
     match compress k with
     | Some c => decompress_call c out
     | None => ret out
     end)
      (mkKSt (stats_error err (proto s))
         (if is_tcp (proto s) then Base_invalidate err (set_crypto c' (self s))
          else set_crypto c' (self s))).
Proof.
  intros Hready Hop Hadv Hcrypto Herr.
  unfold decrypt_try.
  unfold bind at 1. unfold gets at 1. rewrite Hready.
  unfold bind at 1. unfold lift at 1. rewrite Hop. cbv zeta.
  unfold bind at 1. unfold lift at 1. rewrite Hadv.
  unfold bind at 1. unfold gets at 1.
  unfold bind at 1. unfold crypto_decrypt_call at 1.
  match goal with
  | |- context [crypto_decrypt ?a ?x ?t ?ad] =>
      replace (crypto_decrypt a x t ad) with (c', Ret (err, out))
        by (symmetry; exact Hcrypto)
  end.
  unfold bind at 1.
  assert (Hstep :
    when (negb (error_eqb err SUCCESS))
      (on_proto (stats_error err) ;;
       when (is_tcp (proto s)
             && (error_eqb err DECRYPT_ERROR || error_eqb err HMAC_ERROR))
         (invalidate err))
      (mkKSt (proto s) (set_crypto c' (self s)))
    = (mkKSt (stats_error err (proto s))
         (if is_tcp (proto s) then Base_invalidate err (set_crypto c' (self s))
          else set_crypto c' (self s)), Ret tt)).
  { destruct Herr as [-> | ->]; cbn [error_eqb negb when orb];
      unfold bind, on_proto, modify, when, invalidate, on_self, ret; cbn;
      destruct (is_tcp (proto s)); reflexivity. }
  rewrite Hstep. reflexivity.
Qed.

(** [decrypt] seen from a state [s2] that its [try] block passes
    through with [rest] still to run. *)
Lemma decrypt_after (b : Buffer) (s s2 : KSt) (rest : M KSt Buffer) :
  decrypt_try b s = rest s2 ->
  framed (is_tcp (proto s2)) false rest ->
  let r := decrypt b s in
  (exists booked, stats (proto (fst r)) = booked ++ stats (proto s2))
  /\ (invalidated_ (self s2) = true -> invalidated_ (self (fst r)) = true)
  /\ (is_tcp (proto s2) = false ->
      invalidated_ (self (fst r)) = invalidated_ (self s2))
  /\ (forall a, snd (rest s2) = Ret a -> snd r = Ret a).
Proof.
  intros Heq Hrest. cbv zeta. unfold decrypt, catch_buffer. rewrite Heq.
  destruct (Hrest s2 eq_refl) as ((Hc & _ & _ & [booked Hb]) & Hm & Hu).
  destruct (rest s2) as [s3 o]. cbn [fst snd] in *.
  assert (Ht : is_tcp (proto s3) = is_tcp (proto s2))
    by (unfold is_tcp; rewrite Hc; reflexivity).
  destruct o as [a | e]; [| destruct e]; cbn [fst snd];
    try (split; [exists booked; exact Hb
                | split; [exact Hm | split; [exact Hu | congruence]]]).
  rewrite decrypt_catch_eq. cbn [fst snd proto self]. rewrite Ht.
  split; [| split; [| split]].
  - exists (BUFFER_ERROR :: booked). unfold stats_error. cbn. rewrite Hb. reflexivity.
  - intros H2. destruct (is_tcp (proto s2)); [apply Base_invalidate_invalidated | auto].
  - intros H2. rewrite H2. auto.
  - discriminate.
Qed.

End ReceiveErrors.

(** ** Data packets: keepalive and explicit-exit-notify magic *)

Section DataDecrypt.

Context {C : Collaborators}.

Lemma select_key_context_fst (type : PacketType) (control : bool) (pc : ProtoContext) :
  fst (select_key_context type control pc) = pc.
Proof.
  unfold select_key_context, bind, gets. cbv zeta.
  destruct (primary pc), (secondary pc);
    repeat match goal with
           | |- context [if ?c then _ else _] => destruct c
           end; reflexivity.
Qed.

Lemma is_keepalive_magic : is_keepalive keepalive_message = true.
Proof. reflexivity. Qed.

Lemma is_keepalive_exit_magic : is_keepalive explicit_exit_notify_message = false.
Proof. reflexivity. Qed.

Lemma data_decrypt_eq (type : PacketType) (b : Buffer) (pc pc1 : ProtoContext)
      (sl : Slot) (k : KeyContext) (out : Buffer) :
  snd (select_key_context type false pc) = Ret (sl, k) ->
  call sl k (decrypt b) pc = (pc1, Ret out) ->
  data_decrypt type b pc
  = (if (0 <? length out)%nat then received pc1 else pc1,
     Ret ((0 <? length out)%nat, if is_keepalive out then [] else out)).
Proof.
  intros Hsel Hcall. unfold data_decrypt.
  unfold bind at 1.
  pose proof (select_key_context_fst type false pc) as Hfst.
  destruct (select_key_context type false pc) as [pc0 o]. cbn in Hsel, Hfst.
  subst pc0 o.
  unfold bind at 1. rewrite Hcall.
  unfold bind, on_core, modify, ret, buf_size, buf_reset_size, received.
  destruct (0 <? length out)%nat; reflexivity.
Qed.

(** C8, as the code has it.  After the key context has decrypted the
    packet into [out], [data_decrypt] resets the keepalive deadline when
    [out] is non-empty and empties the buffer when [out] starts with the
    16-byte keepalive magic.  A result equal to the keepalive magic is
    therefore discarded (the call still returns true).  A result equal
    to the explicit-exit-notify magic gets no treatment of its own: it
    is handed back unchanged, as payload, with return value true. *)
Theorem data_decrypt_magic (type : PacketType) (b : Buffer) (pc pc1 : ProtoContext)
        (sl : Slot) (k : KeyContext) (out : Buffer) :
  snd (select_key_context type false pc) = Ret (sl, k) ->
  call sl k (decrypt b) pc = (pc1, Ret out) ->
  data_decrypt type b pc
  = (if (0 <? length out)%nat then received pc1 else pc1,
     Ret ((0 <? length out)%nat, if is_keepalive out then [] else out))
  /\ (out = keepalive_message ->
      data_decrypt type b pc = (received pc1, Ret (true, [])))
  /\ (out = explicit_exit_notify_message ->
      data_decrypt type b pc = (received pc1, Ret (true, explicit_exit_notify_message))).
Proof.
  intros Hsel Hcall.
  pose proof (data_decrypt_eq type b pc pc1 sl k out Hsel Hcall) as H.
  split; [exact H | split]; intros ->; exact H.
Qed.

End DataDecrypt.

Lemma data_decrypt_magic_witness :
  let pc := Demo.demo_context PROTO_UDP in
  let pkt := Demo.data_packet x00 keepalive_message in
  snd (@data_decrypt Demo.demo (packet_type pkt pc) pkt pc) = Ret (true, []).
Proof.
  cbv zeta.
  destruct (@data_decrypt_magic Demo.demo
              (packet_type (Demo.data_packet x00 keepalive_message)
                 (Demo.demo_context PROTO_UDP))
              (Demo.data_packet x00 keepalive_message)
              (Demo.demo_context PROTO_UDP) (Demo.demo_context PROTO_UDP)
              Primary (Demo.demo_key 0 false) keepalive_message)
    as (_ & H & _).
  - reflexivity.
  - reflexivity.
  - rewrite (H eq_refl). reflexivity.
Defined.

(** C8 as stated fails on a data packet that decrypts to the
    explicit-exit-notify magic: [data_decrypt] hands the 17 bytes back as
    payload with return value true, books nothing, sends nothing, leaves
    both key-context slots as they were, and ends in the very state it
    reaches for 17 bytes of ordinary payload. *)
Lemma exit_notify_is_delivered_as_payload :
  let pc := Demo.demo_context PROTO_UDP in
  let pkt := Demo.data_packet x00 explicit_exit_notify_message in
  let other := Demo.data_packet x00 (repeat xaa 17) in
  let r := @data_decrypt Demo.demo (packet_type pkt pc) pkt pc in
  snd r = Ret (true, explicit_exit_notify_message)
  /\ stats (core (fst r)) = stats (core pc)
  /\ net_out (core (fst r)) = net_out (core pc)
  /\ primary (fst r) = primary pc
  /\ secondary (fst r) = secondary pc
  /\ fst r = fst (@data_decrypt Demo.demo (packet_type other pc) other pc).
Proof.
  cbv zeta. repeat split; vm_compute; reflexivity.
Qed.

(** ** Keepalive deadline *)

Section Keepalive.

Context {C : Collaborators}.

Lemma frame_keepalive_expire (tcp : bool) (s s' : KSt) :
  frame tcp false s s' ->
  keepalive_expire (proto s') = keepalive_expire (proto s)
  /\ now_ (proto s') = now_ (proto s)
  /\ config (proto s') = config (proto s)
  /\ exists booked, stats (proto s') = booked ++ stats (proto s).
Proof.
  intros ((Hc & Hn & Hk & Hb) & _).
  destruct Hk as [Hk | [Hu _]]; [auto | discriminate].
Qed.

Lemma ovpn_hmac_cmp_true (h : OvpnHMAC) (data : Buffer) (l1 l2 l3 : nat) :
  ovpn_hmac_cmp h data l1 l2 l3 = true ->
  (l1 + l2 + l3 <= length data)%nat
  /\ l2 = hmac_output_size h
  /\ firstn l2 (skipn l1 data)
     = firstn l2 (hmac_digest h (firstn l3 (skipn (l1 + l2) data) ++ firstn l1 data
                                 ++ skipn (l1 + l2 + l3) data)).
Proof.
  unfold ovpn_hmac_cmp, ovpn_hmac_pre.
  destruct (Nat.ltb_spec (length data) (l1 + l2 + l3)) as [L|L]; cbn [orb];
    [discriminate|].
  destruct (Nat.eqb_spec l2 (hmac_output_size h)) as [E|E]; cbn [negb];
    [| discriminate].
  intros H. apply bytes_eqb_true in H. auto.
Qed.

(** [decapsulate] seen from a state [s1] that its [try] block passes
    through with [rest] still to run, [rest] leaving the deadline
    alone. *)
Lemma decapsulate_after (pkt : Packet) (s s1 : KSt) (rest : M KSt bool) :
  decapsulate_try pkt s = rest s1 ->
  framed (is_tcp (proto s1)) false rest ->
  keepalive_expire (proto (fst (decapsulate pkt s))) = keepalive_expire (proto s1).
Proof.
  intros Heq Hrest. unfold decapsulate, catch_buffer. rewrite Heq.
  destruct (frame_keepalive_expire _ _ _ (Hrest s1 eq_refl)) as (Hk & _).
  destruct (rest s1) as [s3 o]. cbn [fst] in *.
  destruct o as [a | e]; [| destruct e]; cbn [fst]; try exact Hk.
  rewrite decapsulate_catch_eq. cbn. exact Hk.
Qed.

Lemma decapsulate_try_authentic (pkt : Packet) (s : KSt) :
  use_tls_auth (proto s) = true ->
  ovpn_hmac_cmp (ta_hmac_recv (proto s)) (buf pkt)
    (1 + PSID_SIZE) (hmac_size (proto s)) PID_LONG_SIZE = true ->
  exists rest,
    decapsulate_try pkt s = rest (mkKSt (update_last_received (proto s)) (self s))
    /\ forall tcp, framed tcp false rest.
Proof.
  intros Htls Hcmp.
  destruct (ovpn_hmac_cmp_true _ _ _ _ _ Hcmp) as (Hlen & _).
  unfold decapsulate_try.
  unfold bind at 1. unfold gets at 1. rewrite Htls. cbv zeta.
  unfold bind at 1. unfold lift at 1. unfold buf_advance at 1.
  destruct (Nat.leb_spec 1 (length (buf pkt))) as [L1|L1];
    [| unfold PSID_SIZE in *; lia].
  unfold bind at 1. unfold lift at 1. unfold psid_read, buf_read, obind.
  rewrite length_skipn.
  destruct (Nat.leb_spec PSID_SIZE (length (buf pkt) - 1)) as [L2|L2];
    [| unfold PSID_SIZE in *; lia].
  unfold bind at 1. unfold lift at 1. unfold buf_advance at 1.
  rewrite !length_skipn.
  destruct (Nat.leb_spec (hmac_size (proto s)) (length (buf pkt) - 1 - PSID_SIZE))
    as [L3|L3]; [| unfold PSID_SIZE in *; lia].
  rewrite Hcmp. cbn [negb].
  unfold bind at 1. unfold on_proto at 1. unfold modify at 1.
  eexists. split; [reflexivity |].
  intros tcp. framed_auto.
Qed.

Lemma decapsulate_try_no_tls_auth (pkt : Packet) (s : KSt) :
  use_tls_auth (proto s) = false ->
  exists rest,
    decapsulate_try pkt s = rest (mkKSt (update_last_received (proto s)) (self s))
    /\ forall tcp, framed tcp false rest.
Proof.
  intros Htls. unfold decapsulate_try.
  unfold bind at 1. unfold gets at 1. rewrite Htls. cbv zeta.
  unfold bind at 1. unfold on_proto at 1. unfold modify at 1.
  eexists. split; [reflexivity |].
  intros tcp. framed_auto.
Qed.

Lemma decapsulate_resets_deadline (pkt : Packet) (s : KSt) :
  use_tls_auth (proto s) = false
  \/ ovpn_hmac_cmp (ta_hmac_recv (proto s)) (buf pkt)
       (1 + PSID_SIZE) (hmac_size (proto s)) PID_LONG_SIZE = true ->
  keepalive_expire (proto (fst (decapsulate pkt s))) = keepalive_deadline (proto s).
Proof.
  intros H.
  assert (Hrest : exists rest,
             decapsulate_try pkt s
             = rest (mkKSt (update_last_received (proto s)) (self s))
             /\ forall tcp, framed tcp false rest).
  { destruct H as [H | H].
    - apply decapsulate_try_no_tls_auth. exact H.
    - destruct (use_tls_auth (proto s)) eqn:E.
      + apply decapsulate_try_authentic; assumption.
      + apply decapsulate_try_no_tls_auth. exact E. }
  destruct Hrest as (rest & Heq & Hfr).
  rewrite (decapsulate_after pkt s _ rest Heq (Hfr _)). reflexivity.
Qed.

Lemma data_decrypt_resets_deadline (type : PacketType) (b : Buffer)
      (pc pc' : ProtoContext) (out : Buffer) :
  data_decrypt type b pc = (pc', Ret (true, out)) ->
  keepalive_expire (core pc') = keepalive_deadline (core pc).
Proof.
  unfold data_decrypt. unfold bind at 1.
  pose proof (select_key_context_fst type false pc) as Hfst.
  destruct (select_key_context type false pc) as [pc0 [[sl k] | e]];
    cbn [fst] in Hfst; subst pc0; [| discriminate].
  unfold bind at 1. unfold call.
  pose proof (framed_decrypt (is_tcp (core pc)) false b (mkKSt (core pc) k) eq_refl)
    as Hfr.
  apply frame_keepalive_expire in Hfr. destruct Hfr as (_ & Hn & Hc & _).
  destruct (decrypt b (mkKSt (core pc) k)) as [s1 [in_out | e]];
    cbn [fst proto] in Hn, Hc; [| discriminate].
  unfold bind, on_core, modify, ret.
  destruct (0 <? buf_size in_out)%nat; cbn; intros H; inversion H; subst.
  destruct sl; cbn; unfold keepalive_deadline; rewrite Hn, Hc; reflexivity.
Qed.

Lemma disconnect_eq (e : ErrorType) (pc : ProtoContext) :
  disconnect e pc
  = (mkProtoContext (core pc)
       (option_map (Base_invalidate e) (primary pc))
       (option_map (Base_invalidate e) (secondary pc)), Ret tt).
Proof.
  unfold disconnect, call_if, call, bind, gets, invalidate, on_self, modify, set_slot, ret.
  destruct pc as [c [p|] [q|]]; cbn; reflexivity.
Qed.

(** The keepalive transmission of [keepalive_housekeeping] returns
    normally and leaves the clock, the deadline and the presence of the
    two key contexts as they were. *)
Lemma keepalive_xmit_step (c : bool) (pc : ProtoContext) :
  exists pc1,
    when c (call_if Primary send_keepalive ;; on_core update_last_sent) pc
    = (pc1, Ret tt)
    /\ keepalive_expire (core pc1) = keepalive_expire (core pc)
    /\ now_ (core pc1) = now_ (core pc)
    /\ (exists booked, stats (core pc1) = booked ++ stats (core pc))
    /\ is_Some (primary pc1) = is_Some (primary pc)
    /\ secondary pc1 = secondary pc.
Proof.
  destruct c; cbn [when].
  2:{ exists pc. repeat split; try reflexivity. exists []. reflexivity. }
  unfold bind at 1. unfold call_if. unfold bind at 1. unfold gets at 1.
  destruct (primary pc) as [k |] eqn:Hp.
  - unfold call.
    pose proof (framed_send_data_channel_message (is_tcp (core pc)) false
                  keepalive_message (mkKSt (core pc) k) eq_refl) as Hfr.
    apply frame_keepalive_expire in Hfr. destruct Hfr as (Hk & Hn & _ & Hb).
    destruct (nothrow_send_data_channel_message keepalive_message (mkKSt (core pc) k))
      as [u Hu].
    unfold send_keepalive.
    destruct (send_data_channel_message keepalive_message (mkKSt (core pc) k))
      as [s1 o]. cbn [fst snd proto] in *. subst o.
    unfold on_core, modify. cbn.
    eexists. split; [reflexivity |]. cbn. auto.
  - unfold ret, on_core, modify. cbn.
    eexists. split; [reflexivity |]. cbn. rewrite Hp.
    repeat split; try reflexivity. exists []. reflexivity.
Qed.

Lemma keepalive_housekeeping_expired (pc : ProtoContext) :
  time_ge (now_ (core pc)) (keepalive_expire (core pc)) = true ->
  exists pc1,
    keepalive_housekeeping pc
    = (mkProtoContext (stats_error KEEPALIVE_TIMEOUT (core pc1))
         (option_map (Base_invalidate KEEPALIVE_TIMEOUT) (primary pc1))
         (option_map (Base_invalidate KEEPALIVE_TIMEOUT) (secondary pc1)), Ret tt)
    /\ (exists booked, stats (core pc1) = booked ++ stats (core pc))
    /\ is_Some (primary pc1) = is_Some (primary pc)
    /\ secondary pc1 = secondary pc.
Proof.
  intros Hexp. unfold keepalive_housekeeping.
  unfold bind at 1. unfold gets at 1. cbv zeta.
  unfold bind at 1.
  destruct (keepalive_xmit_step
              (time_ge (now_ (core pc)) (keepalive_xmit (core pc))
               && is_Some (primary pc)) pc)
    as (pc1 & Hstep & Hk & Hn & Hb & Hp & Hs).
  rewrite Hstep.
  unfold bind at 1. unfold gets at 1.
  rewrite Hk, Hexp. cbn [when].
  unfold bind at 1. unfold on_core at 1. unfold modify at 1.
  rewrite disconnect_eq. cbn [fst snd core primary secondary].
  exists pc1. auto.
Qed.

End Keepalive.

(** ** The control-packet codec *)

Section Codec.

Context {C : Collaborators}.

Lemma firstn_exact {A : Type} (a b : list A) (n : nat) :
  length a = n -> firstn n (a ++ b) = a.
Proof.
  intros <-. rewrite firstn_app, Nat.sub_diag, firstn_all. cbn.
  apply app_nil_r.
Qed.

Lemma skipn_exact {A : Type} (a b : list A) (n : nat) :
  length a = n -> skipn n (a ++ b) = b.
Proof.
  intros <-. rewrite skipn_app, Nat.sub_diag, skipn_all. reflexivity.
Qed.

Lemma optbind_inv {A B : Type} (o : outcome A) (k : A -> option B) (b : B) :
  optbind (opt_of o) k = Some b -> exists a, o = Ret a /\ k a = Some b.
Proof.
  destruct o as [a | e]; cbn; [eauto | discriminate].
Qed.

Lemma buf_read_inv (n : nat) (b x r : Buffer) :
  buf_read n b = Ret (x, r) -> b = x ++ r /\ length x = n.
Proof.
  unfold buf_read. destruct (Nat.leb_spec n (length b)) as [L|L]; [| discriminate].
  intros H. inversion H; subst. split.
  - symmetry. apply firstn_skipn.
  - apply firstn_length_le. exact L.
Qed.

Lemma psid_read_inv (b r : Buffer) (d : ProtoSessionID) :
  psid_read b = Ret (d, r) -> b = psid_id d ++ r /\ length (psid_id d) = PSID_SIZE.
Proof.
  unfold psid_read, obind.
  destruct (buf_read PSID_SIZE b) as [[x r'] | e] eqn:E; [| discriminate].
  intros H. inversion H; subst. cbn. apply buf_read_inv. exact E.
Qed.

Lemma u32be_length (z : Z) : length (u32be z) = 4%nat.
Proof. reflexivity. Qed.

Lemma read_id_inv (b r : Buffer) (id : Z) :
  read_id b = Ret (id, r) -> b = u32be id ++ r.
Proof.
  unfold read_id, obind.
  destruct (buf_read 4 b) as [[x r'] | e] eqn:E; [| discriminate].
  apply buf_read_inv in E. destruct E as [-> Hl].
  destruct x as [| b0 [| b1 [| b2 [| b3 [| b4 x]]]]]; try discriminate.
  intros H. inversion H; subst. rewrite u32be_of_val. reflexivity.
Qed.

Lemma pid_read_long_inv (b r : Buffer) (pid : PacketID) :
  pid_read_long b = Ret (pid, r) ->
  b = (u32be (pid_id pid) ++ u32be (pid_time pid)) ++ r.
Proof.
  unfold pid_read_long, obind.
  destruct (read_id b) as [[id b1] | e] eqn:E1; [| discriminate].
  destruct (read_id b1) as [[t b2] | e] eqn:E2; [| discriminate].
  intros H. inversion H; subst. cbn [pid_id pid_time].
  apply read_id_inv in E1, E2. subst. rewrite <- app_assoc. reflexivity.
Qed.

Lemma read_ids_inv (n : nat) (b r : Buffer) (ids : list Z) :
  read_ids n b = Ret (ids, r) ->
  length ids = n /\ b = fold_right (fun id b => prepend_id b id) r ids.
Proof.
  revert b r ids. induction n as [| n IH]; intros b r ids; cbn [read_ids].
  - intros H. inversion H; subst. split; reflexivity.
  - unfold obind.
    destruct (read_id b) as [[id b1] | e] eqn:E1; [| discriminate].
    destruct (read_ids n b1) as [[ids1 r1] | e] eqn:E2; [| discriminate].
    intros H. inversion H; subst.
    apply read_id_inv in E1. apply IH in E2. destruct E2 as [Hl ->].
    split; [cbn; congruence |]. cbn [fold_right]. unfold prepend_id at 1, buf_prepend.
    exact E1.
Qed.

(** The digest input of a packet laid out as head, HMAC slot, packet id
    and rest does not depend on the contents of the slot. *)
Lemma ovpn_hmac_pre_layout (h : OvpnHMAC) (a slot pid r : Buffer) (l1 l2 l3 : nat) :
  length a = l1 -> length slot = l2 -> length pid = l3 ->
  ovpn_hmac_pre h (a ++ slot ++ pid ++ r) l1 l2 l3
  = if Nat.eqb l2 (hmac_output_size h) then Some (pid ++ a ++ r) else None.
Proof.
  intros Ha Hs Hp. unfold ovpn_hmac_pre.
  rewrite !length_app, Ha, Hs, Hp.
  destruct (Nat.ltb_spec (l1 + (l2 + (l3 + length r))) (l1 + l2 + l3)) as [L|L]; [lia|].
  cbn [orb]. destruct (Nat.eqb l2 (hmac_output_size h)); cbn [negb]; [| reflexivity].
  f_equal.
  rewrite (firstn_exact a _ l1 Ha).
  replace (a ++ slot ++ pid ++ r) with ((a ++ slot) ++ pid ++ r)
    by (rewrite <- app_assoc; reflexivity).
  rewrite (skipn_exact (a ++ slot) _ (l1 + l2)) by (rewrite length_app; lia).
  rewrite (firstn_exact pid r l3 Hp).
  replace ((a ++ slot) ++ pid ++ r) with ((a ++ slot ++ pid) ++ r)
    by (rewrite <- !app_assoc; reflexivity).
  rewrite (skipn_exact (a ++ slot ++ pid) r (l1 + l2 + l3))
    by (rewrite !length_app; lia).
  reflexivity.
Qed.

(** A verified packet carries in its slot what [ovpn_hmac_gen] writes
    there. *)
Lemma ovpn_hmac_gen_of_cmp (h : OvpnHMAC) (a slot slot' pid r : Buffer)
      (l1 l2 l3 : nat) :
  length a = l1 -> length slot = l2 -> length slot' = l2 -> length pid = l3 ->
  ovpn_hmac_cmp h (a ++ slot ++ pid ++ r) l1 l2 l3 = true ->
  ovpn_hmac_gen h (a ++ slot' ++ pid ++ r) l1 l2 l3 = Ret (a ++ slot ++ pid ++ r).
Proof.
  intros Ha Hs Hs' Hp. unfold ovpn_hmac_cmp, ovpn_hmac_gen.
  rewrite !ovpn_hmac_pre_layout by assumption.
  destruct (Nat.eqb l2 (hmac_output_size h)); [| discriminate].
  intros H. apply bytes_eqb_true in H.
  rewrite (skipn_exact a _ l1 Ha), (firstn_exact slot _ l2 Hs) in H.
  rewrite (firstn_exact a _ l1 Ha).
  replace (a ++ slot' ++ pid ++ r) with ((a ++ slot') ++ pid ++ r)
    by (rewrite <- app_assoc; reflexivity).
  rewrite (skipn_exact (a ++ slot') _ (l1 + l2)) by (rewrite length_app; lia).
  rewrite <- H. reflexivity.
Qed.

Lemma count_byte_roundtrip (len : byte) :
  byte_of_Z (Z.of_nat (Z.to_nat (byte_to_Z len))) = len.
Proof.
  pose proof (byte_to_Z_range len). rewrite Z2Nat.id by lia. apply byte_of_to_Z.
Qed.

Lemma optbind_some_inv {A B : Type} (o : option A) (k : A -> option B) (b : B) :
  optbind o k = Some b -> exists a, o = Some a /\ k a = Some b.
Proof.
  destruct o as [a |]; cbn; [eauto | discriminate].
Qed.

Lemma fold_prepend_all (ids : list Z) (r : Buffer) (max_ack_list : nat) :
  (length ids <= max_ack_list)%nat ->
  fold_right (fun id b => prepend_id b id) r
             (firstn (Nat.min (length ids) max_ack_list) ids)
  = fold_right (fun id b => prepend_id b id) r ids.
Proof.
  intros H. rewrite Nat.min_l by exact H. rewrite firstn_all. reflexivity.
Qed.

(** A packet that [decode] accepts and whose ACK list fits
    [max_ack_list] is given back byte for byte by [encode] applied to its
    decoded fields. *)
Lemma encode_decoded (tls_auth : bool) (h : OvpnHMAC)
        (hsize max_ack_list : nat) (p : Buffer) (f : ControlPacket) :
  decode tls_auth h hsize p = Some f ->
  (length (cp_acks f) <= max_ack_list)%nat ->
  encode h hsize max_ack_list f = Ret p.
Proof.
  unfold decode. intros Hdec Hmax.
  apply optbind_inv in Hdec. destruct Hdec as (b0 & Hb0 & Hdec). cbv zeta in Hdec.
  apply optbind_inv in Hdec. destruct Hdec as (r0 & Hr0 & Hdec).
  apply optbind_inv in Hdec. destruct Hdec as ([src r1] & Hsrc & Hdec).
  apply optbind_some_inv in Hdec. destruct Hdec as ([auth r3] & Hauth & Hdec).
  unfold decode_tail in Hdec.
  apply optbind_inv in Hdec. destruct Hdec as ([len r4] & Hlen & Hdec).
  apply optbind_inv in Hdec. destruct Hdec as ([acks r5] & Hacks & Hdec).
  apply optbind_some_inv in Hdec. destruct Hdec as ([dest r6] & Hdest & Hdec).
  apply optbind_some_inv in Hdec. destruct Hdec as ([msg r7] & Hmsg & Hdec).
  inversion Hdec; subst f; clear Hdec. cbn [cp_acks] in Hmax.
  (* the packet, field by field *)
  assert (Hp : p = b0 :: r0).
  { destruct p as [| x p']; [discriminate |]. cbn in Hb0, Hr0.
    inversion Hb0; inversion Hr0; subst. reflexivity. }
  apply psid_read_inv in Hsrc. destruct Hsrc as [Hr0' Hsrcl].
  assert (Hr3 : r3 = len :: r4).
  { destruct r3; [discriminate |]. cbn in Hlen. inversion Hlen; subst. reflexivity. }
  apply read_ids_inv in Hacks. destruct Hacks as [Hn Hr4].
  assert (Hopc : (match msg with
                  | Some _ => opcode_extract (byte_to_Z b0)
                  | None => ACK_V1
                  end) = opcode_extract (byte_to_Z b0)
                 /\ r6 = match msg with
                         | Some id => prepend_id r7 id
                         | None => r7
                         end).
  { destruct (Z.eqb_spec (opcode_extract (byte_to_Z b0)) ACK_V1) as [E|E];
      cbn [negb] in Hmsg.
    - inversion Hmsg; subst. split; [symmetry; exact E | reflexivity].
    - apply optbind_inv in Hmsg. destruct Hmsg as ([id r7'] & Hid & Hmsg).
      inversion Hmsg; subst. apply read_id_inv in Hid. split; [reflexivity | exact Hid]. }
  destruct Hopc as [Hopc Hr6].
  assert (Hr5 : match acks with
                | [] => Ret r6
                | _ :: _ =>
                    match dest with
                    | Some d => Ret (psid_prepend d r6)
                    | None => Throw (proto_error "peer_psid_undef")
                    end
                end = Ret r5).
  { destruct acks as [| a acks']; cbn [length] in Hn; rewrite <- Hn in Hdest.
    - cbn in Hdest. inversion Hdest; subst. reflexivity.
    - cbn [Nat.ltb Nat.leb] in Hdest.
      apply optbind_inv in Hdest. destruct Hdest as ([d r6'] & Hd & Hdest).
      inversion Hdest; subst. apply psid_read_inv in Hd. destruct Hd as [Hd _].
      unfold psid_prepend, buf_prepend. rewrite Hd. reflexivity. }
  (* the encoder, step by step *)
  unfold encode.
  cbn [cp_payload cp_msg_id cp_opcode cp_acks cp_dest_psid cp_tls_auth cp_src_psid
       cp_key_id].
  rewrite <- Hr6, Hopc, Hr5. cbn [obind].
  rewrite fold_prepend_all by exact Hmax.
  rewrite Nat.min_l by exact Hmax.
  rewrite <- Hr4, Hn, count_byte_roundtrip.
  change (buf_push_front len r4) with (len :: r4). rewrite <- Hr3.
  rewrite op_byte_roundtrip.
  destruct tls_auth.
  - apply optbind_inv in Hauth. destruct Hauth as ([hm r2] & Hhm & Hauth).
    destruct (ovpn_hmac_cmp h p (1 + PSID_SIZE) hsize PID_LONG_SIZE) eqn:Hcmp;
      cbn [negb] in Hauth; [| discriminate].
    apply optbind_inv in Hauth. destruct Hauth as ([pid r3'] & Hpid & Hauth).
    inversion Hauth; subst auth r3'; clear Hauth.
    apply buf_read_inv in Hhm. destruct Hhm as [Hr1 Hhml].
    apply pid_read_long_inv in Hpid.
    unfold pid_write_prepend_long, psid_prepend, buf_prepend, buf_push_front.
    subst p r0 r1 r2.
    change (b0 :: psid_id src ++ hm ++ (u32be (pid_id pid) ++ u32be (pid_time pid)) ++ r3)
      with ((b0 :: psid_id src) ++ hm
            ++ (u32be (pid_id pid) ++ u32be (pid_time pid)) ++ r3) in *.
    replace (b0 :: psid_id src ++ repeat x00 hsize
             ++ u32be (pid_id pid) ++ u32be (pid_time pid) ++ r3)
      with ((b0 :: psid_id src) ++ repeat x00 hsize
            ++ (u32be (pid_id pid) ++ u32be (pid_time pid)) ++ r3)
      by (rewrite <- (app_assoc (u32be (pid_id pid))); reflexivity).
    apply ovpn_hmac_gen_of_cmp; try assumption.
    + cbn. rewrite Hsrcl. reflexivity.
    + apply repeat_length.
    + reflexivity.
  - inversion Hauth; subst auth r1; clear Hauth.
    unfold psid_prepend, buf_prepend, buf_push_front.
    subst p r0. reflexivity.
Qed.

Lemma bind_ret_inv {S A B : Type} (m : M S A) (k : A -> M S B) (s s' : S) (b : B) :
  bind m k s = (s', Ret b) -> exists s1 a, m s = (s1, Ret a) /\ k a s1 = (s', Ret b).
Proof.
  unfold bind. destruct (m s) as [s1 [a | e]]; [eauto | discriminate].
Qed.

Lemma lift_ret_inv {S A : Type} (o : outcome A) (s s1 : S) (a : A) :
  lift o s = (s1, Ret a) -> o = Ret a.
Proof. unfold lift. intros H. inversion H. reflexivity. Qed.

Lemma catch_buffer_ret_inv {S A : Type} (m h : M S A) (s s' : S) (a : A) :
  catch_buffer m h s = (s', Ret a) ->
  m s = (s', Ret a) \/ exists s1, h s1 = (s', Ret a).
Proof.
  unfold catch_buffer. destruct (m s) as [s1 [x | e]]; [auto | destruct e; try discriminate].
  eauto.
Qed.

(** The reads of [ack_loop] are those of [read_ids]. *)
Lemma ack_loop_reads (n : nat) (live : bool) (b b' : Buffer) (s s' : KSt) :
  ack_loop n live b s = (s', Ret b') -> exists ids, read_ids n b = Ret (ids, b').
Proof.
  revert b s. induction n as [| n IH]; intros b s; cbn [ack_loop read_ids].
  - intros H. inversion H; subst. eauto.
  - intros H. apply bind_ret_inv in H. destruct H as (s1 & [id b1] & Hid & H).
    apply lift_ret_inv in Hid.
    apply bind_ret_inv in H. destruct H as (s2 & u & _ & H).
    apply IH in H. destruct H as [ids H].
    exists (id :: ids). rewrite Hid. cbn. rewrite H. reflexivity.
Qed.

(** A packet that [decapsulate_tail] accepts has every field [decode_tail]
    looks for. *)
Lemma decapsulate_tail_accepts (pkt : Packet) (recv : Buffer)
      (pid : option (PacketID * Z)) (pid_ok : bool) (s s' : KSt)
      (kid : Z) (src : ProtoSessionID) (auth : option (Buffer * PacketID)) :
  decapsulate_tail pkt recv pid pid_ok s = (s', Ret true) ->
  exists f, decode_tail (opcode pkt) kid src auth recv = Some f.
Proof.
  unfold decapsulate_tail, decode_tail. intros H.
  apply bind_ret_inv in H. destruct H as (s1 & [n r5] & Hack & H).
  unfold ReliableAck_ack in Hack.
  apply bind_ret_inv in Hack. destruct Hack as (s0 & [len r4] & Hpop & Hack).
  apply lift_ret_inv in Hpop. cbv zeta in Hack.
  apply bind_ret_inv in Hack. destruct Hack as (s0' & r5' & Hloop & Hack).
  inversion Hack; subst n r5' s0'; clear Hack.
  apply ack_loop_reads in Hloop. destruct Hloop as [acks Hids].
  rewrite Hpop. cbn [opt_of optbind]. rewrite Hids. cbn [opt_of optbind].
  apply bind_ret_inv in H. destruct H as (s2 & [ok r6] & Hdest & H).
  assert (Hd : exists dest,
             (if (0 <? Z.to_nat (byte_to_Z len))%nat
              then optbind (opt_of (psid_read r5))
                     (fun '(dest, recv) => Some (Some dest, recv))
              else Some (None, r5)) = Some (dest, r6)).
  { destruct (0 <? Z.to_nat (byte_to_Z len))%nat.
    - unfold verify_dest_psid in Hdest.
      apply bind_ret_inv in Hdest. destruct Hdest as (s3 & [d r6'] & Hrd & Hdest).
      apply lift_ret_inv in Hrd.
      apply bind_ret_inv in Hdest. destruct Hdest as (s4 & p & _ & Hdest).
      rewrite Hrd. cbn.
      destruct (negb (psid_match (psid_self p) d)).
      + apply bind_ret_inv in Hdest. destruct Hdest as (s5 & u & _ & Hdest).
        apply bind_ret_inv in Hdest. destruct Hdest as (s6 & u' & _ & Hdest).
        inversion Hdest; subst. eauto.
      + inversion Hdest; subst. eauto.
    - inversion Hdest; subst. eauto. }
  destruct Hd as [dest Hd]. rewrite Hd. cbn [optbind].
  destruct ok; cbn [negb] in H; [| inversion H].
  destruct (negb (opcode pkt =? ACK_V1)).
  - apply bind_ret_inv in H. destruct H as (s3 & [id r7] & Hid & H).
    apply lift_ret_inv in Hid. rewrite Hid. cbn. eauto.
  - destruct pid as [[pid t] |].
    + apply bind_ret_inv in H. destruct H as (s3 & u & _ & H). inversion H.
    + inversion H.
Qed.


Lemma buf_advance_read (n : nat) (b r : Buffer) :
  buf_advance n b = Ret r -> buf_read n b = Ret (firstn n b, r).
Proof.
  unfold buf_advance, buf_read. destruct (n <=? length b)%nat; [| discriminate].
  intros H. inversion H. reflexivity.
Qed.

(** [decode] reads what [decapsulate] reads: a packet that [decapsulate]
    accepts (returns true for), its opcode being the one [PacketType] took
    from its first byte, is decoded by [decode] under the receive HMAC
    instance of the engine. *)
Lemma decapsulate_accepts_decodable (pkt : Packet) (s s' : KSt) (b0 : byte) (r : Buffer) :
  buf pkt = b0 :: r ->
  opcode pkt = opcode_extract (byte_to_Z b0) ->
  decapsulate pkt s = (s', Ret true) ->
  exists f,
    decode (use_tls_auth (proto s)) (ta_hmac_recv (proto s)) (hmac_size (proto s))
      (buf pkt) = Some f.
Proof.
  intros Hbuf Hopc H. unfold decapsulate in H.
  apply catch_buffer_ret_inv in H. destruct H as [H | [s1 H]].
  2:{ rewrite decapsulate_catch_eq in H. inversion H. }
  unfold decapsulate_try in H. cbv zeta in H.
  apply bind_ret_inv in H. destruct H as (s0 & p & Hp & H).
  unfold gets in Hp. inversion Hp; subst s0 p; clear Hp.
  unfold decode. rewrite Hbuf. cbn [buf_index0 opt_of optbind]. cbv zeta.
  rewrite <- Hbuf, <- Hopc.
  destruct (use_tls_auth (proto s)).
  - apply bind_ret_inv in H. destruct H as (s1 & r0 & Hadv & H).
    apply lift_ret_inv in Hadv. rewrite Hadv. cbn [opt_of optbind].
    apply bind_ret_inv in H. destruct H as (s2 & [src r1] & Hsrc & H).
    apply lift_ret_inv in Hsrc. rewrite Hsrc. cbn [opt_of optbind].
    apply bind_ret_inv in H. destruct H as (s3 & r2 & Hslot & H).
    apply lift_ret_inv in Hslot. rewrite (buf_advance_read _ _ _ Hslot).
    cbn [opt_of optbind].
    destruct (ovpn_hmac_cmp (ta_hmac_recv (proto s)) (buf pkt) (1 + PSID_SIZE)
                (hmac_size (proto s)) PID_LONG_SIZE); cbn [negb] in *.
    + apply bind_ret_inv in H. destruct H as (s4 & u & _ & H).
      apply bind_ret_inv in H. destruct H as (s5 & ok & _ & H).
      destruct ok; cbn [negb] in H; [| inversion H].
      apply bind_ret_inv in H. destruct H as (s6 & [pid r3] & Hpid & H).
      apply lift_ret_inv in Hpid. rewrite Hpid. cbn [opt_of optbind].
      cbv zeta in H.
      apply bind_ret_inv in H. destruct H as (s7 & pid_ok & _ & H).
      eapply decapsulate_tail_accepts. exact H.
    + apply bind_ret_inv in H. destruct H as (s4 & u & _ & H).
      apply bind_ret_inv in H. destruct H as (s5 & u' & _ & H).
      inversion H.
  - apply bind_ret_inv in H. destruct H as (s1 & u & _ & H).
    apply bind_ret_inv in H. destruct H as (s2 & r0 & Hadv & H).
    apply lift_ret_inv in Hadv. rewrite Hadv. cbn [opt_of optbind].
    apply bind_ret_inv in H. destruct H as (s3 & [src r1] & Hsrc & H).
    apply lift_ret_inv in Hsrc. rewrite Hsrc. cbn [opt_of optbind].
    apply bind_ret_inv in H. destruct H as (s4 & ok & _ & H).
    destruct ok; cbn [negb] in H; [| inversion H].
    eapply decapsulate_tail_accepts. exact H.
Qed.

(** [encode] is what [encapsulate] and [generate_ack] leave in the
    packet when they return, and they throw when it throws. *)
Lemma encapsulate_emits_encode (id : Z) (pkt : Packet) (s : KSt) :
  let r := encapsulate id (mkPktSt s pkt) in
  match encode (ta_hmac_send (proto s)) (hmac_size (proto s))
          (cfg_max_ack_list (config (proto s)))
          (outgoing_fields (opcode pkt) (Some id) (buf pkt) s) with
  | Ret b => snd r = Ret tt /\ packet (fst r) = mkPacket (opcode pkt) b
  | Throw e => snd r = Throw e
  end.
Proof.
  unfold encapsulate, prepend_dest_psid_and_acks, ReliableAck_prepend, gen_head,
    encode, outgoing_fields.
  unfold bind, gets, on_kst, on_buf, on_proto, on_self, modify, ret, throw, lift,
    stats_error.
  cbn -[u32be byte_of_Z op_compose Nat.min Z.of_nat firstn skipn].
  destruct (pid_send_next (ta_pid_send (proto s)) (seconds_since_epoch (now_ (proto s))))
    as [snd' pid] eqn:Ep.
  destruct (xmit_acks (self s)) as [| a l] eqn:Ex;
    destruct (psid_defined (psid_peer (proto s))) eqn:Ed;
    destruct (use_tls_auth (proto s)) eqn:Et;
    cbn -[u32be byte_of_Z op_compose Nat.min Z.of_nat firstn skipn];
    rewrite ?Ex, ?Ed, ?Et, ?Ep;
    cbn -[u32be byte_of_Z op_compose Nat.min Z.of_nat firstn skipn];
    try reflexivity; try (split; reflexivity);
    match goal with
    | |- context [ovpn_hmac_gen ?h ?d ?a ?b ?c] => destruct (ovpn_hmac_gen h d a b c)
    end; cbn; try reflexivity; split; reflexivity.
Qed.

Lemma generate_ack_emits_encode (pkt : Packet) (s : KSt) :
  let r := generate_ack (mkPktSt s pkt) in
  match encode (ta_hmac_send (proto s)) (hmac_size (proto s))
          (cfg_max_ack_list (config (proto s)))
          (outgoing_fields ACK_V1 None (buf pkt) s) with
  | Ret b => snd r = Ret tt /\ packet (fst r) = mkPacket (opcode pkt) b
  | Throw e => snd r = Throw e
  end.
Proof.
  unfold generate_ack, prepend_dest_psid_and_acks, ReliableAck_prepend, gen_head,
    encode, outgoing_fields.
  unfold bind, gets, on_kst, on_buf, on_proto, on_self, modify, ret, throw, lift,
    stats_error.
  cbn -[u32be byte_of_Z op_compose Nat.min Z.of_nat firstn skipn].
  destruct (pid_send_next (ta_pid_send (proto s)) (seconds_since_epoch (now_ (proto s))))
    as [snd' pid] eqn:Ep.
  destruct (xmit_acks (self s)) as [| a l] eqn:Ex;
    destruct (psid_defined (psid_peer (proto s))) eqn:Ed;
    destruct (use_tls_auth (proto s)) eqn:Et;
    cbn -[u32be byte_of_Z op_compose Nat.min Z.of_nat firstn skipn];
    rewrite ?Ex, ?Ed, ?Et, ?Ep;
    cbn -[u32be byte_of_Z op_compose Nat.min Z.of_nat firstn skipn];
    try reflexivity; try (split; reflexivity);
    match goal with
    | |- context [ovpn_hmac_gen ?h ?d ?a ?b ?c] => destruct (ovpn_hmac_gen h d a b c)
    end; cbn; try reflexivity; split; reflexivity.
Qed.

End Codec.

(** * Further properties of the engine *)

Lemma forallb_range (f : Z -> bool) (n : nat) :
  forallb f (map Z.of_nat (seq 0 n)) = true ->
  forall z, 0 <= z < Z.of_nat n -> f z = true.
Proof.
  intros H z Hz. rewrite forallb_forall in H. apply H.
  apply in_map_iff. exists (Z.to_nat z). split; [lia |].
  apply in_seq. lia.
Qed.

Lemma op_compose_fields (opcode key_id : Z) :
  0 <= opcode < 32 -> 0 <= key_id < 8 ->
  let op := op_compose opcode key_id in
  0 <= op < 256
  /\ opcode_extract op = opcode
  /\ key_id_extract op = key_id
  /\ byte_to_Z (byte_of_Z op) = op
  /\ op_head_size op = (if opcode =? DATA_V2 then 4%nat else 1%nat).
Proof.
  intros Ho Hk.
  pose (chk := fun o k =>
         let op := op_compose o k in
         (0 <=? op) && (op <? 256) && (opcode_extract op =? o)
         && (key_id_extract op =? k) && (byte_to_Z (byte_of_Z op) =? op)
         && Nat.eqb (op_head_size op) (if o =? DATA_V2 then 4%nat else 1%nat)).
  assert (H : chk opcode key_id = true).
  { apply (forallb_range (chk opcode) 8); [| exact Hk].
    apply (forallb_range (fun o => forallb (chk o) (map Z.of_nat (seq 0 8))) 32);
      [vm_compute; reflexivity | exact Ho]. }
  unfold chk in H. cbv zeta in *.
  repeat (apply andb_prop in H; destruct H as [H ?]).
  repeat split; try (apply Z.leb_le; assumption); try (apply Z.ltb_lt; assumption);
    try (apply Z.eqb_eq; assumption).
  apply Nat.eqb_eq. assumption.
Qed.

Lemma op32_compose_parts (opcode key_id peer : Z) :
  0 <= op_compose opcode key_id < 256 ->
  let v := op32_compose opcode key_id peer in
  0 <= v < 2 ^ 32
  /\ Z.shiftr v 24 = op_compose opcode key_id
  /\ Z.land v 0x00FFFFFF = peer mod 2 ^ 24.
Proof.
  intros Hop. cbv zeta. unfold op32_compose.
  set (op := op_compose opcode key_id) in *.
  assert (Ha : uint32 (Z.shiftl op 24) = op * 2 ^ 24).
  { unfold uint32. rewrite Z.shiftl_mul_pow2 by lia. apply Z.mod_small. lia. }
  rewrite Ha.
  change 0x00FFFFFF with (Z.ones 24).
  rewrite (Z.land_ones peer 24) by lia.
  set (x := peer mod 2 ^ 24).
  assert (Hx : 0 <= x < 2 ^ 24) by (apply Z.mod_pos_bound; lia).
  assert (Hl : Z.land (op * 2 ^ 24) x = 0).
  { rewrite <- (Z.mod_small x (2 ^ 24)) by exact Hx.
    rewrite <- (Z.land_ones x 24) by lia.
    rewrite (Z.land_comm x), Z.land_assoc, (Z.land_ones (op * 2 ^ 24) 24) by lia.
    rewrite Z.mod_mul by lia. reflexivity. }
  assert (Hv : Z.lor (op * 2 ^ 24) x = op * 2 ^ 24 + x).
  { pose proof (Z.add_lor_land (op * 2 ^ 24) x) as E. rewrite Hl in E. lia. }
  split; [rewrite Hv; lia | split].
  - rewrite Hv, Z.shiftr_div_pow2 by lia.
    rewrite Z.add_comm, Z.div_add by lia. rewrite Z.div_small by exact Hx. lia.
  - rewrite Hv, Z.land_ones by lia.
    rewrite Z.add_comm, Z.mod_add by lia. apply Z.mod_small. exact Hx.
Qed.

(** X1. An opcode below 32 and a key id below 8 packed by [op_compose] fit one
    byte and come back out of [opcode_extract] and [key_id_extract]
    unchanged, also after the trip through a buffer byte; [op_head_size]
    of the packed byte is 4 for DATA_V2 and 1 for every other opcode.
    The 32-bit head of [op32_compose] fits 32 bits, carries the same
    opcode and key id in its top byte and the peer id in its low 24
    bits, where no peer id (-1) reads as OP_PEER_ID_UNDEF. *)
Theorem op_compose_extract (opcode key_id peer : Z) :
  0 <= opcode < 32 -> 0 <= key_id < 8 -> -1 <= peer < 0x00FFFFFF ->
  let op := op_compose opcode key_id in
  let op32 := op32_compose opcode key_id peer in
  0 <= op < 256
  /\ opcode_extract op = opcode
  /\ key_id_extract op = key_id
  /\ byte_to_Z (byte_of_Z op) = op
  /\ op_head_size op = (if opcode =? DATA_V2 then 4%nat else 1%nat)
  /\ 0 <= op32 < 2 ^ 32
  /\ opcode_extract (Z.shiftr op32 24) = opcode
  /\ key_id_extract (Z.shiftr op32 24) = key_id
  /\ Z.land op32 0x00FFFFFF = (if peer =? -1 then OP_PEER_ID_UNDEF else peer).
Proof.
  intros Ho Hk Hp. cbv zeta.
  destruct (op_compose_fields opcode key_id Ho Hk) as (Hr & Hoe & Hke & Hb & Hh).
  destruct (op32_compose_parts opcode key_id peer Hr) as (Hv & Hs & Hl).
  repeat (split; [assumption |]).
  rewrite Hs, Hl. repeat (split; [assumption |]).
  unfold OP_PEER_ID_UNDEF.
  destruct (Z.eqb_spec peer (-1)) as [-> | Hn]; [reflexivity |].
  apply Z.mod_small. lia.
Qed.

Lemma op_compose_extract_witness :
  let op := op_compose CONTROL_V1 3 in
  let op32 := op32_compose DATA_V2 3 5 in
  opcode_extract op = CONTROL_V1
  /\ key_id_extract op = 3
  /\ opcode_extract (Z.shiftr op32 24) = DATA_V2
  /\ Z.land op32 0x00FFFFFF = 5.
Proof.
  cbv zeta.
  destruct (op_compose_extract CONTROL_V1 3 5) as (_ & H1 & H2 & _);
    [unfold CONTROL_V1; lia | lia | lia |].
  destruct (op_compose_extract DATA_V2 3 5) as (_ & _ & _ & _ & _ & _ & H3 & _ & H4);
    [unfold DATA_V2; lia | lia | lia |].
  repeat split; assumption.
Defined.

Lemma buf_read_app (n : nat) (x r : Buffer) :
  length x = n -> buf_read n (x ++ r) = Ret (x, r).
Proof.
  intros H. unfold buf_read. rewrite length_app.
  destruct (Nat.leb_spec n (length x + length r)) as [L|L]; [| lia].
  rewrite (firstn_exact x r n H), (skipn_exact x r n H). reflexivity.
Qed.

Lemma read_string_length_u16be (z : Z) (r : Buffer) :
  0 <= z <= 0xFFFF -> read_string_length (u16be z ++ r) = Ret (z, r).
Proof.
  intros Hz. destruct (u16be_value z Hz) as (hi & lo & E & V).
  rewrite E. unfold read_string_length. cbn [app buf_size length Nat.ltb Nat.leb].
  change (hi :: lo :: r) with ([hi; lo] ++ r).
  rewrite buf_read_app by reflexivity. cbn [obind]. unfold u16be_val.
  change (2 ^ 8) with 256. rewrite V. reflexivity.
Qed.

(** X2. A string without NUL bytes and shorter than 65535 bytes written by
    [write_auth_string] is read back by [read_auth_string] exactly,
    whatever follows it in the buffer, and the reader stops at the first
    byte after it; [skip_string] steps over the same bytes and hands
    back the string with its terminator (nothing for the empty string). *)
Theorem auth_string_roundtrip (str rest : Buffer) :
  has_nul str = false ->
  Z.of_nat (length str) < 0xFFFF ->
  exists w,
    write_auth_string str [] = Ret w
    /\ read_auth_string (w ++ rest) = Ret (str, rest)
    /\ skip_string (w ++ rest)
       = Ret (if (0 <? length str)%nat then str ++ [x00] else [], rest).
Proof.
  intros _ Hlen. unfold write_auth_string.
  destruct str as [| c str'].
  - cbn [length Z.of_nat Z.eqb negb]. exists (u16be 0). split; [reflexivity |].
    unfold read_auth_string, skip_string.
    rewrite read_string_length_u16be by lia. cbn. split; reflexivity.
  - set (str := c :: str') in *.
    assert (Hpos : 0 < Z.of_nat (length str)) by (subst str; cbn [length]; lia).
    destruct (Z.eqb_spec (Z.of_nat (length str)) 0) as [E|E]; [lia |]. cbn [negb].
    unfold write_string_length.
    destruct (Z.gtb_spec (Z.of_nat (length str) + 1) 0xFFFF) as [G|G]; [lia |].
    cbn [obind]. unfold buf_write, buf_null_terminate. cbn [app].
    eexists. split; [reflexivity |].
    unfold read_auth_string, skip_string.
    rewrite <- !app_assoc.
    rewrite read_string_length_u16be by lia. cbn [obind].
    destruct (Z.eqb_spec (Z.of_nat (length str) + 1) 0) as [E1|E1]; [lia |]. cbn [negb].
    replace (str ++ [x00] ++ rest) with ((str ++ [x00]) ++ rest)
      by (rewrite <- app_assoc; reflexivity).
    rewrite buf_read_app by (rewrite length_app; cbn [length]; lia).
    cbn [obind].
    destruct (Z.gtb_spec (Z.of_nat (length str) + 1) 1) as [G1|G1]; [| lia].
    replace (Z.to_nat (Z.of_nat (length str) + 1 - 1)) with (length str) by lia.
    rewrite (firstn_exact str [x00] (length str) eq_refl).
    split; [reflexivity |].
    subst str. cbn [length Nat.ltb Nat.leb]. reflexivity.
Qed.

Lemma auth_string_roundtrip_witness :
  exists w,
    write_auth_string [x75; x31] [] = Ret w
    /\ read_auth_string (w ++ [x00; x00]) = Ret ([x75; x31], [x00; x00])
    /\ skip_string (w ++ [x00; x00]) = Ret ([x75; x31; x00], [x00; x00]).
Proof.
  apply (auth_string_roundtrip [x75; x31] [x00; x00]); [reflexivity | cbn; lia].
Defined.

(** X3. [read_auth_string] on short input: an empty buffer gives the empty
    string, a single byte throws the buffer exception, and with a length
    prefix [len] in front the reader returns the first [len - 1] bytes
    of the body and consumes [len] of them, or throws the buffer
    exception when the body has fewer than [len] bytes. *)
Theorem read_auth_string_edges :
  read_auth_string [] = Ret ([], [])
  /\ (forall b, read_auth_string [b] = Throw BufferException)
  /\ (forall hi lo body,
        let len := u16be_val hi lo in
        read_auth_string (hi :: lo :: body)
        = if (Z.to_nat len <=? length body)%nat
          then Ret (firstn (Z.to_nat (len - 1)) body, skipn (Z.to_nat len) body)
          else Throw BufferException).
Proof.
  split; [reflexivity | split; [reflexivity |]].
  intros hi lo body len. unfold read_auth_string, read_string_length.
  cbn [buf_size length Nat.ltb Nat.leb].
  change (hi :: lo :: body) with ([hi; lo] ++ body).
  rewrite buf_read_app by reflexivity. cbn [obind]. fold len.
  assert (Hr : 0 <= len).
  { unfold len, u16be_val. pose proof (byte_to_Z_range hi).
    pose proof (byte_to_Z_range lo). lia. }
  unfold buf_read.
  destruct (Z.eqb_spec len 0) as [E|E]; cbn [negb].
  - rewrite E. cbn. reflexivity.
  - destruct (Nat.leb_spec (Z.to_nat len) (length body)) as [L|L]; [| reflexivity].
    cbn [obind].
    destruct (Z.gtb_spec len 1) as [G|G].
    + rewrite firstn_firstn. f_equal. f_equal. f_equal. lia.
    + replace (Z.to_nat (len - 1)) with 0%nat by lia. reflexivity.
Qed.

Lemma last_byte_app (s : Buffer) (c : byte) :
  nth (length (s ++ [c]) - 1) (s ++ [c]) x00 = c.
Proof.
  rewrite length_app. cbn [length].
  replace (length s + 1 - 1)%nat with (length s) by lia.
  rewrite app_nth2 by lia. rewrite Nat.sub_diag. reflexivity.
Qed.

(** X4. A string without NUL bytes written by [write_control_string] is read
    back by [read_control_string]; the reader strips one trailing NUL
    and returns a non-empty string that has none as it is. *)
Theorem control_string_roundtrip (str : Buffer) :
  has_nul str = false ->
  read_control_string (write_control_string str []) = str
  /\ read_control_string (str ++ [x00]) = str
  /\ (str <> [] -> read_control_string str = str).
Proof.
  intros Hnul.
  assert (H1 : read_control_string (str ++ [x00]) = str).
  { unfold read_control_string, buf_size. cbv zeta.
    rewrite last_byte_app. cbn [Byte.eqb].
    rewrite length_app. cbn [length].
    destruct (Nat.ltb_spec 0 (length str + 1)) as [L|L]; [| lia].
    change (Byte.eqb x00 x00) with true. cbv iota.
    replace (length str + 1 - 1)%nat with (length str) by lia.
    destruct str as [| c str']; [reflexivity |].
    cbn [length Nat.ltb Nat.leb].
    apply (firstn_exact (c :: str') [x00]). reflexivity. }
  split; [exact H1 | split; [exact H1 |]].
  intros Hne. unfold read_control_string, buf_size. cbv zeta.
  destruct (exists_last Hne) as (s' & c & ->).
  rewrite last_byte_app.
  assert (Hc : Byte.eqb c x00 = false).
  { unfold has_nul in Hnul. rewrite existsb_app in Hnul.
    apply orb_false_elim in Hnul. destruct Hnul as [_ Hc]. cbn in Hc.
    rewrite orb_false_r in Hc.
    destruct (Byte.eqb c x00) eqn:E; [| reflexivity].
    apply Byte.byte_dec_bl in E. subst c. discriminate Hc. }
  rewrite Hc. rewrite length_app. cbn [length].
  destruct (Nat.ltb_spec 0 (length s' + 1)) as [L|L]; [| lia].
  apply firstn_all2. rewrite length_app. cbn [length]. lia.
Qed.

Lemma control_string_roundtrip_witness :
  read_control_string (write_control_string [x68; x69] []) = [x68; x69].
Proof.
  destruct (control_string_roundtrip [x68; x69]) as [H _]; [reflexivity | exact H].
Defined.

Lemma byte_to_of_Z_mod (z : Z) : byte_to_Z (byte_of_Z z) = z mod 256.
Proof.
  rewrite <- byte_of_Z_mod. apply byte_to_of_Z. apply Z.mod_pos_bound. lia.
Qed.

Lemma u32be_val_u32be (z : Z) :
  0 <= z < 2 ^ 32 ->
  u32be_val (byte_of_Z (Z.shiftr z 24)) (byte_of_Z (Z.shiftr z 16))
            (byte_of_Z (Z.shiftr z 8)) (byte_of_Z z) = z.
Proof.
  intros Hz. unfold u32be_val. rewrite !byte_to_of_Z_mod.
  rewrite !Z.shiftr_div_pow2 by lia.
  Z.div_mod_to_equations. lia.
Qed.

Lemma read_id_u32be (id : Z) (r : Buffer) :
  0 <= id < 2 ^ 32 -> read_id (u32be id ++ r) = Ret (id, r).
Proof.
  intros H. unfold read_id. rewrite buf_read_app by reflexivity.
  cbn [obind]. unfold u32be. rewrite u32be_val_u32be by exact H. reflexivity.
Qed.

Section Heads.

Context {C : Collaborators}.

Lemma examine_opcode_none_flags (b : Buffer) (op : Z) (pc : ProtoContext)
      (fl opc pid : Z) :
  examine_opcode b op pc = Some (fl, opc, pid) ->
  opc = opcode_extract op
  /\ (fl = 0 \/ fl = CONTROL)
  /\ (opc = CONTROL_SOFT_RESET_V1 -> fl = CONTROL)
  /\ (fl = 0 -> opc = DATA_V1 \/ opc = DATA_V2).
Proof.
  unfold examine_opcode. cbv zeta.
  repeat match goal with
         | |- context [if ?c then _ else _] => destruct c eqn:?
         end;
    intros H; inversion H; subst; clear H;
    repeat split; auto;
    repeat match goal with
           | H : (_ =? _) = true |- _ => apply Z.eqb_eq in H
           | H : (_ =? _) = false |- _ => apply Z.eqb_neq in H
           | H : (_ || _) = false |- _ => apply orb_false_elim in H; destruct H
           end;
    try (intros E; rewrite E in *; try discriminate; try contradiction; auto);
    auto.
  all: intros E; vm_compute in E; discriminate E.
Qed.

End Heads.

Section Classified.

Context {C : Collaborators}.

(** The three-way key-id selection of [PacketType] for a data packet. *)
Lemma PacketType_ctor_cons (b0 : byte) (r : Buffer) (pc : ProtoContext)
      (fl opc pid : Z) :
  examine_opcode (b0 :: r) (byte_to_Z b0) pc = Some (fl, opc, pid) ->
  PacketType_ctor (b0 :: r) pc
  = mkPacketType
      (let kid := key_id_extract (byte_to_Z b0) in
       if key_id_of (primary pc) kid then Z.lor fl DEFINED
       else if key_id_of (secondary pc) kid then Z.lor fl (Z.lor DEFINED SECONDARY)
       else if (opc =? CONTROL_SOFT_RESET_V1) && (kid =? upcoming_key_id (core pc))
            then Z.lor fl (Z.lor DEFINED (Z.lor SECONDARY SOFT_RESET))
            else fl) opc pid.
Proof.
  intros H. cbn [PacketType_ctor]. rewrite H. reflexivity.
Qed.

(** X5. The head of a data packet is classified as it was composed: a
    DATA_V2 head made by [op32_compose] for key id [kid] and peer id
    [peer] (or -1 for none) gives opcode DATA_V2 and that peer id, a
    DATA_V1 head byte gives DATA_V1 and peer id -1, and in both cases the
    flags say which of the primary and secondary key contexts, if any,
    has key id [kid], the primary one winning. *)
Theorem data_head_classified (kid peer : Z) (body : Buffer) (pc : ProtoContext) :
  0 <= kid < 8 -> -1 <= peer < 0x00FFFFFF ->
  let sel := if key_id_of (primary pc) kid then DEFINED
             else if key_id_of (secondary pc) kid then Z.lor DEFINED SECONDARY
             else 0 in
  PacketType_ctor (u32be (op32_compose DATA_V2 kid peer) ++ body) pc
  = mkPacketType sel DATA_V2 peer
  /\ PacketType_ctor (buf_push_front (byte_of_Z (op_compose DATA_V1 kid)) body) pc
     = mkPacketType sel DATA_V1 (-1).
Proof.
  intros Hk Hp. cbv zeta.
  destruct (op_compose_fields DATA_V2 kid ltac:(unfold DATA_V2; lia) Hk)
    as (Hr2 & Ho2 & Hk2 & Hb2 & _).
  destruct (op_compose_fields DATA_V1 kid ltac:(unfold DATA_V1; lia) Hk)
    as (Hr1 & Ho1 & Hk1 & Hb1 & _).
  split.
  - destruct (op32_compose_parts DATA_V2 kid peer Hr2) as (Hv & Hs & Hl).
    set (v := op32_compose DATA_V2 kid peer) in *.
    unfold u32be. cbn [app].
    erewrite PacketType_ctor_cons.
    2:{ unfold examine_opcode. cbv zeta.
        rewrite Hs, Hb2, Ho2. cbn [buf_size length].
        change ((DATA_V2 =? CONTROL_SOFT_RESET_V1) || (DATA_V2 =? CONTROL_V1)
                || (DATA_V2 =? ACK_V1)) with false.
        change (DATA_V2 =? DATA_V2) with true. cbv iota.
        change (S (S (S (S (length body)))) <? 4)%nat with false. cbv iota.
        reflexivity. }
    cbv zeta. rewrite Hs, Hb2, Hk2.
    assert (Hval : u32be_val (byte_of_Z (op_compose DATA_V2 kid))
                     (byte_of_Z (Z.shiftr v 16)) (byte_of_Z (Z.shiftr v 8))
                     (byte_of_Z v) = v)
      by (rewrite <- Hs; apply u32be_val_u32be; exact Hv).
    rewrite Hval, Hl.
    change (DATA_V2 =? CONTROL_SOFT_RESET_V1) with false. cbn [andb].
    assert (Hpeer : (if negb (peer mod 2 ^ 24 =? OP_PEER_ID_UNDEF)
                     then peer mod 2 ^ 24 else -1) = peer).
    { unfold OP_PEER_ID_UNDEF.
      destruct (Z.eq_dec peer (-1)) as [-> | Hn]; [reflexivity |].
      rewrite Z.mod_small by lia.
      destruct (Z.eqb_spec peer 16777215) as [E|E]; [lia | reflexivity]. }
    rewrite Hpeer.
    destruct (key_id_of (primary pc) kid); [reflexivity |].
    destruct (key_id_of (secondary pc) kid); reflexivity.
  - unfold buf_push_front.
    erewrite PacketType_ctor_cons.
    2:{ unfold examine_opcode. cbv zeta. rewrite Hb1, Ho1. reflexivity. }
    cbv zeta. rewrite Hb1, Hk1.
    change (DATA_V1 =? CONTROL_SOFT_RESET_V1) with false. cbn [andb].
    destruct (key_id_of (primary pc) kid); [reflexivity |].
    destruct (key_id_of (secondary pc) kid); reflexivity.
Qed.

End Classified.

Section Dispatch.

Context {C : Collaborators}.

Lemma key_id_of_Some (o : option KeyContext) (kid : Z) :
  key_id_of o kid = true -> exists k, o = Some k /\ key_id_ k = kid.
Proof.
  destruct o as [k |]; cbn; [| discriminate].
  intros H. apply Z.eqb_eq in H. eauto.
Qed.

(** X6. A packet that [PacketType] classifies as defined and not as a soft
    reset always finds its key context: [select_key_context], asked for
    the kind of packet it is, returns the primary or secondary key
    context, the returned one carries the key id of the packet's low
    three opcode bits, and the engine is unchanged; asked for the other
    kind (control for a data packet or the reverse) it throws
    [select_key_context_error]. *)
Theorem classified_packet_selects_its_key (b0 : byte) (r : Buffer) (pc : ProtoContext) :
  let t := PacketType_ctor (b0 :: r) pc in
  is_defined t = true -> is_soft_reset t = false ->
  exists sl k,
    select_key_context t (is_control t) pc = (pc, Ret (sl, k))
    /\ (match sl with Primary => primary pc | Secondary => secondary pc end) = Some k
    /\ key_id_ k = key_id_extract (byte_to_Z b0)
    /\ select_key_context t (negb (is_control t)) pc
       = (pc, Throw select_key_context_error).
Proof.
  cbv zeta.
  destruct (examine_opcode (b0 :: r) (byte_to_Z b0) pc) as [[[fl opc] pid] |] eqn:Ex.
  2:{ cbn [PacketType_ctor]. rewrite Ex. intros H. discriminate H. }
  rewrite (PacketType_ctor_cons b0 r pc fl opc pid Ex). cbv zeta.
  destruct (examine_opcode_none_flags _ _ _ _ _ _ Ex) as (_ & Hfl & Hsr & _).
  set (kid := key_id_extract (byte_to_Z b0)).
  destruct (key_id_of (primary pc) kid) eqn:Kp.
  - apply key_id_of_Some in Kp. destruct Kp as (k & Hp & Hk).
    intros _ _. exists Primary, k.
    unfold select_key_context, is_control, bind, gets, ret, throw. cbn [flags].
    rewrite Hp.
    destruct Hfl as [-> | ->]; (split; [reflexivity | split; [reflexivity | split;
      [exact Hk |]]]); destruct (secondary pc); reflexivity.
  - destruct (key_id_of (secondary pc) kid) eqn:Ks.
    + apply key_id_of_Some in Ks. destruct Ks as (k & Hs & Hk).
      intros _ _. exists Secondary, k.
      unfold select_key_context, is_control, bind, gets, ret, throw. cbn [flags].
      rewrite Hs.
      destruct Hfl as [-> | ->]; (split; [destruct (primary pc); reflexivity |
        split; [reflexivity | split; [exact Hk |]]]); destruct (primary pc); reflexivity.
    + destruct ((opc =? CONTROL_SOFT_RESET_V1) && (kid =? upcoming_key_id (core pc)))
        eqn:Sr.
      * apply andb_prop in Sr. destruct Sr as [Sr _]. apply Z.eqb_eq in Sr.
        rewrite (Hsr Sr). intros _ H. discriminate H.
      * destruct Hfl as [-> | ->]; intros H; discriminate H.
Qed.


(** X8. [next_key_id] returns the key id that was upcoming and moves the
    upcoming one to a different id between 1 and 7: one more below 7,
    back to 1 after 7, never 0. *)
Theorem next_key_id_fresh (p : Proto) :
  0 <= upcoming_key_id p < 2 ^ 32 ->
  let p' := fst (next_key_id p) in
  snd (next_key_id p) = upcoming_key_id p
  /\ 1 <= upcoming_key_id p' <= 7
  /\ upcoming_key_id p' <> upcoming_key_id p
  /\ (upcoming_key_id p < 7 -> upcoming_key_id p' = upcoming_key_id p + 1)
  /\ (upcoming_key_id p = 7 -> upcoming_key_id p' = 1).
Proof.
  intros Hu. cbv zeta. unfold next_key_id. cbv zeta. cbn [fst snd upcoming_key_id set_key_ids].
  unfold KEY_ID_MASK, uint32.
  assert (Hland : forall x, Z.land x 7 = x mod 8)
    by (intros x; change 7 with (Z.ones 3); rewrite Z.land_ones by lia; reflexivity).
  rewrite !Hland.
  set (u := upcoming_key_id p) in *.
  destruct (Z.eqb_spec (((u + 1) mod 2 ^ 32) mod 8) 0) as [E|E];
    repeat split; try lia;
    try (intros; Z.div_mod_to_equations; lia);
    try (Z.div_mod_to_equations; lia).
Qed.

End Dispatch.

Lemma data_head_classified_witness :
  let pc := Demo.demo_context PROTO_UDP in
  @PacketType_ctor Demo.demo (u32be (op32_compose DATA_V2 0 5) ++ [x01]) pc
  = mkPacketType DEFINED DATA_V2 5
  /\ @PacketType_ctor Demo.demo (buf_push_front (byte_of_Z (op_compose DATA_V1 0)) [x01]) pc
     = mkPacketType DEFINED DATA_V1 (-1).
Proof.
  cbv zeta.
  apply (@data_head_classified Demo.demo 0 5 [x01] (Demo.demo_context PROTO_UDP)); lia.
Defined.

Lemma classified_packet_selects_its_key_witness :
  let pc := Demo.demo_context PROTO_UDP in
  let t := @PacketType_ctor Demo.demo (x20 :: [x01]) pc in
  exists sl k,
    @select_key_context Demo.demo t (is_control t) pc = (pc, Ret (sl, k))
    /\ (match sl with Primary => primary pc | Secondary => secondary pc end) = Some k
    /\ key_id_ k = key_id_extract (byte_to_Z x20)
    /\ @select_key_context Demo.demo t (negb (is_control t)) pc
       = (pc, Throw select_key_context_error).
Proof.
  cbv zeta.
  apply (@classified_packet_selects_its_key Demo.demo x20 [x01]
           (Demo.demo_context PROTO_UDP)); reflexivity.
Defined.


Lemma next_key_id_fresh_witness :
  let p := Demo.demo_proto PROTO_UDP true in
  let p' := fst (@next_key_id Demo.demo p) in
  snd (@next_key_id Demo.demo p) = upcoming_key_id p
  /\ 1 <= upcoming_key_id p' <= 7
  /\ upcoming_key_id p' <> upcoming_key_id p
  /\ (upcoming_key_id p < 7 -> upcoming_key_id p' = upcoming_key_id p + 1)
  /\ (upcoming_key_id p = 7 -> upcoming_key_id p' = 1).
Proof.
  cbv zeta.
  apply (@next_key_id_fresh Demo.demo (Demo.demo_proto PROTO_UDP true)). cbn; lia.
Defined.

Lemma u32b_spec (z : Z) : u32b z = true -> 0 <= z < 2 ^ 32.
Proof. unfold u32b. intros H. apply andb_prop in H. lia. Qed.

Lemma psid_read_app (d : ProtoSessionID) (r : Buffer) :
  psid_ok d = true -> psid_read (psid_id d ++ r) = Ret (d, r).
Proof.
  unfold psid_ok. intros H. apply andb_prop in H. destruct H as [Hd Hl].
  apply Nat.eqb_eq in Hl. unfold psid_read.
  rewrite buf_read_app by exact Hl. cbn [obind].
  destruct d as [df id]. cbn in Hd. subst df. reflexivity.
Qed.

Lemma psid_ok_length (d : ProtoSessionID) :
  psid_ok d = true -> length (psid_id d) = PSID_SIZE.
Proof.
  unfold psid_ok. intros H. apply andb_prop in H. destruct H as [_ Hl].
  apply Nat.eqb_eq in Hl. exact Hl.
Qed.

Lemma read_ids_fold (ids : list Z) (r : Buffer) :
  forallb u32b ids = true ->
  read_ids (length ids) (fold_right (fun id b => prepend_id b id) r ids) = Ret (ids, r).
Proof.
  induction ids as [| id ids IH]; intros H; cbn [length read_ids fold_right].
  - reflexivity.
  - cbn [forallb] in H. apply andb_prop in H. destruct H as [Hid Hids].
    unfold prepend_id at 1, buf_prepend.
    rewrite read_id_u32be by (apply u32b_spec; exact Hid).
    cbn [obind]. rewrite IH by exact Hids. reflexivity.
Qed.

Lemma pid_read_long_app (pid : PacketID) (r : Buffer) :
  u32b (pid_id pid) = true -> u32b (pid_time pid) = true ->
  pid_read_long ((u32be (pid_id pid) ++ u32be (pid_time pid)) ++ r) = Ret (pid, r).
Proof.
  intros Hi Ht. unfold pid_read_long. rewrite <- app_assoc.
  rewrite read_id_u32be by (apply u32b_spec; exact Hi). cbn [obind].
  rewrite read_id_u32be by (apply u32b_spec; exact Ht). cbn [obind].
  destruct pid; reflexivity.
Qed.

Section Hmac.

Context {C : Collaborators}.

(** What [ovpn_hmac_gen] writes into the slot verifies. *)
Lemma ovpn_hmac_gen_cmp (h : OvpnHMAC) (a slot pid r : Buffer) (l1 l2 l3 : nat) :
  length a = l1 -> length slot = l2 -> length pid = l3 ->
  l2 = hmac_output_size h ->
  (forall input, length (hmac_digest h input) = l2) ->
  let d := firstn l2 (hmac_digest h (pid ++ a ++ r)) in
  ovpn_hmac_gen h (a ++ slot ++ pid ++ r) l1 l2 l3 = Ret (a ++ d ++ pid ++ r)
  /\ ovpn_hmac_cmp h (a ++ d ++ pid ++ r) l1 l2 l3 = true
  /\ length d = l2.
Proof.
  intros Ha Hs Hp Hsz Hd. cbv zeta.
  assert (Hdl : length (firstn l2 (hmac_digest h (pid ++ a ++ r))) = l2)
    by (rewrite firstn_length_le; [reflexivity | rewrite Hd; lia]).
  unfold ovpn_hmac_gen, ovpn_hmac_cmp.
  rewrite !ovpn_hmac_pre_layout by assumption.
  rewrite Hsz, Nat.eqb_refl. rewrite <- Hsz.
  split; [| split].
  - rewrite (firstn_exact a _ l1 Ha).
    replace (a ++ slot ++ pid ++ r) with ((a ++ slot) ++ pid ++ r)
      by (rewrite <- app_assoc; reflexivity).
    rewrite (skipn_exact (a ++ slot) _ (l1 + l2)) by (rewrite length_app; lia).
    reflexivity.
  - rewrite (skipn_exact a _ l1 Ha).
    rewrite (firstn_exact _ _ l2 Hdl).
    apply bytes_eqb_true. reflexivity.
  - exact Hdl.
Qed.

End Hmac.

Section CodecInverse.

Context {C : Collaborators}.

Lemma decode_tail_encoded (opc kid : Z) (src : ProtoSessionID)
      (auth : option (Buffer * PacketID)) (acks : list Z)
      (dest : option ProtoSessionID) (msg : option Z) (payload r5 : Buffer) :
  (length acks < 256)%nat ->
  forallb u32b acks = true ->
  match acks, dest with
  | [], None => r5 = match msg with Some id => prepend_id payload id | None => payload end
  | _ :: _, Some d =>
      psid_ok d = true
      /\ r5 = psid_prepend d
                (match msg with Some id => prepend_id payload id | None => payload end)
  | _, _ => False
  end ->
  match msg with
  | Some id => negb (opc =? ACK_V1) = true /\ u32b id = true
  | None => (opc =? ACK_V1) = true
  end ->
  decode_tail opc kid src auth
    (buf_push_front (byte_of_Z (Z.of_nat (length acks)))
       (fold_right (fun id b => prepend_id b id) r5 acks))
  = Some (mkControlPacket opc kid src auth acks dest msg payload).
Proof.
  intros Hlen Hids Hdest Hmsg. unfold decode_tail, buf_push_front.
  cbn [buf_pop_front opt_of optbind].
  rewrite byte_to_of_Z by lia. rewrite Nat2Z.id.
  rewrite read_ids_fold by exact Hids. cbn [opt_of optbind].
  assert (Hm : forall r,
             r = match msg with Some id => prepend_id payload id | None => payload end ->
             optbind
               (if negb (opc =? ACK_V1)
                then optbind (opt_of (read_id r))
                       (fun '(id, recv) => Some (Some id, recv))
                else Some (None, r))
               (fun '(msg_id, recv) =>
                  Some (mkControlPacket opc kid src auth acks dest msg_id recv))
             = Some (mkControlPacket opc kid src auth acks dest msg payload)).
  { intros r ->. destruct msg as [id |].
    - destruct Hmsg as [Ho Hi]. rewrite Ho.
      unfold prepend_id, buf_prepend.
      rewrite read_id_u32be by (apply u32b_spec; exact Hi). reflexivity.
    - rewrite Hmsg. reflexivity. }
  destruct acks as [| a acks']; destruct dest as [d |]; try contradiction.
  - cbn [length Nat.ltb Nat.leb optbind]. apply Hm. exact Hdest.
  - destruct Hdest as [Hd ->]. cbn [length Nat.ltb Nat.leb].
    unfold psid_prepend, buf_prepend. rewrite psid_read_app by exact Hd.
    cbn [opt_of optbind]. apply Hm. reflexivity.
Qed.


End CodecInverse.


Section KeepRules.

Context {C : Collaborators}.
Variable R : KSt -> KSt -> Prop.
Context {HR : FrameRel R}.

Lemma keeps_ret {A : Type} (a : A) : keeps R (ret a).
Proof. intros s. apply rel_refl. Qed.

Lemma keeps_lift {A : Type} (o : outcome A) : keeps R (lift o).
Proof. intros s. apply rel_refl. Qed.

Lemma keeps_throw {A : Type} (e : Exn) : keeps R (@throw KSt A e).
Proof. intros s. apply rel_refl. Qed.

Lemma keeps_gets {A : Type} (f : KSt -> A) : keeps R (gets f).
Proof. intros s. apply rel_refl. Qed.

Lemma keeps_bind {A B : Type} (m : M KSt A) (k : A -> M KSt B) :
  keeps R m -> (forall a, keeps R (k a)) -> keeps R (bind m k).
Proof.
  intros Hm Hk s. unfold bind. specialize (Hm s).
  destruct (m s) as [s1 [a | e]]; cbn [fst] in *.
  - eapply rel_trans; [exact Hm | apply Hk].
  - exact Hm.
Qed.

Lemma keeps_when (c : bool) (m : M KSt unit) : keeps R m -> keeps R (when c m).
Proof. intros Hm. destruct c; [exact Hm | apply keeps_ret]. Qed.

Lemma keeps_catch {A : Type} (m h : M KSt A) :
  keeps R m -> keeps R h -> keeps R (catch_buffer m h).
Proof.
  intros Hm Hh s. unfold catch_buffer. specialize (Hm s).
  destruct (m s) as [s1 [a | e]]; cbn [fst] in *; [exact Hm |].
  destruct e; try exact Hm.
  eapply rel_trans; [exact Hm | apply Hh].
Qed.

Lemma keeps_modify (f : KSt -> KSt) : (forall s, R s (f s)) -> keeps R (modify f).
Proof. intros Hf s. apply Hf. Qed.

End KeepRules.

(** [leaf] proves [R s (f s)] for the state updates of the method. *)
Ltac keeps_step leaf :=
  cbv beta;
  lazymatch goal with
  | |- keeps _ (let _ := _ in _) => cbv zeta
  | |- keeps _ (bind _ _) => apply keeps_bind; [ exact _ | | intros ? ]
  | |- keeps _ (ret _) => apply keeps_ret; exact _
  | |- keeps _ (lift _) => apply keeps_lift; exact _
  | |- keeps _ (throw _) => apply keeps_throw; exact _
  | |- keeps _ (gets _) => apply keeps_gets; exact _
  | |- keeps _ (when _ _) => apply keeps_when; [ exact _ | ]
  | |- keeps _ (catch_buffer _ _) => apply keeps_catch; [ exact _ | | ]
  | |- keeps _ (invalidate _) =>
      unfold invalidate, on_self; apply keeps_modify; intros ?;
      unfold Base_invalidate; cbn [self proto];
      match goal with |- context [invalidated_ ?k] => destruct (invalidated_ k) end;
      leaf
  | |- keeps _ (on_self _) => unfold on_self; apply keeps_modify; intros ?; leaf
  | |- keeps _ (on_proto _) => unfold on_proto; apply keeps_modify; intros ?; leaf
  | |- keeps _ (modify _) => apply keeps_modify; intros ?; leaf
  | |- keeps _ (match ?x with _ => _ end) => destruct x
  | |- keeps _ _ => solve [eauto with frames]
  end.

Ltac keeps_auto leaf := repeat (keeps_step leaf).

Ltac dc_leaf := unfold dc_rel; cbn; repeat split; reflexivity.

Ltac net_leaf := unfold net_rel; cbn; reflexivity.

Section DataChannel.

Context {C : Collaborators}.

#[local] Instance dc_rel_FrameRel : FrameRel dc_rel.
Proof.
  split.
  - intros s. unfold dc_rel. repeat split; reflexivity.
  - intros a b c (H1 & H2 & H3 & H4 & H5 & H6) (G1 & G2 & G3 & G4 & G5 & G6).
    unfold dc_rel. repeat split; congruence.
Qed.

Lemma keeps_dc_key_limit_reneg ev t : keeps dc_rel (key_limit_reneg ev t).
Proof. unfold key_limit_reneg. keeps_auto dc_leaf. Qed.
Hint Resolve keeps_dc_key_limit_reneg : frames.

Lemma keeps_dc_schedule : keeps dc_rel schedule_key_limit_renegotiation.
Proof. unfold schedule_key_limit_renegotiation. keeps_auto dc_leaf. Qed.
Hint Resolve keeps_dc_schedule : frames.

Lemma keeps_dc_data_limit_event mode st : keeps dc_rel (data_limit_event mode st).
Proof. unfold data_limit_event. keeps_auto dc_leaf. Qed.
Hint Resolve keeps_dc_data_limit_event : frames.

Lemma keeps_dc_data_limit_add mode size : keeps dc_rel (data_limit_add mode size).
Proof. unfold data_limit_add. keeps_auto dc_leaf. Qed.


Lemma do_encrypt_wire (b : Buffer) (hint : bool) (s : KSt) :
  let k := self s in
  let e := crypto_encrypt (crypto k) (dc_plain b hint k)
             (seconds_since_epoch (now_ (proto s))) (dc_ad k) in
  snd (do_encrypt b hint s) = Ret (fst (snd e), dc_head k ++ snd (snd e)).
Proof.
  cbv zeta. unfold do_encrypt.
  unfold bind at 1. unfold gets at 1.
  assert (HA : exists sa,
             (match compress (self s) with
              | Some c =>
                  let '(c', b') := comp_compress c b hint in
                  on_self (set_compress (Some c'));; ret b'
              | None => ret b
              end) s = (sa, Ret (dc_plain b hint (self s)))
             /\ now_ (proto sa) = now_ (proto s)
             /\ crypto (self sa) = crypto (self s)
             /\ enable_op32 (self sa) = enable_op32 (self s)
             /\ key_id_ (self sa) = key_id_ (self s)
             /\ remote_peer_id (self sa) = remote_peer_id (self s)).
  { unfold dc_plain. destruct (compress (self s)) as [c |].
    - destruct (comp_compress c b hint) as [c' b'].
      eexists. split; [reflexivity |]. cbn. repeat split; reflexivity.
    - exists s. split; [reflexivity |]. repeat split; reflexivity. }
  destruct HA as (sa & HA & Ha1 & Ha2 & Ha3 & Ha4 & Ha5).
  unfold bind at 1. rewrite HA.
  unfold bind at 1. unfold gets at 1.
  unfold bind at 1.
  match goal with
  | |- context [when ?c ?m sa] =>
      destruct (nothrow_when c m (nothrow_data_limit_add _ _) sa) as [u Hu];
      pose proof (keeps_when dc_rel c m (keeps_dc_data_limit_add _ _) sa) as Hk;
      destruct (when c m sa) as [sb o]
  end.
  cbn [fst snd] in Hu, Hk. subst o.
  destruct Hk as (Hb1 & Hb2 & _ & Hb4 & Hb5 & Hb6).
  unfold bind, gets, on_self, modify, ret. cbn [self proto].
  unfold dc_ad, dc_head.
  rewrite Hb1, Hb2, Hb4, Hb5, Hb6, Ha1, Ha2, Ha3, Ha4, Ha5.
  destruct (enable_op32 (self s)).
  - destruct (crypto_encrypt _ _ _ _) as [c' [w ct]]. reflexivity.
  - destruct (crypto_encrypt _ _ _ _) as [c' [w ct]]. reflexivity.
Qed.

Lemma dc_head_parse (k : KeyContext) (ct : Buffer) :
  0 <= key_id_ k < 8 ->
  exists op,
    buf_index0 (dc_head k ++ ct) = Ret op
    /\ buf_advance (op_head_size (byte_to_Z op)) (dc_head k ++ ct) = Ret ct
    /\ (if Nat.eqb (op_head_size (byte_to_Z op)) OP_SIZE_V2
        then Some (firstn OP_SIZE_V2 (dc_head k ++ ct)) else None) = dc_ad k.
Proof.
  intros Hk. unfold dc_head, dc_ad. destruct (enable_op32 k).
  - destruct (op_compose_fields DATA_V2 (key_id_ k) ltac:(unfold DATA_V2; lia) Hk)
      as (Hr & _ & _ & Hb & Hh).
    destruct (op32_compose_parts DATA_V2 (key_id_ k) (remote_peer_id k) Hr)
      as (_ & Hs & _).
    set (v := op32_compose DATA_V2 (key_id_ k) (remote_peer_id k)) in *.
    unfold u32be. cbn [app]. rewrite Hs.
    exists (byte_of_Z (op_compose DATA_V2 (key_id_ k))).
    rewrite Hb, Hh. change (DATA_V2 =? DATA_V2) with true. cbv iota.
    repeat split; reflexivity.
  - destruct (op_compose_fields DATA_V1 (key_id_ k) ltac:(unfold DATA_V1; lia) Hk)
      as (_ & _ & _ & Hb & Hh).
    cbn [app].
    exists (byte_of_Z (op_compose DATA_V1 (key_id_ k))).
    rewrite Hb, Hh. change (DATA_V1 =? DATA_V2) with false. cbv iota.
    repeat split; reflexivity.
Qed.

(** The run of [decrypt] on a packet that the cipher instance accepts. *)
Lemma decrypt_accepted (b : Buffer) (op : byte) (body plain x : Buffer)
      (cr' : CryptoDC) (r : KSt) :
  crypto_ready (self r) = true ->
  buf_index0 b = Ret op ->
  buf_advance (op_head_size (byte_to_Z op)) b = Ret body ->
  crypto_decrypt (crypto (self r)) body (seconds_since_epoch (now_ (proto r)))
    (if Nat.eqb (op_head_size (byte_to_Z op)) OP_SIZE_V2
     then Some (firstn OP_SIZE_V2 b) else None) = (cr', Ret (SUCCESS, plain)) ->
  match compress (self r) with
  | Some c => snd (comp_decompress c plain)
  | None => Ret plain
  end = Ret x ->
  snd (decrypt b r) = Ret x.
Proof.
  intros Hready Hop Hadv Hcrypto Hx.
  assert (H : snd (decrypt_try b r) = Ret x).
  { unfold decrypt_try.
    unfold bind at 1. unfold gets at 1. rewrite Hready.
    unfold bind at 1. unfold lift at 1. rewrite Hop. cbv zeta.
    unfold bind at 1. unfold lift at 1. rewrite Hadv.
    unfold bind at 1. unfold gets at 1.
    unfold bind at 1. unfold crypto_decrypt_call at 1.
    match goal with
    | |- context [crypto_decrypt ?a ?y ?t ?ad] =>
        replace (crypto_decrypt a y t ad) with (cr', Ret (SUCCESS, plain))
          by (symmetry; exact Hcrypto)
    end.
    unfold bind at 1. change (error_eqb SUCCESS SUCCESS) with true.
    cbn [negb when]. unfold ret at 1.
    unfold bind at 1. unfold gets at 1.
    unfold bind at 1.
    match goal with
    | |- context [when ?c ?m ?st] =>
        destruct (nothrow_when c m (nothrow_data_limit_add _ _) st) as [u Hu];
        pose proof (keeps_when dc_rel c m (keeps_dc_data_limit_add _ _) st) as Hk;
        destruct (when c m st) as [r2 o]
    end.
    cbn [fst snd] in Hu, Hk. subst o.
    destruct Hk as (_ & _ & Hc & _). cbn [self proto compress set_crypto] in Hc.
    unfold bind, gets. rewrite Hc.
    destruct (compress (self r)) as [c |].
    - unfold decompress_call. destruct (comp_decompress c plain) as [c2 o2].
      cbn in *. exact Hx.
    - cbn. exact Hx. }
  unfold decrypt. rewrite (catch_buffer_passed _ _ _ _ H). exact H.
Qed.

Lemma encrypt_wire (b : Buffer) (s : KSt) :
  crypto_ready (self s) = true ->
  let k := self s in
  let e := crypto_encrypt (crypto k) (dc_plain b true k)
             (seconds_since_epoch (now_ (proto s))) (dc_ad k) in
  snd (encrypt b s) = Ret (dc_head k ++ snd (snd e)).
Proof.
  intros Hready. cbv zeta. unfold encrypt.
  unfold bind at 1. unfold gets at 1. rewrite Hready.
  pose proof (do_encrypt_wire b true s) as Hw. cbv zeta in Hw.
  unfold bind at 1. destruct (do_encrypt b true s) as [s1 o]. cbn [snd] in Hw. subst o.
  unfold bind at 1.
  match goal with
  | |- context [when ?c ?m s1] =>
      destruct (nothrow_when c m nothrow_schedule_key_limit_renegotiation s1) as [u Hu];
      destruct (when c m s1) as [s2 o]
  end.
  cbn [snd] in Hu. subst o. reflexivity.
Qed.

Lemma data_head_flags (k : KeyContext) (ct : Buffer) (pc : ProtoContext) :
  0 <= key_id_ k < 8 ->
  flags (PacketType_ctor (dc_head k ++ ct) pc)
  = if key_id_of (primary pc) (key_id_ k) then DEFINED
    else if key_id_of (secondary pc) (key_id_ k) then Z.lor DEFINED SECONDARY
    else 0.
Proof.
  intros Hk. unfold dc_head. destruct (enable_op32 k).
  - destruct (op_compose_fields DATA_V2 (key_id_ k) ltac:(unfold DATA_V2; lia) Hk)
      as (Hr & Ho & Hki & Hb & _).
    destruct (op32_compose_parts DATA_V2 (key_id_ k) (remote_peer_id k) Hr)
      as (_ & Hs & _).
    set (v := op32_compose DATA_V2 (key_id_ k) (remote_peer_id k)) in *.
    unfold u32be. cbn [app]. rewrite Hs.
    erewrite PacketType_ctor_cons.
    2:{ unfold examine_opcode. cbv zeta. rewrite Hb, Ho. cbn [buf_size length].
        change ((DATA_V2 =? CONTROL_SOFT_RESET_V1) || (DATA_V2 =? CONTROL_V1)
                || (DATA_V2 =? ACK_V1)) with false.
        change (DATA_V2 =? DATA_V2) with true. cbv iota.
        change (S (S (S (S (length ct)))) <? 4)%nat with false. cbv iota.
        reflexivity. }
    cbv zeta. cbn [flags]. rewrite Hb, Hki.
    change (DATA_V2 =? CONTROL_SOFT_RESET_V1) with false. cbn [andb].
    destruct (key_id_of (primary pc) (key_id_ k)); [reflexivity |].
    destruct (key_id_of (secondary pc) (key_id_ k)); reflexivity.
  - destruct (op_compose_fields DATA_V1 (key_id_ k) ltac:(unfold DATA_V1; lia) Hk)
      as (_ & Ho & Hki & Hb & _).
    cbn [app].
    erewrite PacketType_ctor_cons.
    2:{ unfold examine_opcode. cbv zeta. rewrite Hb, Ho. reflexivity. }
    cbv zeta. cbn [flags]. rewrite Hb, Hki.
    change (DATA_V1 =? CONTROL_SOFT_RESET_V1) with false. cbn [andb].
    destruct (key_id_of (primary pc) (key_id_ k)); [reflexivity |].
    destruct (key_id_of (secondary pc) (key_id_ k)); reflexivity.
Qed.

Lemma data_head_selects (k k' : KeyContext) (sl : Slot) (ct : Buffer)
      (pc : ProtoContext) :
  0 <= key_id_ k < 8 ->
  receiving_key pc (key_id_ k) = Some (sl, k') ->
  select_key_context (packet_type (dc_head k ++ ct) pc) false pc = (pc, Ret (sl, k')).
Proof.
  intros Hk Hrk. unfold select_key_context, packet_type, bind, gets. cbv zeta.
  rewrite (data_head_flags k ct pc Hk). unfold receiving_key in Hrk.
  destruct (key_id_of (primary pc) (key_id_ k)) eqn:Kp.
  - destruct (primary pc) as [kp |]; [| discriminate]. cbn in Hrk.
    inversion Hrk; subst. reflexivity.
  - destruct (key_id_of (secondary pc) (key_id_ k)) eqn:Ks; [| discriminate].
    destruct (secondary pc) as [ks |]; [| discriminate]. cbn in Hrk.
    inversion Hrk; subst. destruct (primary pc); reflexivity.
Qed.

(** A packet built by [do_encrypt] as the key context chosen for it
    decrypts it. *)
Lemma wire_decrypts (ka kb : KeyContext) (plain x : Buffer) (t : Z) (r : KSt) :
  self r = kb -> crypto_ready kb = true -> 0 <= key_id_ ka < 8 ->
  cipher_inverse ka kb ->
  match compress kb with
  | Some c => snd (comp_decompress c plain)
  | None => Ret plain
  end = Ret x ->
  snd (decrypt (dc_head ka ++ snd (snd (crypto_encrypt (crypto ka) plain t (dc_ad ka)))) r)
  = Ret x.
Proof.
  intros Hself Hready Hk Hci Hx. subst kb.
  destruct (dc_head_parse ka (snd (snd (crypto_encrypt (crypto ka) plain t (dc_ad ka)))) Hk)
    as (op & Hop & Hadv & Had).
  destruct (Hci plain t (seconds_since_epoch (now_ (proto r))) (dc_ad ka)) as [cr' Hd].
  apply (decrypt_accepted _ op _ plain x cr' r Hready Hop Hadv);
    [exact (eq_trans (f_equal (crypto_decrypt _ _ _) Had) Hd) | exact Hx].
Qed.

Lemma compress_inverse_plain (ka kb : KeyContext) (b : Buffer) (hint : bool) :
  compress_inverse ka kb ->
  match compress kb with
  | Some c => snd (comp_decompress c (dc_plain b hint ka))
  | None => Ret (dc_plain b hint ka)
  end = Ret b.
Proof.
  unfold compress_inverse, dc_plain.
  destruct (compress ka), (compress kb); intros H; try contradiction; auto.
Qed.

(** A data packet built from payload [x] for key [ka], as the engine
    [pb] holding the matching key receives it. *)
Lemma wire_received (ka kb : KeyContext) (sl : Slot) (x : Buffer) (hint : bool) (t : Z)
      (pb : ProtoContext) :
  0 <= key_id_ ka < 8 ->
  receiving_key pb (key_id_ ka) = Some (sl, kb) ->
  crypto_ready kb = true ->
  cipher_inverse ka kb -> compress_inverse ka kb ->
  let out := dc_head ka
             ++ snd (snd (crypto_encrypt (crypto ka) (dc_plain x hint ka) t (dc_ad ka))) in
  exists pb',
    data_decrypt (packet_type out pb) out pb
    = (pb', Ret ((0 <? length x)%nat, if is_keepalive x then [] else x)).
Proof.
  intros Hk Hrk Hready Hci Hco. cbv zeta.
  set (out := dc_head ka ++ _).
  pose proof (wire_decrypts ka kb (dc_plain x hint ka) x t (mkKSt (core pb) kb)
                eq_refl Hready Hk Hci (compress_inverse_plain ka kb x hint Hco)) as Hd.
  fold out in Hd.
  assert (Hcall : exists pc1, call sl kb (decrypt out) pb = (pc1, Ret x)).
  { unfold call. destruct (decrypt out (mkKSt (core pb) kb)) as [s' o].
    cbn [snd] in Hd. subst o. eauto. }
  destruct Hcall as [pc1 Hcall].
  eexists.
  apply (data_decrypt_eq _ out pb pc1 sl kb x); [| exact Hcall].
  unfold out. rewrite (data_head_selects ka kb sl _ pb Hk Hrk). reflexivity.
Qed.

(** X10. What [data_encrypt] of one engine puts on the wire, [data_decrypt] of
    the peer turns back into the payload: with a ready primary key on
    the sending side, a ready key context with the same key id on the
    receiving side and a cipher and compressor that invert each other,
    the sender returns a packet, the receiver classifies it, selects
    that key context and returns the payload, empty when the payload is
    the keepalive message, and reports data exactly when the payload was
    not empty. *)
Theorem data_channel_roundtrip (b : Buffer) (pa pb : ProtoContext)
        (ka kb : KeyContext) (sl : Slot) :
  primary pa = Some ka -> crypto_ready ka = true -> 0 <= key_id_ ka < 8 ->
  receiving_key pb (key_id_ ka) = Some (sl, kb) -> crypto_ready kb = true ->
  cipher_inverse ka kb -> compress_inverse ka kb ->
  exists out pb',
    snd (data_encrypt b pa) = Ret out
    /\ data_decrypt (packet_type out pb) out pb
       = (pb', Ret ((0 <? length b)%nat, if is_keepalive b then [] else b)).
Proof.
  intros Hp Hra Hk Hrk Hrb Hci Hco.
  pose proof (encrypt_wire b (mkKSt (core pa) ka) Hra) as He. cbv zeta in He.
  cbn [self proto] in He.
  destruct (wire_received ka kb sl b true (seconds_since_epoch (now_ (core pa))) pb
              Hk Hrk Hrb Hci Hco) as [pb' Hd].
  eexists. exists pb'. split; [| exact Hd].
  unfold data_encrypt, bind, gets. rewrite Hp. unfold call.
  destruct (encrypt b (mkKSt (core pa) ka)) as [s' o]. cbn [snd] in *. exact He.
Qed.

#[local] Instance net_rel_FrameRel : FrameRel net_rel.
Proof.
  split; unfold net_rel; [reflexivity | congruence].
Qed.

Lemma keeps_net_key_limit_reneg ev t : keeps net_rel (key_limit_reneg ev t).
Proof. unfold key_limit_reneg. keeps_auto net_leaf. Qed.
Hint Resolve keeps_net_key_limit_reneg : frames.

Lemma keeps_net_schedule : keeps net_rel schedule_key_limit_renegotiation.
Proof. unfold schedule_key_limit_renegotiation. keeps_auto net_leaf. Qed.
Hint Resolve keeps_net_schedule : frames.

Lemma keeps_net_data_limit_event mode st : keeps net_rel (data_limit_event mode st).
Proof. unfold data_limit_event. keeps_auto net_leaf. Qed.
Hint Resolve keeps_net_data_limit_event : frames.

Lemma keeps_net_data_limit_add mode size : keeps net_rel (data_limit_add mode size).
Proof. unfold data_limit_add. keeps_auto net_leaf. Qed.
Hint Resolve keeps_net_data_limit_add : frames.

Lemma keeps_net_do_encrypt b hint : keeps net_rel (do_encrypt b hint).
Proof. unfold do_encrypt. keeps_auto net_leaf. Qed.

(** X11. [send_keepalive] of a ready key context returns, hands exactly one
    packet to the network, and the peer whose matching key context is
    ready decrypts that packet to an empty payload, counts it as
    received and moves its keepalive deadline to now plus the keepalive
    timeout. *)
Theorem keepalive_reaches_peer (s : KSt) (pb : ProtoContext) (kb : KeyContext)
        (sl : Slot) :
  crypto_ready (self s) = true -> 0 <= key_id_ (self s) < 8 ->
  receiving_key pb (key_id_ (self s)) = Some (sl, kb) -> crypto_ready kb = true ->
  cipher_inverse (self s) kb -> compress_inverse (self s) kb ->
  exists pkt pb',
    snd (send_keepalive s) = Ret tt
    /\ net_out (proto (fst (send_keepalive s))) = pkt :: net_out (proto s)
    /\ data_decrypt (packet_type pkt pb) pkt pb = (pb', Ret (true, []))
    /\ keepalive_expire (core pb')
       = time_add (now_ (core pb)) (cfg_keepalive_timeout (config (core pb))).
Proof.
  intros Hra Hk Hrk Hrb Hci Hco.
  destruct (wire_received (self s) kb sl keepalive_message false
              (seconds_since_epoch (now_ (proto s))) pb Hk Hrk Hrb Hci Hco)
    as [pb' Hd].
  change (0 <? length keepalive_message)%nat with true in Hd.
  change (is_keepalive keepalive_message) with true in Hd. cbv iota in Hd.
  match type of Hd with data_decrypt _ ?o _ = _ => set (out := o) in * end.
  assert (Hsend : exists s', send_keepalive s = (s', Ret tt)
                             /\ net_out (proto s') = out :: net_out (proto s)).
  { pose proof (do_encrypt_wire keepalive_message false s) as Hw. cbv zeta in Hw.
    pose proof (keeps_net_do_encrypt keepalive_message false s) as Hn.
    unfold send_keepalive, send_data_channel_message.
    unfold bind at 1. unfold gets at 1. rewrite Hra. cbv zeta.
    change (buf_write keepalive_message []) with keepalive_message.
    unfold bind at 1.
    destruct (do_encrypt keepalive_message false s) as [s1 o].
    cbn [fst snd] in Hw, Hn. subst o. unfold net_rel in Hn.
    unfold bind, gets, on_proto, modify, proto_net_send.
    eexists. split; [reflexivity |].
    cbn [fst snd proto net_out set_net_out buf]. rewrite Hn. reflexivity. }
  destruct Hsend as (s' & Hsend & Hout).
  exists out, pb'. rewrite Hsend. cbn [fst snd].
  split; [reflexivity | split; [exact Hout | split; [exact Hd |]]].
  apply (data_decrypt_resets_deadline _ _ _ _ _ Hd).
Qed.

End DataChannel.

Lemma data_channel_roundtrip_witness :
  let pc := Demo.demo_context PROTO_UDP in
  exists out pb',
    snd (@data_encrypt Demo.demo [x45; x00] pc) = Ret out
    /\ @data_decrypt Demo.demo (packet_type out pc) out pc = (pb', Ret (true, [x45; x00])).
Proof.
  cbv zeta.
  apply (@data_channel_roundtrip Demo.demo [x45; x00] (Demo.demo_context PROTO_UDP)
           (Demo.demo_context PROTO_UDP) (Demo.demo_key 0 false) (Demo.demo_key 0 false)
           Primary).
  - reflexivity.
  - reflexivity.
  - cbn; lia.
  - reflexivity.
  - reflexivity.
  - intros plain t t' ad. exists tt. reflexivity.
  - exact I.
Defined.

Lemma keepalive_reaches_peer_witness :
  let s := Demo.demo_kst PROTO_UDP true in
  let pc := Demo.demo_context PROTO_UDP in
  exists pkt pb',
    snd (@send_keepalive Demo.demo s) = Ret tt
    /\ net_out (proto (fst (@send_keepalive Demo.demo s))) = pkt :: net_out (proto s)
    /\ @data_decrypt Demo.demo (packet_type pkt pc) pkt pc = (pb', Ret (true, []))
    /\ keepalive_expire (core pb') = 140.
Proof.
  cbv zeta.
  apply (@keepalive_reaches_peer Demo.demo (Demo.demo_kst PROTO_UDP true)
           (Demo.demo_context PROTO_UDP) (Demo.demo_key 0 false) Primary).
  - reflexivity.
  - cbn; lia.
  - reflexivity.
  - reflexivity.
  - intros plain t t' ad. exists tt. reflexivity.
  - exact I.
Defined.

Ltac proto_leaf := unfold proto_rel; cbn; reflexivity.

Section Validates.

Context {C : Collaborators}.

#[local] Instance proto_rel_FrameRel : FrameRel proto_rel.
Proof.
  split; unfold proto_rel; [reflexivity | congruence].
Qed.

Lemma keeps_proto_ack_loop n live b : keeps proto_rel (ack_loop n live b).
Proof.
  revert b. induction n as [| n IH]; intros b; cbn [ack_loop]; keeps_auto proto_leaf.
Qed.
Hint Resolve keeps_proto_ack_loop : frames.

Lemma keeps_proto_ReliableAck_ack live b : keeps proto_rel (ReliableAck_ack live b).
Proof. unfold ReliableAck_ack. keeps_auto proto_leaf. Qed.

Lemma modify_inv {S : Type} (f : S -> S) (s s1 : S) (u : unit) :
  modify f s = (s1, Ret u) -> s1 = f s.
Proof. unfold modify. intros H. inversion H. reflexivity. Qed.

Lemma gets_inv {S A : Type} (f : S -> A) (s s1 : S) (a : A) :
  gets f s = (s1, Ret a) -> s1 = s /\ a = f s.
Proof. unfold gets. intros H. inversion H. auto. Qed.

Lemma lift_inv {S A : Type} (o : outcome A) (s s1 : S) (a : A) :
  lift o s = (s1, Ret a) -> s1 = s /\ o = Ret a.
Proof. unfold lift. intros H. inversion H. auto. Qed.

Lemma ret_inv {S A : Type} (x a : A) (s s1 : S) :
  ret x s = (s1, Ret a) -> s1 = s /\ a = x.
Proof. unfold ret. intros H. inversion H. auto. Qed.

(** What [verify_src_psid] has checked when it passes a packet on an
    engine that knows its peer. *)
Lemma verify_src_psid_passed (src : ProtoSessionID) (s s1 : KSt) :
  verify_src_psid src s = (s1, Ret true) ->
  psid_defined (psid_peer (proto s)) = true ->
  s1 = s /\ psid_match (psid_peer (proto s)) src = true.
Proof.
  unfold verify_src_psid. intros H Hd.
  apply bind_ret_inv in H. destruct H as (s0 & p & Hp & H).
  apply gets_inv in Hp. destruct Hp as [-> ->]. rewrite Hd in H.
  destruct (psid_match (psid_peer (proto s)) src); cbn [negb] in H.
  - apply ret_inv in H. destruct H as [-> _]. auto.
  - apply bind_ret_inv in H. destruct H as (s2 & u & _ & H).
    apply bind_ret_inv in H. destruct H as (s3 & u' & _ & H).
    apply ret_inv in H. destruct H as [_ H]. discriminate H.
Qed.

(** What [decapsulate_tail] has checked when it accepts a packet. *)
Lemma decapsulate_tail_passed (pkt : Packet) (recv : Buffer)
      (pid : option (PacketID * Z)) (pid_ok : bool) (s s' : KSt) :
  decapsulate_tail pkt recv pid pid_ok s = (s', Ret true) ->
  pid_ok = true
  /\ exists n r5,
       ReliableAck_ack_skip recv = Ret (n, r5)
       /\ ((0 <? n)%nat = true ->
           exists d r6, psid_read r5 = Ret (d, r6)
                        /\ psid_match (psid_self (proto s)) d = true).
Proof.
  unfold decapsulate_tail. intros H.
  apply bind_ret_inv in H. destruct H as (s1 & [n r5] & Hack & H).
  pose proof (keeps_proto_ReliableAck_ack pid_ok recv s) as Hproto.
  rewrite Hack in Hproto. cbn [fst] in Hproto. unfold proto_rel in Hproto.
  unfold ReliableAck_ack in Hack.
  apply bind_ret_inv in Hack. destruct Hack as (s0 & [len r4] & Hpop & Hack).
  apply lift_ret_inv in Hpop. cbv zeta in Hack.
  apply bind_ret_inv in Hack. destruct Hack as (s0' & r5' & Hloop & Hack).
  apply ret_inv in Hack. destruct Hack as [-> Hack]. inversion Hack; subst n r5'.
  apply ack_loop_reads in Hloop. destruct Hloop as [acks Hids].
  apply bind_ret_inv in H. destruct H as (s2 & [ok r6] & Hdest & H).
  destruct ok; cbn [negb] in H.
  2:{ apply ret_inv in H. destruct H as [_ H]. discriminate H. }
  assert (Hpo : pid_ok = true).
  { destruct (negb (opcode pkt =? ACK_V1)).
    - apply bind_ret_inv in H. destruct H as (s3 & [id r7] & _ & H).
      destruct pid_ok; [reflexivity |].
      apply bind_ret_inv in H. destruct H as (s4 & u & _ & H).
      apply bind_ret_inv in H. destruct H as (s5 & u' & _ & H).
      apply ret_inv in H. destruct H as [_ H]. discriminate H.
    - destruct pid as [[pid t] |].
      + apply bind_ret_inv in H. destruct H as (s3 & u & _ & H).
        apply ret_inv in H. destruct H as [_ H]. discriminate H.
      + apply ret_inv in H. destruct H as [_ H]. discriminate H. }
  split; [exact Hpo |].
  exists (Z.to_nat (byte_to_Z len)), r5. split.
  - unfold ReliableAck_ack_skip. rewrite Hpop. cbn [obind]. cbv zeta.
    rewrite Hids. reflexivity.
  - intros Hn. rewrite Hn in Hdest. unfold verify_dest_psid in Hdest.
    apply bind_ret_inv in Hdest. destruct Hdest as (s3 & [d r6'] & Hrd & Hdest).
    apply lift_inv in Hrd. destruct Hrd as [-> Hrd].
    apply bind_ret_inv in Hdest. destruct Hdest as (s4 & p & Hp & Hdest).
    apply gets_inv in Hp. destruct Hp as [-> ->].
    exists d, r6'. split; [exact Hrd |].
    rewrite Hproto in Hdest.
    destruct (psid_match (psid_self (proto s)) d) eqn:E; cbn [negb] in Hdest.
    + reflexivity.
    + apply bind_ret_inv in Hdest. destruct Hdest as (s5 & u & _ & Hdest).
      apply bind_ret_inv in Hdest. destruct Hdest as (s6 & u' & _ & Hdest).
      apply ret_inv in Hdest. destruct Hdest as [_ Hdest]. discriminate Hdest.
Qed.

Lemma ta_pid_recv_test_add_inv (pid : PacketID) (t : Z) (m ok : bool) (s s1 : KSt) :
  ta_pid_recv_test_add pid t m s = (s1, Ret ok) ->
  ok = snd (pid_test_add pid t m (ta_pid_recv (proto s)))
  /\ psid_self (proto s1) = psid_self (proto s).
Proof.
  unfold ta_pid_recv_test_add.
  destruct (pid_test_add pid t m (ta_pid_recv (proto s))) as [r' o].
  intros H. inversion H; subst. split; reflexivity.
Qed.

(** X12. The side-effect-free check agrees with the receive path: once the
    peer session id is known, every control packet that [decapsulate]
    accepts from some state is also passed by the static [validate] on
    the same parent state, and by [control_net_validate] for a defined
    packet type. *)
Theorem accepted_packet_validates (pkt : Packet) (s s' : KSt) :
  psid_defined (psid_peer (proto s)) = true ->
  decapsulate pkt s = (s', Ret true) ->
  snd (validate (buf pkt) (proto s)) = Ret true
  /\ forall (t : PacketType) (pc : ProtoContext),
       is_defined t = true -> core pc = proto s ->
       snd (control_net_validate t (buf pkt) pc) = Ret true.
Proof.
  intros Hpeer H.
  assert (Hval : snd (validate (buf pkt) (proto s)) = Ret true);
    [| split; [exact Hval |];
       intros t pc Hd Hc; unfold control_net_validate; rewrite Hd, Hc;
       destruct (validate (buf pkt) (proto s)) as [p' o]; exact Hval].
  unfold decapsulate in H.
  apply catch_buffer_ret_inv in H. destruct H as [H | [s1 H]].
  2:{ rewrite decapsulate_catch_eq in H. inversion H. }
  unfold decapsulate_try in H. cbv zeta in H.
  apply bind_ret_inv in H. destruct H as (s0 & p & Hp & H).
  apply gets_inv in Hp. destruct Hp as [-> ->].
  assert (Hv : snd (validate_try (buf pkt) (proto s)) = Ret true).
  { unfold validate_try. cbv zeta. unfold bind at 1. unfold gets at 1.
    destruct (use_tls_auth (proto s)).
    - apply bind_ret_inv in H. destruct H as (s1 & r0 & Hadv & H).
      apply lift_inv in Hadv. destruct Hadv as [-> Hadv].
      apply bind_ret_inv in H. destruct H as (s2 & [src r1] & Hsrc & H).
      apply lift_inv in Hsrc. destruct Hsrc as [-> Hsrc].
      apply bind_ret_inv in H. destruct H as (s3 & r2 & Hslot & H).
      apply lift_inv in Hslot. destruct Hslot as [-> Hslot].
      unfold bind at 1. unfold lift at 1. rewrite Hadv.
      unfold bind at 1. unfold lift at 1. rewrite Hsrc.
      unfold bind at 1. unfold lift at 1. rewrite Hslot.
      destruct (ovpn_hmac_cmp (ta_hmac_recv (proto s)) (buf pkt) (1 + PSID_SIZE)
                  (hmac_size (proto s)) PID_LONG_SIZE); cbn [negb] in *.
      2:{ apply bind_ret_inv in H. destruct H as (s4 & u & _ & H).
          apply bind_ret_inv in H. destruct H as (s5 & u' & _ & H).
          apply ret_inv in H. destruct H as [_ H]. discriminate H. }
      apply bind_ret_inv in H. destruct H as (s4 & u & Hup & H).
      apply modify_inv in Hup. subst s4.
      apply bind_ret_inv in H. destruct H as (s5 & ok & Hver & H).
      destruct ok; cbn [negb] in H.
      2:{ apply ret_inv in H. destruct H as [_ H]. discriminate H. }
      apply verify_src_psid_passed in Hver; [| exact Hpeer].
      destruct Hver as [-> Hmatch]. cbn [proto] in Hmatch.
      change (psid_peer (update_last_received (proto s))) with (psid_peer (proto s))
        in Hmatch.
      rewrite Hmatch. cbn [negb].
      apply bind_ret_inv in H. destruct H as (s6 & [pid r3] & Hpid & H).
      apply lift_inv in Hpid. destruct Hpid as [-> Hpid].
      unfold bind at 1. unfold lift at 1. rewrite Hpid.
      apply bind_ret_inv in H. destruct H as (s7 & pid_ok & Htest & H).
      apply ta_pid_recv_test_add_inv in Htest. destruct Htest as [Hok Hself].
      cbn [proto] in Hok, Hself.
      change (ta_pid_recv (update_last_received (proto s))) with (ta_pid_recv (proto s))
        in Hok.
      change (psid_self (update_last_received (proto s))) with (psid_self (proto s))
        in Hself.
      apply decapsulate_tail_passed in H. destruct H as (Hpo & n & r5 & Hskip & Hdest).
      rewrite Hself in Hdest.
      unfold bind at 1. unfold proto_test_add at 1.
      destruct (pid_test_add pid (seconds_since_epoch (now_ (proto s))) false
                  (ta_pid_recv (proto s))) as [rw okv].
      cbn [snd] in Hok. subst okv. subst pid_ok.
      unfold bind at 1. unfold lift at 1. rewrite Hskip.
      destruct (0 <? n)%nat.
      + destruct (Hdest eq_refl) as (d & r6 & Hrd & Hm).
        unfold bind, lift. rewrite Hrd. cbn. rewrite Hm. reflexivity.
      + reflexivity.
    - apply bind_ret_inv in H. destruct H as (s1 & u & Hup & H).
      apply modify_inv in Hup. subst s1.
      apply bind_ret_inv in H. destruct H as (s2 & r0 & Hadv & H).
      apply lift_inv in Hadv. destruct Hadv as [-> Hadv].
      apply bind_ret_inv in H. destruct H as (s3 & [src r1] & Hsrc & H).
      apply lift_inv in Hsrc. destruct Hsrc as [-> Hsrc].
      unfold bind at 1. unfold lift at 1. rewrite Hadv.
      unfold bind at 1. unfold lift at 1. rewrite Hsrc.
      apply bind_ret_inv in H. destruct H as (s5 & ok & Hver & H).
      destruct ok; cbn [negb] in H.
      2:{ apply ret_inv in H. destruct H as [_ H]. discriminate H. }
      apply verify_src_psid_passed in Hver; [| exact Hpeer].
      destruct Hver as [-> Hmatch]. cbn [proto] in Hmatch.
      change (psid_peer (update_last_received (proto s))) with (psid_peer (proto s))
        in Hmatch.
      rewrite Hmatch. cbn [negb].
      apply decapsulate_tail_passed in H. destruct H as (_ & n & r5 & Hskip & Hdest).
      cbn [proto] in Hdest.
      change (psid_self (update_last_received (proto s))) with (psid_self (proto s))
        in Hdest.
      unfold bind at 1. unfold lift at 1. rewrite Hskip.
      destruct (0 <? n)%nat.
      + destruct (Hdest eq_refl) as (d & r6 & Hrd & Hm).
        unfold bind, lift. rewrite Hrd. cbn. rewrite Hm. reflexivity.
      + reflexivity. }
  unfold validate. rewrite (catch_buffer_passed _ _ _ _ Hv). exact Hv.
Qed.

End Validates.

Lemma accepted_packet_validates_witness :
  snd (@validate Demo.demo (buf Demo.genuine_packet)
         (proto (Demo.demo_kst PROTO_UDP true))) = Ret true.
Proof.
  destruct (@accepted_packet_validates Demo.demo Demo.genuine_packet
              (Demo.demo_kst PROTO_UDP true)
              (fst (@decapsulate Demo.demo Demo.genuine_packet
                      (Demo.demo_kst PROTO_UDP true)))) as [H _].
  - reflexivity.
  - vm_compute. reflexivity.
  - exact H.
Defined.

Section PreValidate.

Context {C : Collaborators}.

(** A packet that [encode] builds in tls-auth layout starts with the
    opcode byte and carries an HMAC that verifies under the same key. *)
Lemma encode_tls_verifies (h : OvpnHMAC) (hsize max_ack_list : nat)
      (f : ControlPacket) (m p : Buffer) (pid : PacketID) :
  cp_tls_auth f = Some (m, pid) ->
  length (psid_id (cp_src_psid f)) = PSID_SIZE ->
  (forall input, length (hmac_digest h input) = hmac_output_size h) ->
  encode h hsize max_ack_list f = Ret p ->
  hsize = hmac_output_size h
  /\ ovpn_hmac_cmp h p (1 + PSID_SIZE) hsize PID_LONG_SIZE = true
  /\ exists r,
       p = byte_of_Z (op_compose (match cp_msg_id f with
                                  | Some _ => cp_opcode f
                                  | None => ACK_V1
                                  end) (cp_key_id f)) :: r.
Proof.
  intros Hauth Hsrc Hdig. unfold encode. cbv zeta. rewrite Hauth.
  intros Hgen.
  lazymatch type of Hgen with
  | obind ?o _ = _ => destruct o as [r5 | e]
  end; cbn [obind] in Hgen; [| discriminate Hgen].
  revert Hgen.
  unfold pid_write_prepend_long, psid_prepend, buf_prepend, buf_push_front.
  set (b0 := byte_of_Z (op_compose _ (cp_key_id f))).
  match goal with
  | |- context [byte_of_Z (Z.of_nat ?l) :: ?x] => set (r4 := byte_of_Z (Z.of_nat l) :: x)
  end.
  set (pidb := u32be (pid_id pid) ++ u32be (pid_time pid)).
  replace (b0 :: psid_id (cp_src_psid f) ++ repeat x00 hsize
           ++ u32be (pid_id pid) ++ u32be (pid_time pid) ++ r4)
    with ((b0 :: psid_id (cp_src_psid f)) ++ repeat x00 hsize ++ pidb ++ r4)
    by (subst pidb; rewrite <- (app_assoc (u32be (pid_id pid))); reflexivity).
  intros Hgen.
  assert (Hsz : hsize = hmac_output_size h).
  { unfold ovpn_hmac_gen in Hgen.
    rewrite ovpn_hmac_pre_layout in Hgen;
      [| cbn [length]; rewrite Hsrc; reflexivity | apply repeat_length | reflexivity].
    destruct (Nat.eqb_spec hsize (hmac_output_size h)) as [E|E]; [exact E | discriminate]. }
  destruct (ovpn_hmac_gen_cmp h (b0 :: psid_id (cp_src_psid f)) (repeat x00 hsize)
              pidb r4 (1 + PSID_SIZE) hsize PID_LONG_SIZE)
    as (Hgen' & Hcmp & _).
  { cbn [length]. rewrite Hsrc. reflexivity. }
  { apply repeat_length. }
  { reflexivity. }
  { exact Hsz. }
  { intros input. rewrite Hsz. apply Hdig. }
  cbv zeta in Hgen', Hcmp. rewrite Hgen' in Hgen. inversion Hgen; subst p.
  split; [exact Hsz | split; [exact Hcmp |]].
  eexists. reflexivity.
Qed.

(** X13. In tls-auth mode the first reset packet that [encapsulate] builds for
    key id 0 passes [TLSAuthPreValidate] of the opposite role keyed with
    the sender's HMAC key, and is rejected by the pre-validator of the
    sender's own role. *)
Theorem initial_packet_passes_pre_validate (id : Z) (payload : Buffer)
        (s s1 : KSt) (P : Packet) :
  use_tls_auth (proto s) = true ->
  key_id_ (self s) = 0 ->
  length (psid_id (psid_self (proto s))) = PSID_SIZE ->
  (forall input, length (hmac_digest (ta_hmac_send (proto s)) input)
                 = hmac_output_size (ta_hmac_send (proto s))) ->
  encapsulate id (mkPktSt s (mkPacket (initial_op true s) payload))
  = (mkPktSt s1 P, Ret tt) ->
  TLSAuthPreValidate_validate
    (TLSAuthPreValidate_reset_op (negb (is_server (proto s))))
    (ta_hmac_send (proto s)) (buf P) = true
  /\ TLSAuthPreValidate_validate
       (TLSAuthPreValidate_reset_op (is_server (proto s)))
       (ta_hmac_send (proto s)) (buf P) = false.
Proof.
  intros Htls Hkid Hpsid Hdig Henc.
  pose proof (encapsulate_emits_encode id (mkPacket (initial_op true s) payload) s) as He.
  cbv zeta in He. rewrite Henc in He. cbn [fst snd opcode buf packet] in He.
  destruct (encode (ta_hmac_send (proto s)) (hmac_size (proto s))
              (cfg_max_ack_list (config (proto s)))
              (outgoing_fields (initial_op true s) (Some id) payload s))
    as [p | e] eqn:Ep; [| discriminate].
  destruct He as [_ He]. subst P. cbn [buf].
  assert (Hauth : exists m pid,
             cp_tls_auth (outgoing_fields (initial_op true s) (Some id) payload s)
             = Some (m, pid)).
  { unfold outgoing_fields. cbn [cp_tls_auth]. rewrite Htls. eauto. }
  destruct Hauth as (m & pid & Hauth).
  destruct (encode_tls_verifies _ _ _ _ m p pid Hauth Hpsid Hdig Ep)
    as (Hsz & Hcmp & r & Hp).
  cbn [cp_msg_id cp_opcode cp_key_id outgoing_fields] in Hp. rewrite Hkid in Hp.
  assert (Hop : 0 <= initial_op true s < 32).
  { unfold initial_op. destruct (negb _); [| destruct (Bool.eqb _ _)];
      unfold CONTROL_SOFT_RESET_V1, CONTROL_HARD_RESET_SERVER_V2,
        CONTROL_HARD_RESET_CLIENT_V2; lia. }
  destruct (op_compose_fields (initial_op true s) 0 Hop ltac:(lia))
    as (_ & Ho & Hk & Hb & _).
  unfold TLSAuthPreValidate_validate. rewrite Hp. cbv zeta.
  rewrite Hb, Ho, Hk. rewrite <- Hp, <- Hsz, Hcmp.
  unfold initial_op, TLSAuthPreValidate_reset_op. rewrite Hkid.
  cbn [Z.eqb negb orb].
  destruct (is_server (proto s)); cbn; split; reflexivity.
Qed.

End PreValidate.

Lemma initial_packet_passes_pre_validate_witness :
  let s := Demo.demo_kst PROTO_UDP true in
  let r := @encapsulate Demo.demo 0 (mkPktSt s (mkPacket (initial_op true s) [])) in
  snd r = Ret tt
  /\ @TLSAuthPreValidate_validate Demo.demo CONTROL_HARD_RESET_CLIENT_V2 tt
       (buf (packet (fst r))) = true
  /\ @TLSAuthPreValidate_validate Demo.demo CONTROL_HARD_RESET_SERVER_V2 tt
       (buf (packet (fst r))) = false.
Proof.
  cbv zeta. split; [vm_compute; reflexivity |].
  apply (@initial_packet_passes_pre_validate Demo.demo 0 []
           (Demo.demo_kst PROTO_UDP true)
           (kst (fst (@encapsulate Demo.demo 0
                        (mkPktSt (Demo.demo_kst PROTO_UDP true)
                           (mkPacket (initial_op true (Demo.demo_kst PROTO_UDP true))
                              [])))))).
  - reflexivity.
  - reflexivity.
  - reflexivity.
  - intros input. reflexivity.
  - vm_compute. reflexivity.
Defined.

Section EventProps.

Context {C : Collaborators}.
Variable duration_mul : Duration -> Z -> Duration.
Variable ec : EventConfig.

(** X14. When the deadline of a KEV_NEGOTIATE, KEV_PRIMARY_PENDING or
    KEV_EXPIRE event of a valid key context has passed, [event_pending]
    reports that event, books its error exactly once and invalidates the
    key context with that error as the reason; after [reset_event] a
    second [event_pending] reports nothing and books nothing. *)
Theorem deadline_event_fires_once (s : KSt) (err : ErrorType) :
  invalidated (self s) = false ->
  current_event (self s) = KEV_NONE ->
  deadline_error (next_event (self s)) = Some err ->
  time_ge (now_ (proto s)) (next_event_time (self s)) = true ->
  let r := event_pending duration_mul ec s in
  let r2 := (reset_event ;; event_pending duration_mul ec) (fst r) in
  snd r = Ret true
  /\ current_event (self (fst r)) = next_event (self s)
  /\ stats (proto (fst r)) = err :: stats (proto s)
  /\ invalidated (self (fst r)) = true
  /\ invalidation_reason_ (self (fst r)) = err
  /\ snd r2 = Ret false
  /\ stats (proto (fst r2)) = stats (proto (fst r)).
Proof.
  intros Hinv Hcur Hdl Hdue. cbv zeta.
  unfold invalidated in Hinv.
  assert (Hrun : event_pending duration_mul ec s
                 = (mkKSt (stats_error err (proto s))
                      (set_event1 (next_event (self s))
                         (invalidate_callback (set_invalidated true err (self s)))),
                    Ret true)).
  { unfold event_pending, process_next_event, bind, gets, ret.
    rewrite Hcur, Hdue. cbn [event_eqb andb when].
    change (event_eqb KEV_NONE KEV_NONE) with true. cbn [andb when].
    rewrite Hdue. cbn [when].
    destruct (next_event (self s)) eqn:En; cbn in Hdl; try discriminate;
      inversion Hdl; subst err;
      unfold kev_error, invalidate, bind, on_proto, on_self, modify, Base_invalidate;
      cbn [self proto]; rewrite Hinv; cbn; reflexivity. }
  rewrite Hrun. cbn [fst snd proto self].
  split; [reflexivity |]. split; [reflexivity |]. split; [reflexivity |].
  split; [reflexivity |]. split; [reflexivity |].
  unfold reset_event, event_pending, process_next_event, bind, gets, ret, on_self, modify.
  cbn [self proto fst snd].
  cbn -[time_ge event_eqb]. 
  change (event_eqb KEV_NONE KEV_NONE) with true. cbn [andb].
  change (now_ (stats_error err (proto s))) with (now_ (proto s)).
  cbn -[time_ge].
  destruct (time_ge (now_ (proto s)) time_infinite) eqn:Hinf;
    cbn -[time_ge]; try rewrite Hinf; cbn; split; reflexivity.
Qed.

(** X15. What [event_pending] does with a due event when none is current:
    KEV_BECOME_PRIMARY is reported and followed by KEV_RENEGOTIATE at
    construction time plus the renegotiate period, unless the data limit
    defers it, in which case nothing is reported and KEV_PRIMARY_PENDING
    waits for twice the handshake window; KEV_RENEGOTIATE and
    KEV_RENEGOTIATE_FORCE are reported and followed by KEV_EXPIRE, at
    construction time plus the expire period or, after a key-limit
    renegotiation, twice the handshake window from now; none of these
    touches the parent or the validity of the key context; the three
    deadline events are reported; any other next event leaves the state
    as it is and reports nothing. *)
Theorem due_event_advances (s : KSt) :
  current_event (self s) = KEV_NONE ->
  time_ge (now_ (proto s)) (next_event_time (self s)) = true ->
  let r := event_pending duration_mul ec s in
  let k' := self (fst r) in
  let quiet := proto (fst r) = proto s /\ invalidated k' = invalidated (self s) in
  match next_event (self s) with
  | KEV_BECOME_PRIMARY =>
      quiet
      /\ if data_limit_defer s
         then snd r = Ret false
              /\ current_event k' = KEV_NONE
              /\ next_event k' = KEV_PRIMARY_PENDING
              /\ next_event_time k' = data_limit_expire duration_mul s
         else snd r = Ret true
              /\ current_event k' = KEV_BECOME_PRIMARY
              /\ next_event k' = KEV_RENEGOTIATE
              /\ next_event_time k'
                 = time_add (construct_time (self s)) (cfg_renegotiate ec)
  | KEV_RENEGOTIATE | KEV_RENEGOTIATE_FORCE =>
      quiet
      /\ snd r = Ret true
      /\ current_event k' = next_event (self s)
      /\ next_event k' = KEV_EXPIRE
      /\ next_event_time k'
         = (if key_limit_renegotiation_fired (self s)
            then data_limit_expire duration_mul s
            else time_add (construct_time (self s)) (cfg_expire ec))
  | KEV_NEGOTIATE | KEV_PRIMARY_PENDING | KEV_EXPIRE =>
      snd r = Ret true /\ current_event k' = next_event (self s)
  | _ => fst r = s /\ snd r = Ret false
  end.
Proof.
  intros Hcur Hdue. cbv zeta.
  unfold event_pending, process_next_event, bind, gets, ret.
  rewrite Hcur, Hdue.
  change (event_eqb KEV_NONE KEV_NONE) with true. cbn [andb when].
  rewrite Hdue. cbn [when]. unfold invalidated.
  destruct (next_event (self s)) eqn:En.
  all: try (cbn [fst snd self proto]; rewrite Hcur; split; reflexivity).
  all: try (unfold kev_error, invalidate, bind, on_proto, on_self, modify, Base_invalidate;
            cbn [fst snd self proto];
            destruct (negb (Base_invalidated (self s))); cbn; split; reflexivity).
  all: try (destruct (data_limit_defer s));
    unfold prepare_expire, on_self, modify, bind, gets; cbn;
    repeat split; reflexivity.
Qed.

End EventProps.

Lemma deadline_event_fires_once_witness :
  let s := @mkKSt Demo.demo (Demo.demo_proto PROTO_UDP true)
             (@set_events Demo.demo 55 90 KEV_NONE KEV_EXPIRE (Demo.demo_key 0 false)) in
  let r := @event_pending Demo.demo Z.mul (@mkEventConfig Demo.demo 5 3600 7200) s in
  snd r = Ret true
  /\ stats (proto (fst r)) = [N_KEV_EXPIRE]
  /\ invalidated (self (fst r)) = true
  /\ snd ((reset_event ;; @event_pending Demo.demo Z.mul
                            (@mkEventConfig Demo.demo 5 3600 7200)) (fst r)) = Ret false.
Proof.
  cbv zeta.
  destruct (@deadline_event_fires_once Demo.demo Z.mul (@mkEventConfig Demo.demo 5 3600 7200)
              (@mkKSt Demo.demo (Demo.demo_proto PROTO_UDP true)
                 (@set_events Demo.demo 55 90 KEV_NONE KEV_EXPIRE (Demo.demo_key 0 false)))
              N_KEV_EXPIRE)
    as (H1 & _ & H3 & H4 & _ & H6 & _); try reflexivity.
  split; [exact H1 | split; [exact H3 | split; [exact H4 | exact H6]]].
Defined.

Section RenegotiationLatch.

Context {C : Collaborators}.

Lemma schedule_key_limit_renegotiation_eq (s : KSt) :
  schedule_key_limit_renegotiation s
  = if negb (key_limit_renegotiation_fired (self s)) && (state (self s) >=? ACTIVE)
       && negb (invalidated (self s))
    then
      let k := set_key_limit_renegotiation_fired true (self s) in
      (mkKSt (stats_error N_KEY_LIMIT_RENEG (proto s))
         (if event_eqb (next_event (self s)) KEV_BECOME_PRIMARY
          then set_event1 KEV_RENEGOTIATE_QUEUE k
          else if time_defined (now_ (proto s))
               then set_event KEV_NONE KEV_RENEGOTIATE
                      (time_add (now_ (proto s))
                         (seconds (if is_server (proto s) then 2 else 1))) k
               else k), Ret tt)
    else (s, Ret tt).
Proof.
  unfold schedule_key_limit_renegotiation, bind, gets.
  destruct (negb (key_limit_renegotiation_fired (self s)) && (state (self s) >=? ACTIVE)
            && negb (invalidated (self s))); [| reflexivity].
  cbn [when]. unfold on_self, on_proto, modify, key_limit_reneg, bind, gets, when, ret.
  cbn [self proto next_event set_key_limit_renegotiation_fired].
  destruct (event_eqb (next_event (self s)) KEV_BECOME_PRIMARY); [reflexivity |].
  change (now_ (stats_error N_KEY_LIMIT_RENEG (proto s))) with (now_ (proto s)).
  destruct (time_defined (now_ (proto s))); reflexivity.
Qed.

(** X16. [schedule_key_limit_renegotiation] fires at most once: a second call
    changes nothing, and a call books either nothing or exactly one
    N_KEY_LIMIT_RENEG, the latter only while setting the latch that was
    clear before. *)
Theorem key_limit_renegotiation_fires_once (s : KSt) :
  let s1 := fst (schedule_key_limit_renegotiation s) in
  schedule_key_limit_renegotiation s1 = (s1, Ret tt)
  /\ (stats (proto s1) = stats (proto s)
      \/ stats (proto s1) = N_KEY_LIMIT_RENEG :: stats (proto s)
         /\ key_limit_renegotiation_fired (self s) = false
         /\ key_limit_renegotiation_fired (self s1) = true).
Proof.
  cbv zeta. rewrite (schedule_key_limit_renegotiation_eq s).
  destruct (negb (key_limit_renegotiation_fired (self s)) && (state (self s) >=? ACTIVE)
            && negb (invalidated (self s))) eqn:Hc.
  - cbv zeta. cbn [fst].
    assert (Hf : key_limit_renegotiation_fired (self s) = false).
    { destruct (key_limit_renegotiation_fired (self s)); [discriminate Hc | reflexivity]. }
    rewrite schedule_key_limit_renegotiation_eq. cbn [self proto].
    destruct (event_eqb (next_event (self s)) KEV_BECOME_PRIMARY);
      [| destruct (time_defined (now_ (proto s)))]; cbn;
      (split; [reflexivity | right; auto]).
  - cbn [fst]. rewrite schedule_key_limit_renegotiation_eq, Hc.
    split; [reflexivity | left; reflexivity].
Qed.

End RenegotiationLatch.

Lemma due_event_advances_witness :
  let s := @mkKSt Demo.demo (Demo.demo_proto PROTO_UDP true)
             (@set_events Demo.demo 55 90 KEV_NONE KEV_RENEGOTIATE (Demo.demo_key 0 false)) in
  let r := @event_pending Demo.demo Z.mul (@mkEventConfig Demo.demo 5 3600 7200) s in
  snd r = Ret true
  /\ current_event (self (fst r)) = KEV_RENEGOTIATE
  /\ next_event (self (fst r)) = KEV_EXPIRE
  /\ next_event_time (self (fst r)) = 7250.
Proof.
  cbv zeta.
  destruct (@due_event_advances Demo.demo Z.mul (@mkEventConfig Demo.demo 5 3600 7200)
              (@mkKSt Demo.demo (Demo.demo_proto PROTO_UDP true)
                 (@set_events Demo.demo 55 90 KEV_NONE KEV_RENEGOTIATE
                    (Demo.demo_key 0 false))))
    as (_ & H); [reflexivity | reflexivity |].
  exact H.
Defined.

Ltac psid_leaf := unfold psid_rel; cbn; intros; reflexivity.
Ltac win_leaf := unfold win_rel; cbn; split; reflexivity.
Ltac cc_leaf := unfold cc_rel; cbn; repeat split; reflexivity.

Section PeerSessionId.

Context {C : Collaborators}.

#[local] Instance psid_rel_FrameRel : FrameRel psid_rel.
Proof.
  split; unfold psid_rel.
  - reflexivity.
  - intros a b c H1 H2 Hd. rewrite H2, H1; auto. rewrite H1; auto.
Qed.

Lemma keeps_psid_verify_src_psid src : keeps psid_rel (verify_src_psid src).
Proof.
  intros s. unfold verify_src_psid, bind, gets, psid_rel.
  destruct (psid_defined (psid_peer (proto s))) eqn:E; [| intros; discriminate].
  destruct (negb (psid_match (psid_peer (proto s)) src)); [| reflexivity].
  unfold on_proto, modify, when, invalidate, on_self, ret. cbn [fst snd proto self].
  destruct (is_tcp (proto s)); reflexivity.
Qed.
Hint Resolve keeps_psid_verify_src_psid : frames.

Lemma keeps_psid_ack_loop n live b : keeps psid_rel (ack_loop n live b).
Proof.
  revert b. induction n as [| n IH]; intros b; cbn [ack_loop]; keeps_auto psid_leaf.
Qed.
Hint Resolve keeps_psid_ack_loop : frames.

Lemma keeps_psid_ReliableAck_ack live b : keeps psid_rel (ReliableAck_ack live b).
Proof. unfold ReliableAck_ack. keeps_auto psid_leaf. Qed.
Hint Resolve keeps_psid_ReliableAck_ack : frames.

Lemma keeps_psid_verify_dest_psid b : keeps psid_rel (verify_dest_psid b).
Proof. unfold verify_dest_psid. keeps_auto psid_leaf. Qed.
Hint Resolve keeps_psid_verify_dest_psid : frames.

Lemma keeps_psid_test_add pid t m : keeps psid_rel (ta_pid_recv_test_add pid t m).
Proof.
  intros s. unfold ta_pid_recv_test_add. destruct (pid_test_add _ _ _ _). psid_leaf.
Qed.
Hint Resolve keeps_psid_test_add : frames.

Lemma keeps_psid_receive pkt id : keeps psid_rel (rel_recv_receive_call pkt id).
Proof.
  intros s. unfold rel_recv_receive_call. destruct (rel_recv_receive _ _ _). psid_leaf.
Qed.
Hint Resolve keeps_psid_receive : frames.

Lemma keeps_psid_push_back id : keeps psid_rel (xmit_acks_push_back id).
Proof. unfold xmit_acks_push_back. keeps_auto psid_leaf. Qed.
Hint Resolve keeps_psid_push_back : frames.

Lemma keeps_psid_decapsulate_tail pkt recv pid pid_ok :
  keeps psid_rel (decapsulate_tail pkt recv pid pid_ok).
Proof. unfold decapsulate_tail. keeps_auto psid_leaf. Qed.
Hint Resolve keeps_psid_decapsulate_tail : frames.

Lemma keeps_psid_decapsulate pkt : keeps psid_rel (decapsulate pkt).
Proof.
  unfold decapsulate, decapsulate_try, decapsulate_catch. keeps_auto psid_leaf.
Qed.

Lemma psid_match_eq (a b : ProtoSessionID) : psid_match a b = true -> a = b.
Proof.
  unfold psid_match. destruct a as [da ia], b as [db ib]. cbn.
  intros H. apply andb_prop in H. destruct H as [H Hb].
  apply andb_prop in H. destruct H as [Ha Hd]. apply bytes_eqb_true in Hb.
  subst. reflexivity.
Qed.

(** After [verify_src_psid] has passed a packet, the peer session id is
    the source session id of the packet. *)
Lemma verify_src_psid_learns (src : ProtoSessionID) (s s1 : KSt) :
  verify_src_psid src s = (s1, Ret true) -> psid_peer (proto s1) = src.
Proof.
  unfold verify_src_psid. intros H.
  apply bind_ret_inv in H. destruct H as (s0 & p & Hp & H).
  apply gets_inv in Hp. destruct Hp as [-> ->].
  destruct (psid_defined (psid_peer (proto s))).
  - destruct (psid_match (psid_peer (proto s)) src) eqn:E; cbn [negb] in H.
    + apply ret_inv in H. destruct H as [-> _]. apply psid_match_eq. exact E.
    + apply bind_ret_inv in H. destruct H as (s2 & u & _ & H).
      apply bind_ret_inv in H. destruct H as (s3 & u' & _ & H).
      apply ret_inv in H. destruct H as [_ H]. discriminate H.
  - apply bind_ret_inv in H. destruct H as (s2 & u & Hset & H).
    apply modify_inv in Hset. apply ret_inv in H. destruct H as [-> _].
    subst s2. reflexivity.
Qed.

Lemma psid_read_id (id rest : Buffer) :
  length id = PSID_SIZE -> psid_read (id ++ rest) = Ret (mkPSID true id, rest).
Proof.
  intros H. unfold psid_read. rewrite buf_read_app by exact H. reflexivity.
Qed.

(** X17. The peer session id is learned once: [decapsulate] never changes a
    peer session id that is defined, whether it accepts the packet,
    rejects it or runs out of buffer, and after any accepted packet the
    peer session id is the source session id found behind the opcode
    byte. *)
Theorem psid_peer_learned_once (pkt : Packet) (s : KSt) :
  (psid_defined (psid_peer (proto s)) = true ->
   psid_peer (proto (fst (decapsulate pkt s))) = psid_peer (proto s))
  /\ (forall s' b0 id rest,
         decapsulate pkt s = (s', Ret true) ->
         buf pkt = b0 :: id ++ rest -> length id = PSID_SIZE ->
         psid_peer (proto s') = mkPSID true id).
Proof.
  split; [apply (keeps_psid_decapsulate pkt s) |].
  intros s' b0 id rest H Hbuf Hid. unfold decapsulate in H.
  apply catch_buffer_ret_inv in H. destruct H as [H | [s1 H]].
  2:{ rewrite decapsulate_catch_eq in H. inversion H. }
  unfold decapsulate_try in H. cbv zeta in H. rewrite Hbuf in H.
  apply bind_ret_inv in H. destruct H as (s0 & p & Hp & H).
  apply gets_inv in Hp. destruct Hp as [-> ->].
  assert (Hfin : forall src s5 s6,
             psid_peer (proto s5) = src -> psid_defined src = true ->
             psid_rel s5 s6 -> psid_rel s6 s' -> psid_peer (proto s') = src).
  { intros src s5 s6 H5 Hd R1 R2. unfold psid_rel in *.
    assert (D5 : psid_defined (psid_peer (proto s5)) = true) by (rewrite H5; exact Hd).
    specialize (R1 D5). rewrite <- R1 in D5. specialize (R2 D5). congruence. }
  destruct (use_tls_auth (proto s)).
  - apply bind_ret_inv in H. destruct H as (s1 & r0 & Hadv & H).
    apply lift_inv in Hadv. destruct Hadv as [-> Hadv].
    cbn in Hadv. inversion Hadv; subst r0; clear Hadv.
    apply bind_ret_inv in H. destruct H as (s2 & [src r1] & Hsrc & H).
    apply lift_inv in Hsrc. destruct Hsrc as [-> Hsrc].
    rewrite (psid_read_id id rest Hid) in Hsrc. inversion Hsrc; subst src r1; clear Hsrc.
    apply bind_ret_inv in H. destruct H as (s3 & r2 & Hslot & H).
    apply lift_inv in Hslot. destruct Hslot as [-> Hslot].
    destruct (negb _).
    { apply bind_ret_inv in H. destruct H as (s4 & u & _ & H).
      apply bind_ret_inv in H. destruct H as (s5 & u' & _ & H).
      apply ret_inv in H. destruct H as [_ H]. discriminate H. }
    apply bind_ret_inv in H. destruct H as (s4 & u & _ & H).
    apply bind_ret_inv in H. destruct H as (s5 & ok & Hver & H).
    destruct ok; cbn [negb] in H.
    2:{ apply ret_inv in H. destruct H as [_ H]. discriminate H. }
    apply verify_src_psid_learns in Hver.
    apply bind_ret_inv in H. destruct H as (s6 & [pid r3] & Hpid & H).
    apply lift_inv in Hpid. destruct Hpid as [-> Hpid].
    apply bind_ret_inv in H. destruct H as (s7 & pid_ok & Htest & H).
    pose proof (keeps_psid_test_add pid (seconds_since_epoch (now_ (proto s))) false s5)
      as R1.
    rewrite Htest in R1. cbn [fst] in R1.
    pose proof (keeps_psid_decapsulate_tail pkt r3
                  (Some (pid, seconds_since_epoch (now_ (proto s)))) pid_ok s7) as R2.
    rewrite H in R2. cbn [fst] in R2.
    apply (Hfin _ s5 s7 Hver eq_refl R1 R2).
  - apply bind_ret_inv in H. destruct H as (s1 & u & _ & H).
    apply bind_ret_inv in H. destruct H as (s2 & r0 & Hadv & H).
    apply lift_inv in Hadv. destruct Hadv as [-> Hadv].
    cbn in Hadv. inversion Hadv; subst r0; clear Hadv.
    apply bind_ret_inv in H. destruct H as (s3 & [src r1] & Hsrc & H).
    apply lift_inv in Hsrc. destruct Hsrc as [-> Hsrc].
    rewrite (psid_read_id id rest Hid) in Hsrc. inversion Hsrc; subst src r1; clear Hsrc.
    apply bind_ret_inv in H. destruct H as (s5 & ok & Hver & H).
    destruct ok; cbn [negb] in H.
    2:{ apply ret_inv in H. destruct H as [_ H]. discriminate H. }
    apply verify_src_psid_learns in Hver.
    pose proof (keeps_psid_decapsulate_tail pkt rest None true s5) as R2.
    rewrite H in R2. cbn [fst] in R2.
    apply (Hfin _ s5 s5 Hver eq_refl (rel_refl s5) R2).
Qed.

End PeerSessionId.

Lemma psid_peer_learned_once_witness :
  let s := Demo.demo_kst PROTO_UDP true in
  psid_peer (proto (fst (@decapsulate Demo.demo Demo.forged_packet s))) = Demo.peer_id
  /\ psid_peer (proto (fst (@decapsulate Demo.demo Demo.genuine_packet s)))
     = mkPSID true [x11; x12; x13; x14; x15; x16; x17; x18].
Proof.
  cbv zeta. split.
  - destruct (@psid_peer_learned_once Demo.demo Demo.forged_packet
                (Demo.demo_kst PROTO_UDP true)) as [H _].
    apply H. reflexivity.
  - destruct (@psid_peer_learned_once Demo.demo Demo.genuine_packet
                (Demo.demo_kst PROTO_UDP true)) as [_ H].
    apply (H _ x20 [x11; x12; x13; x14; x15; x16; x17; x18]
             ([x17; x5a] ++ [x00; x00; x00; x07; x00; x00; x00; x63]
              ++ [x00] ++ [x00; x00; x00; x00] ++ [xaa])).
    + vm_compute. reflexivity.
    + reflexivity.
    + reflexivity.
Defined.

Section Replay.

Context {C : Collaborators}.

#[local] Instance win_rel_FrameRel : FrameRel win_rel.
Proof.
  split; unfold win_rel.
  - intros s. split; reflexivity.
  - intros a b c [H1 H2] [G1 G2]. split; congruence.
Qed.

Lemma keeps_win_verify_src_psid src : keeps win_rel (verify_src_psid src).
Proof. unfold verify_src_psid. keeps_auto win_leaf. Qed.
Hint Resolve keeps_win_verify_src_psid : frames.

Lemma keeps_win_verify_dest_psid b : keeps win_rel (verify_dest_psid b).
Proof. unfold verify_dest_psid. keeps_auto win_leaf. Qed.
Hint Resolve keeps_win_verify_dest_psid : frames.

Lemma keeps_win_ack_loop n b : keeps win_rel (ack_loop n false b).
Proof.
  revert b. induction n as [| n IH]; intros b; cbn [ack_loop when]; keeps_auto win_leaf.
Qed.
Hint Resolve keeps_win_ack_loop : frames.

Lemma keeps_win_ReliableAck_ack b : keeps win_rel (ReliableAck_ack false b).
Proof. unfold ReliableAck_ack. keeps_auto win_leaf. Qed.
Hint Resolve keeps_win_ReliableAck_ack : frames.

Lemma keeps_win_test_add pid t m : keeps win_rel (ta_pid_recv_test_add pid t m).
Proof.
  intros s. unfold ta_pid_recv_test_add. destruct (pid_test_add _ _ _ _). win_leaf.
Qed.
Hint Resolve keeps_win_test_add : frames.

Lemma keeps_win_push_back id : keeps win_rel (xmit_acks_push_back id).
Proof. unfold xmit_acks_push_back. keeps_auto win_leaf. Qed.
Hint Resolve keeps_win_push_back : frames.

Lemma keeps_win_decapsulate_tail pkt recv pid :
  keeps win_rel (decapsulate_tail pkt recv pid false).
Proof. unfold decapsulate_tail. cbn [negb]. keeps_auto win_leaf. Qed.

Lemma keeps_win_decapsulate_catch : keeps win_rel decapsulate_catch.
Proof. unfold decapsulate_catch. keeps_auto win_leaf. Qed.

Lemma yields_ret {A : Type} (Q : A -> Prop) (a : A) : Q a -> yields Q (ret a).
Proof. intros H s. exact H. Qed.

Lemma yields_bind {A B : Type} (Q : B -> Prop) (m : M KSt A) (k : A -> M KSt B) :
  yields (fun _ => True) m -> (forall a, yields Q (k a)) -> yields Q (bind m k).
Proof.
  intros Hm Hk s. unfold bind. specialize (Hm s).
  destruct (m s) as [s1 [a | e]]; cbn [snd] in *; [apply Hk | exact Hm].
Qed.

Lemma yields_lift {A : Type} (o : outcome A) :
  (forall e, o = Throw e -> e = BufferException) -> yields (fun _ => True) (lift o).
Proof.
  intros H s. unfold lift. cbn. destruct o; [exact I | apply H; reflexivity].
Qed.

Lemma yields_nothrow {A : Type} (m : M KSt A) : nothrow m -> yields (fun _ => True) m.
Proof. intros H s. destruct (H s) as [a Ha]. rewrite Ha. exact I. Qed.

Lemma buf_read_throws (n : nat) (b : Buffer) (e : Exn) :
  buf_read n b = Throw e -> e = BufferException.
Proof.
  unfold buf_read. destruct (n <=? length b)%nat; intros H; inversion H. reflexivity.
Qed.

Lemma read_id_throws (b : Buffer) (e : Exn) : read_id b = Throw e -> e = BufferException.
Proof.
  unfold read_id. destruct (buf_read 4 b) as [[bs r] | e'] eqn:E; cbn [obind].
  - destruct bs as [| b0 [| b1 [| b2 [| b3 [| b4 bs]]]]]; intros H; inversion H;
      reflexivity.
  - intros H. inversion H; subst. eapply buf_read_throws. exact E.
Qed.

Lemma psid_read_throws (b : Buffer) (e : Exn) :
  psid_read b = Throw e -> e = BufferException.
Proof.
  unfold psid_read. destruct (buf_read PSID_SIZE b) as [[bs r] | e'] eqn:E; cbn [obind].
  - intros H. inversion H.
  - intros H. inversion H; subst. eapply buf_read_throws. exact E.
Qed.

Lemma buf_pop_front_throws (b : Buffer) (e : Exn) :
  buf_pop_front b = Throw e -> e = BufferException.
Proof. destruct b; cbn; intros H; inversion H. reflexivity. Qed.

Lemma yields_ack_loop n b : yields (fun _ => True) (ack_loop n false b).
Proof.
  revert b. induction n as [| n IH]; intros b; cbn [ack_loop when].
  - apply yields_ret. exact I.
  - apply yields_bind; [apply yields_lift; apply read_id_throws |].
    intros [id b']. apply yields_bind; [apply yields_ret; exact I | intros _; apply IH].
Qed.

Lemma nothrow_invalidate_when (c : bool) (e : ErrorType) :
  nothrow (when c (invalidate e)).
Proof. apply nothrow_when. unfold invalidate. apply nothrow_modify. Qed.

(** With a packet id that failed the replay test, [decapsulate_tail]
    returns false or runs out of buffer. *)
Lemma yields_decapsulate_tail_replayed pkt recv pid :
  yields (fun b => b = false) (decapsulate_tail pkt recv pid false).
Proof.
  unfold decapsulate_tail. cbn [negb].
  apply yields_bind.
  { unfold ReliableAck_ack.
    apply yields_bind; [apply yields_lift; apply buf_pop_front_throws |].
    intros [len b]. cbv zeta.
    apply yields_bind; [apply yields_ack_loop | intros b'; apply yields_ret; exact I]. }
  intros [n r5].
  apply yields_bind.
  { destruct (0 <? n)%nat; [| apply yields_ret; exact I].
    unfold verify_dest_psid.
    apply yields_bind; [apply yields_lift; apply psid_read_throws |].
    intros [d r6]. apply yields_bind; [apply yields_nothrow; apply nothrow_gets |].
    intros p. destruct (negb _); [| apply yields_ret; exact I].
    apply yields_bind; [apply yields_nothrow; apply nothrow_modify |]. intros _.
    apply yields_bind; [apply yields_nothrow; apply nothrow_invalidate_when |]. intros _.
    apply yields_ret. exact I. }
  intros [ok r6]. destruct ok; cbn [negb]; [| apply yields_ret; reflexivity].
  destruct (negb (opcode pkt =? ACK_V1)).
  - apply yields_bind; [apply yields_lift; apply read_id_throws |].
    intros [id r7].
    apply yields_bind; [apply yields_nothrow; apply nothrow_modify |]. intros _.
    apply yields_bind.
    { apply yields_nothrow. apply nothrow_when. unfold xmit_acks_push_back.
      apply nothrow_modify. }
    intros _. apply yields_ret. reflexivity.
  - destruct pid as [[pid t] |]; [| apply yields_ret; reflexivity].
    apply yields_bind; [apply yields_nothrow; apply nothrow_modify |]. intros _.
    apply yields_ret. reflexivity.
Qed.

Lemma buf_read_advance (n : nat) (b x r : Buffer) :
  buf_read n b = Ret (x, r) -> buf_advance n b = Ret r.
Proof.
  unfold buf_read, buf_advance. destruct (n <=? length b)%nat; intros H; inversion H.
  reflexivity.
Qed.

(** What [verify_src_psid] leaves of the state it runs in. *)
Lemma verify_src_psid_run (src : ProtoSessionID) (s : KSt) :
  exists ok,
    snd (verify_src_psid src s) = Ret ok
    /\ ta_pid_recv (proto (fst (verify_src_psid src s))) = ta_pid_recv (proto s)
    /\ win_rel s (fst (verify_src_psid src s)).
Proof.
  pose proof (keeps_win_verify_src_psid src s) as Hw.
  unfold verify_src_psid in *. unfold bind, gets in *.
  destruct (psid_defined (psid_peer (proto s))).
  - destruct (negb (psid_match (psid_peer (proto s)) src)).
    + unfold on_proto, modify, when, invalidate, on_self, ret in *.
      destruct (is_tcp (proto s)); cbn in *; eexists; repeat split; apply Hw.
    + exists true. cbn. repeat split; apply Hw.
  - exists true. cbn in *. repeat split; apply Hw.
Qed.

(** X18. In tls-auth mode a well-formed control packet whose packet id the
    replay window refuses is rejected by [decapsulate] without an
    exception and without touching either reliability window: its ACKs
    are not applied and its message is not received. *)
Theorem replayed_packet_rejected (pkt : Packet) (s : KSt) (f : ControlPacket)
        (hm : Buffer) (pid : PacketID) :
  use_tls_auth (proto s) = true ->
  decode true (ta_hmac_recv (proto s)) (hmac_size (proto s)) (buf pkt) = Some f ->
  cp_tls_auth f = Some (hm, pid) ->
  snd (pid_test_add pid (seconds_since_epoch (now_ (proto s))) false
         (ta_pid_recv (proto s))) = false ->
  let r := decapsulate pkt s in
  snd r = Ret false
  /\ rel_recv (self (fst r)) = rel_recv (self s)
  /\ rel_send (self (fst r)) = rel_send (self s).
Proof.
  intros Htls Hdec Hauth Hrep. cbv zeta.
  (* the reads of the decoder *)
  unfold decode in Hdec.
  apply optbind_inv in Hdec. destruct Hdec as (b0 & Hb0 & Hdec). cbv zeta in Hdec.
  apply optbind_inv in Hdec. destruct Hdec as (r0 & Hr0 & Hdec).
  apply optbind_inv in Hdec. destruct Hdec as ([src r1] & Hsrc & Hdec).
  apply optbind_some_inv in Hdec. destruct Hdec as ([auth r3] & Ha & Hdec).
  apply optbind_inv in Ha. destruct Ha as ([hm' r2] & Hhm & Ha).
  destruct (ovpn_hmac_cmp (ta_hmac_recv (proto s)) (buf pkt) (1 + PSID_SIZE)
              (hmac_size (proto s)) PID_LONG_SIZE) eqn:Hcmp; cbn [negb] in Ha;
    [| discriminate].
  apply optbind_inv in Ha. destruct Ha as ([pid' r3'] & Hpid & Ha).
  inversion Ha; subst auth r3'; clear Ha.
  assert (Hpp : pid' = pid).
  { unfold decode_tail in Hdec.
    apply optbind_inv in Hdec. destruct Hdec as (x1 & _ & Hdec). destruct x1.
    apply optbind_inv in Hdec. destruct Hdec as (x2 & _ & Hdec). destruct x2.
    apply optbind_some_inv in Hdec. destruct Hdec as (x3 & _ & Hdec). destruct x3.
    apply optbind_some_inv in Hdec. destruct Hdec as (x4 & _ & Hdec). destruct x4.
    inversion Hdec; subst f. cbn in Hauth. inversion Hauth. reflexivity. }
  subst pid'. clear Hdec Hauth.
  apply buf_read_advance in Hhm.
  (* the run of [decapsulate] *)
  assert (Hgoal : exists s', decapsulate pkt s = (s', Ret false) /\ win_rel s s').
  { unfold decapsulate, catch_buffer, decapsulate_try. cbv zeta.
    unfold bind at 1. unfold gets at 1. rewrite Htls.
    unfold bind at 1. unfold lift at 1. rewrite Hr0.
    unfold bind at 1. unfold lift at 1. rewrite Hsrc.
    unfold bind at 1. unfold lift at 1. rewrite Hhm.
    rewrite Hcmp. cbn [negb].
    unfold bind at 1. unfold on_proto at 1. unfold modify at 1.
    set (s4 := mkKSt (update_last_received (proto s)) (self s)).
    assert (W4 : win_rel s s4) by (subst s4; win_leaf).
    destruct (verify_src_psid_run src s4) as (ok & Hok & Hta & W5).
    unfold bind at 1.
    destruct (verify_src_psid src s4) as [s5 o5]. cbn [fst snd] in Hok, Hta, W5.
    subst o5.
    destruct ok; cbn [negb].
    2:{ exists s5. split; [reflexivity | exact (rel_trans _ _ _ W4 W5)]. }
    unfold bind at 1. unfold lift at 1. rewrite Hpid.
    unfold bind at 1. unfold ta_pid_recv_test_add at 1.
    rewrite Hta. subst s4. cbn [proto].
    change (ta_pid_recv (update_last_received (proto s))) with (ta_pid_recv (proto s)).
    destruct (pid_test_add pid (seconds_since_epoch (now_ (proto s))) false
                (ta_pid_recv (proto s))) as [rw okv].
    cbn [snd] in Hrep. subst okv.
    set (s6 := mkKSt (set_ta_pid_recv rw (proto s5)) (self s5)).
    assert (W6 : win_rel s5 s6) by (subst s6; win_leaf).
    pose proof (keeps_win_decapsulate_tail pkt r3
                  (Some (pid, seconds_since_epoch (now_ (proto s)))) s6) as W7.
    pose proof (yields_decapsulate_tail_replayed pkt r3
                  (Some (pid, seconds_since_epoch (now_ (proto s)))) s6) as Y7.
    destruct (decapsulate_tail pkt r3
                (Some (pid, seconds_since_epoch (now_ (proto s)))) false s6)
      as [s7 o7].
    cbn [fst snd] in W7, Y7.
    assert (W : win_rel s s7)
      by (exact (rel_trans _ _ _ (rel_trans _ _ _ (rel_trans _ _ _ W4 W5) W6) W7)).
    destruct o7 as [b | e].
    - subst b. exists s7. split; [reflexivity | exact W].
    - subst e. rewrite decapsulate_catch_eq. eexists. split; [reflexivity |].
      eapply rel_trans; [exact W |].
      pose proof (keeps_win_decapsulate_catch s7) as Wc.
      rewrite decapsulate_catch_eq in Wc. exact Wc. }
  destruct Hgoal as (s' & Hrun & [Hs Hr]). rewrite Hrun. cbn [fst snd]. auto.
Qed.

End Replay.

Lemma replayed_packet_rejected_witness :
  let s := @mkKSt Demo.demo
             (@set_ta_pid_recv Demo.demo [mkPacketID 7 99] (Demo.demo_proto PROTO_UDP true))
             (Demo.demo_key 0 false) in
  let r := @decapsulate Demo.demo Demo.genuine_packet s in
  snd r = Ret false
  /\ rel_recv (self (fst r)) = rel_recv (self s)
  /\ rel_send (self (fst r)) = rel_send (self s).
Proof.
  cbv zeta.
  apply (@replayed_packet_rejected Demo.demo Demo.genuine_packet _ Demo.genuine_fields
           [x17; x5a] (mkPacketID 7 99)).
  - reflexivity.
  - reflexivity.
  - reflexivity.
  - reflexivity.
Defined.

Section Separation.

Context {C : Collaborators}.

#[local] Instance cc_rel_FrameRel : FrameRel cc_rel.
Proof.
  split; unfold cc_rel.
  - intros s. repeat split; reflexivity.
  - intros a b c H G.
    repeat match goal with
           | H : _ /\ _ |- _ => destruct H
           end.
    repeat split; congruence.
Qed.

Lemma keeps_cc_key_limit_reneg ev t : keeps cc_rel (key_limit_reneg ev t).
Proof. unfold key_limit_reneg. keeps_auto cc_leaf. Qed.
Hint Resolve keeps_cc_key_limit_reneg : frames.

Lemma keeps_cc_schedule : keeps cc_rel schedule_key_limit_renegotiation.
Proof. unfold schedule_key_limit_renegotiation. keeps_auto cc_leaf. Qed.
Hint Resolve keeps_cc_schedule : frames.

Lemma keeps_cc_data_limit_event mode st : keeps cc_rel (data_limit_event mode st).
Proof. unfold data_limit_event. keeps_auto cc_leaf. Qed.
Hint Resolve keeps_cc_data_limit_event : frames.

Lemma keeps_cc_data_limit_add mode size : keeps cc_rel (data_limit_add mode size).
Proof. unfold data_limit_add. keeps_auto cc_leaf. Qed.
Hint Resolve keeps_cc_data_limit_add : frames.

Lemma keeps_cc_do_encrypt b hint : keeps cc_rel (do_encrypt b hint).
Proof. unfold do_encrypt. keeps_auto cc_leaf. Qed.
Hint Resolve keeps_cc_do_encrypt : frames.

Lemma keeps_cc_crypto_decrypt_call b t op32 : keeps cc_rel (crypto_decrypt_call b t op32).
Proof.
  intros s. unfold crypto_decrypt_call. destruct (crypto_decrypt _ _ _ _). cc_leaf.
Qed.
Hint Resolve keeps_cc_crypto_decrypt_call : frames.

Lemma keeps_cc_decompress_call c b : keeps cc_rel (decompress_call c b).
Proof.
  intros s. unfold decompress_call. destruct (comp_decompress _ _). cc_leaf.
Qed.
Hint Resolve keeps_cc_decompress_call : frames.

(** X19. The data path stays off the control channel: whatever [encrypt] and
    [decrypt] of a key context do with a buffer, and whether they return
    or throw, they leave the reliability windows, the pending ACKs, the
    negotiation state, the key ids, both session ids, the tls-auth
    packet ids, the network output and the keepalive timers as they
    were. *)
Theorem data_path_leaves_control_channel (b : Buffer) (s : KSt) :
  cc_rel s (fst (encrypt b s)) /\ cc_rel s (fst (decrypt b s)).
Proof.
  split.
  - revert s. change (keeps cc_rel (encrypt b)). unfold encrypt. keeps_auto cc_leaf.
  - revert s. change (keeps cc_rel (decrypt b)).
    unfold decrypt, decrypt_try, decrypt_catch. keeps_auto cc_leaf.
Qed.

(** X20. With ACKs pending and no peer session id known, [encapsulate] and
    [generate_ack] throw the protocol error "peer_psid_undef" and book
    one CC_ERROR; the key context is otherwise as it was: the pending
    ACKs stay queued and no tls-auth packet id is used up.
    [generate_ack] leaves the packet untouched, while [encapsulate] has
    by then prepended the message id to the packet's buffer, where it
    stays. *)
Theorem ack_without_peer_is_refused (id : Z) (pkt : Packet) (s : KSt) :
  xmit_acks (self s) <> [] ->
  psid_defined (psid_peer (proto s)) = false ->
  encapsulate id (mkPktSt s pkt)
  = (mkPktSt (mkKSt (stats_error CC_ERROR (proto s)) (self s))
       (mkPacket (opcode pkt) (prepend_id (buf pkt) id)),
     Throw (proto_error "peer_psid_undef"))
  /\ generate_ack (mkPktSt s pkt)
     = (mkPktSt (mkKSt (stats_error CC_ERROR (proto s)) (self s)) pkt,
        Throw (proto_error "peer_psid_undef")).
Proof.
  intros Hacks Hpeer.
  unfold encapsulate, generate_ack, prepend_dest_psid_and_acks.
  unfold bind, gets, on_buf, on_kst, on_proto, modify, throw.
  cbn [kst packet proto self opcode buf]. rewrite Hpeer.
  destruct (xmit_acks (self s)); [contradiction |]. split; reflexivity.
Qed.

End Separation.

Lemma ack_without_peer_is_refused_witness :
  let s := @mkKSt Demo.demo
             (@set_psid_peer Demo.demo (mkPSID false []) (Demo.demo_proto PROTO_UDP true))
             (@set_xmit_acks Demo.demo [4] (Demo.demo_key 0 false)) in
  @encapsulate Demo.demo 9 (mkPktSt s (mkPacket CONTROL_V1 [xaa]))
  = (mkPktSt (mkKSt (stats_error CC_ERROR (proto s)) (self s))
       (mkPacket CONTROL_V1 [x00; x00; x00; x09; xaa]),
     Throw (proto_error "peer_psid_undef"))
  /\ @generate_ack Demo.demo (mkPktSt s (mkPacket CONTROL_V1 [xaa]))
     = (mkPktSt (mkKSt (stats_error CC_ERROR (proto s)) (self s))
          (mkPacket CONTROL_V1 [xaa]),
        Throw (proto_error "peer_psid_undef")).
Proof.
  cbv zeta.
  destruct (@ack_without_peer_is_refused Demo.demo 9 (mkPacket CONTROL_V1 [xaa])
              (@mkKSt Demo.demo
                 (@set_psid_peer Demo.demo (mkPSID false [])
                    (Demo.demo_proto PROTO_UDP true))
                 (@set_xmit_acks Demo.demo [4] (Demo.demo_key 0 false))))
    as [H1 H2].
  - discriminate.
  - reflexivity.
  - split; [exact H1 | exact H2].
Defined.


(** * The codec, the receive errors and the keepalive deadline on the methods *)

Section FieldsProps.

Context {C : Collaborators}.

Lemma bind_assoc {S A B D : Type} (m : M S A) (k : A -> M S B) (h : B -> M S D) (s : S) :
  bind (bind m k) h s = bind m (fun a => bind (k a) h) s.
Proof. unfold bind. destruct (m s) as [s1 [a | e]]; reflexivity. Qed.

Lemma bind_ext {S A B : Type} (m : M S A) (k k' : A -> M S B) (s : S) :
  (forall a s1, k a s1 = k' a s1) -> bind m k s = bind m k' s.
Proof.
  intros H. unfold bind. destruct (m s) as [s1 [a | e]]; [apply H | reflexivity].
Qed.

Lemma ack_loop_ids (n : nat) (live : bool) (b b' : Buffer) (ids : list Z) (s : KSt) :
  read_ids n b = Ret (ids, b') ->
  ack_loop n live b s = (ack_ids live ids ;; ret b') s.
Proof.
  revert b ids s. induction n as [| n IH]; intros b ids s; cbn [read_ids ack_loop].
  - intros H. inversion H; subst. reflexivity.
  - unfold obind.
    destruct (read_id b) as [[id b1] | e] eqn:E1; [| discriminate].
    destruct (read_ids n b1) as [[ids1 r1] | e] eqn:E2; [| discriminate].
    intros H. inversion H; subst. cbn [ack_ids].
    rewrite bind_assoc.
    unfold bind at 1. unfold lift at 1.
    apply bind_ext. intros u s1. apply IH. exact E2.
Qed.

Lemma bind_cong_l {S A B : Type} (m m' : M S A) (k : A -> M S B) (s : S) :
  m s = m' s -> bind m k s = bind m' k s.
Proof. unfold bind. intros ->. reflexivity. Qed.

Lemma bind_ret_l {S A B : Type} (a : A) (k : A -> M S B) (s : S) :
  bind (ret a) k s = k a s.
Proof. reflexivity. Qed.

Lemma bind_lift_l {S A B : Type} (a : A) (k : A -> M S B) (s : S) :
  bind (lift (Ret a)) k s = k a s.
Proof. reflexivity. Qed.

Lemma verify_dest_psid_check (b r : Buffer) (d : ProtoSessionID) (s : KSt) :
  psid_read b = Ret (d, r) ->
  verify_dest_psid b s = (ok <- check_dest_psid d ;; ret (ok, r)) s.
Proof.
  intros H. unfold verify_dest_psid, check_dest_psid. rewrite H, bind_lift_l.
  rewrite bind_assoc. apply bind_ext. intros p s1.
  destruct (negb (psid_match (psid_self p) d)); [| reflexivity].
  rewrite bind_assoc. apply bind_ext. intros u s2.
  rewrite bind_assoc. apply bind_ext. intros u' s3. reflexivity.
Qed.

Lemma decapsulate_tail_fields (pkt : Packet) (recv : Buffer)
      (pid : option (PacketID * Z)) (pid_ok : bool) (kid : Z) (src : ProtoSessionID)
      (auth : option (Buffer * PacketID)) (f : ControlPacket) (s : KSt) :
  decode_tail (opcode pkt) kid src auth recv = Some f ->
  decapsulate_tail pkt recv pid pid_ok s = decapsulate_fields_tail f pid pid_ok s.
Proof.
  unfold decode_tail. intros Hdec.
  apply optbind_inv in Hdec. destruct Hdec as ([len r4] & Hlen & Hdec).
  apply optbind_inv in Hdec. destruct Hdec as ([acks r5] & Hacks & Hdec).
  apply optbind_some_inv in Hdec. destruct Hdec as ([dest r6] & Hdest & Hdec).
  apply optbind_some_inv in Hdec. destruct Hdec as ([msg r7] & Hmsg & Hdec).
  inversion Hdec; subst f; clear Hdec.
  unfold decapsulate_tail, decapsulate_fields_tail, ReliableAck_ack.
  cbn [cp_acks cp_dest_psid cp_msg_id cp_opcode cp_payload].
  rewrite Hlen. rewrite bind_assoc, bind_lift_l. cbv zeta.
  rewrite bind_assoc.
  rewrite (bind_cong_l _ _ _ s (ack_loop_ids _ pid_ok r4 r5 acks s Hacks)).
  rewrite bind_assoc. apply bind_ext. intros u s1.
  rewrite !bind_ret_l.
  (* the destination session id *)
  assert (Hd : forall (K : bool * Buffer -> M KSt bool),
             bind (if (0 <? Z.to_nat (byte_to_Z len))%nat
                   then verify_dest_psid r5 else ret (true, r5)) K s1
             = bind (match dest with
                     | Some d => check_dest_psid d
                     | None => ret true
                     end) (fun ok => K (ok, r6)) s1).
  { intros K. destruct (0 <? Z.to_nat (byte_to_Z len))%nat.
    - apply optbind_inv in Hdest. destruct Hdest as ([d r6'] & Hrd & Hdest).
      inversion Hdest; subst dest r6'; clear Hdest.
      rewrite (bind_cong_l _ _ _ s1 (verify_dest_psid_check r5 r6 d s1 Hrd)).
      rewrite bind_assoc. apply bind_ext. intros ok s2. reflexivity.
    - inversion Hdest; subst dest r6. reflexivity. }
  rewrite Hd. apply bind_ext. intros ok s2.
  destruct ok; cbn [negb]; [| reflexivity].
  destruct (negb (opcode pkt =? ACK_V1)).
  - apply optbind_inv in Hmsg. destruct Hmsg as ([id r7'] & Hid & Hmsg).
    inversion Hmsg; subst msg r7'; clear Hmsg.
    rewrite Hid, bind_lift_l. reflexivity.
  - inversion Hmsg; subst msg r7. reflexivity.
Qed.

Lemma nothrow_ack_ids (live : bool) (ids : list Z) : nothrow (ack_ids live ids).
Proof.
  induction ids as [| id ids IH]; cbn [ack_ids]; [apply nothrow_ret |].
  apply nothrow_bind; [| intros _; exact IH].
  apply nothrow_when. apply nothrow_modify.
Qed.

Lemma nothrow_verify_src_psid (src : ProtoSessionID) : nothrow (verify_src_psid src).
Proof. unfold verify_src_psid. nothrow_auto. Qed.

Lemma nothrow_check_dest_psid (d : ProtoSessionID) : nothrow (check_dest_psid d).
Proof. unfold check_dest_psid. nothrow_auto. Qed.

Lemma nothrow_ta_pid_recv_test_add pid t m : nothrow (ta_pid_recv_test_add pid t m).
Proof.
  intros s. unfold ta_pid_recv_test_add.
  destruct (pid_test_add pid t m (ta_pid_recv (proto s))) as [r' ok]. eexists. reflexivity.
Qed.

Lemma nothrow_rel_recv_receive_call pkt id : nothrow (rel_recv_receive_call pkt id).
Proof.
  intros s. unfold rel_recv_receive_call.
  destruct (rel_recv_receive pkt id (rel_recv (self s))) as [r' fl]. eexists. reflexivity.
Qed.

Lemma nothrow_xmit_acks_push_back id : nothrow (xmit_acks_push_back id).
Proof. unfold xmit_acks_push_back. apply nothrow_modify. Qed.

Lemma nothrow_decapsulate_fields_tail f pid pid_ok :
  nothrow (decapsulate_fields_tail f pid pid_ok).
Proof.
  pose proof nothrow_ack_ids. pose proof nothrow_check_dest_psid.
  pose proof nothrow_ta_pid_recv_test_add. pose proof nothrow_rel_recv_receive_call.
  pose proof nothrow_xmit_acks_push_back.
  unfold decapsulate_fields_tail. nothrow_auto; auto.
Qed.

Lemma nothrow_decapsulate_fields f : nothrow (decapsulate_fields f).
Proof.
  pose proof nothrow_verify_src_psid. pose proof nothrow_ta_pid_recv_test_add.
  pose proof nothrow_decapsulate_fields_tail.
  unfold decapsulate_fields. nothrow_auto; auto.
Qed.

(** [decapsulate] acts on a packet through its decoded fields. *)
Lemma decapsulate_decoded (p : Packet) (r : KSt) (f : ControlPacket) :
  decode (use_tls_auth (proto r)) (ta_hmac_recv (proto r)) (hmac_size (proto r)) (buf p)
  = Some f ->
  opcode p = cp_opcode f ->
  decapsulate p r = decapsulate_fields f r.
Proof.
  intros Hdec Hopc.
  assert (Htry : decapsulate_try p r = decapsulate_fields f r).
  { unfold decode in Hdec.
    apply optbind_inv in Hdec. destruct Hdec as (b0 & Hb0 & Hdec). cbv zeta in Hdec.
    apply optbind_inv in Hdec. destruct Hdec as (r0 & Hr0 & Hdec).
    apply optbind_inv in Hdec. destruct Hdec as ([src r1] & Hsrc & Hdec).
    apply optbind_some_inv in Hdec. destruct Hdec as ([auth r3] & Hauth & Hdec).
    assert (Hf : cp_opcode f = opcode_extract (byte_to_Z b0)
                 /\ cp_src_psid f = src /\ cp_tls_auth f = auth).
    { unfold decode_tail in Hdec.
      apply optbind_inv in Hdec. destruct Hdec as ([len r4] & _ & Hdec).
      apply optbind_inv in Hdec. destruct Hdec as ([acks r5] & _ & Hdec).
      apply optbind_some_inv in Hdec. destruct Hdec as ([dest r6] & _ & Hdec).
      apply optbind_some_inv in Hdec. destruct Hdec as ([msg r7] & _ & Hdec).
      inversion Hdec; subst f. cbn. auto. }
    destruct Hf as (Hfo & Hfs & Hfa).
    rewrite <- Hfo, <- Hopc in Hdec.
    unfold decapsulate_try, decapsulate_fields. cbv zeta.
    change (bind (gets proto) ?k r) with (k (proto r) r). cbv beta.
    rewrite Hfs, Hfa.
    destruct (use_tls_auth (proto r)).
    - apply optbind_inv in Hauth. destruct Hauth as ([hm r2] & Hhm & Hauth).
      destruct (ovpn_hmac_cmp (ta_hmac_recv (proto r)) (buf p) (1 + PSID_SIZE)
                  (hmac_size (proto r)) PID_LONG_SIZE); cbn [negb] in *; [| discriminate].
      apply optbind_inv in Hauth. destruct Hauth as ([pid r3'] & Hpid & Hauth).
      inversion Hauth; subst auth r3'; clear Hauth.
      rewrite Hr0, bind_lift_l, Hsrc, bind_lift_l.
      rewrite (buf_read_advance _ _ _ _ Hhm), bind_lift_l.
      apply bind_ext. intros u s1. apply bind_ext. intros ok s2.
      destruct ok; cbn [negb]; [| reflexivity].
      rewrite Hpid, bind_lift_l.
      apply bind_ext. intros pid_ok s3.
      apply (decapsulate_tail_fields p r3 _ pid_ok _ src _ f s3 Hdec).
    - inversion Hauth; subst auth r3; clear Hauth.
      apply bind_ext. intros u s1.
      rewrite Hr0, bind_lift_l, Hsrc, bind_lift_l.
      apply bind_ext. intros ok s2.
      destruct ok; cbn [negb]; [| reflexivity].
      apply (decapsulate_tail_fields p r1 _ true _ src _ f s2 Hdec). }
  unfold decapsulate.
  destruct (nothrow_decapsulate_fields f r) as [a Ha].
  rewrite <- Htry in Ha.
  rewrite (catch_buffer_passed _ _ _ _ Ha). exact Htry.
Qed.

(** What [decode] says of the optional fields. *)
Lemma decode_shape (tls_auth : bool) (h : OvpnHMAC) (hsize : nat) (p : Buffer)
      (f : ControlPacket) :
  decode tls_auth h hsize p = Some f ->
  (if tls_auth then exists hm pid, cp_tls_auth f = Some (hm, pid)
   else cp_tls_auth f = None)
  /\ match cp_acks f with
     | [] => True
     | _ :: _ => exists d, cp_dest_psid f = Some d /\ psid_defined d = true
     end
  /\ match cp_msg_id f with
     | Some _ => True
     | None => cp_opcode f = ACK_V1
     end.
Proof.
  unfold decode. intros Hdec.
  apply optbind_inv in Hdec. destruct Hdec as (b0 & Hb0 & Hdec). cbv zeta in Hdec.
  apply optbind_inv in Hdec. destruct Hdec as (r0 & Hr0 & Hdec).
  apply optbind_inv in Hdec. destruct Hdec as ([src r1] & Hsrc & Hdec).
  apply optbind_some_inv in Hdec. destruct Hdec as ([auth r3] & Hauth & Hdec).
  unfold decode_tail in Hdec.
  apply optbind_inv in Hdec. destruct Hdec as ([len r4] & Hlen & Hdec).
  apply optbind_inv in Hdec. destruct Hdec as ([acks r5] & Hacks & Hdec).
  apply optbind_some_inv in Hdec. destruct Hdec as ([dest r6] & Hdest & Hdec).
  apply optbind_some_inv in Hdec. destruct Hdec as ([msg r7] & Hmsg & Hdec).
  inversion Hdec; subst f; clear Hdec.
  cbn [cp_tls_auth cp_acks cp_dest_psid cp_msg_id cp_opcode].
  split; [| split].
  - destruct tls_auth.
    + apply optbind_inv in Hauth. destruct Hauth as ([hm r2] & _ & Hauth).
      destruct (negb _); [discriminate |].
      apply optbind_inv in Hauth. destruct Hauth as ([pid r3'] & _ & Hauth).
      inversion Hauth. eauto.
    + inversion Hauth. reflexivity.
  - apply read_ids_inv in Hacks. destruct Hacks as [Hn _].
    destruct acks as [| a acks']; [exact I |].
    cbn [length] in Hn. rewrite <- Hn in Hdest. cbn [Nat.ltb Nat.leb] in Hdest.
    apply optbind_inv in Hdest. destruct Hdest as ([d r6'] & Hd & Hdest).
    inversion Hdest; subst. exists d. split; [reflexivity |].
    unfold psid_read, obind in Hd.
    destruct (buf_read PSID_SIZE r5) as [[x y] |]; inversion Hd. reflexivity.
  - destruct (Z.eqb_spec (opcode_extract (byte_to_Z b0)) ACK_V1) as [E|E];
      cbn [negb] in Hmsg.
    + inversion Hmsg. exact E.
    + apply optbind_inv in Hmsg. destruct Hmsg as ([id r7'] & _ & Hmsg).
      inversion Hmsg. exact I.
Qed.

(** The encoder sees of the sender's state what the fields say. *)
Lemma encode_sends (r e : KSt) (p : Buffer) (f : ControlPacket) (opc : Z) :
  decode (use_tls_auth (proto r)) (ta_hmac_recv (proto r)) (hmac_size (proto r)) p
  = Some f ->
  sends r e f ->
  opc = match cp_msg_id f with Some _ => cp_opcode f | None => ACK_V1 end ->
  encode (ta_hmac_send (proto e)) (hmac_size (proto e))
    (cfg_max_ack_list (config (proto e)))
    (outgoing_fields opc (cp_msg_id f) (cp_payload f) e)
  = encode (ta_hmac_recv (proto r)) (hmac_size (proto r))
      (cfg_max_ack_list (config (proto e))) f.
Proof.
  intros Hdec (Htls & Hh & Hs & Hk & Hsrc & Hacks & Hdest & Hpid) Hopc.
  destruct (decode_shape _ _ _ _ _ Hdec) as (Hta & Hd & Hm).
  unfold encode, outgoing_fields.
  cbn [cp_payload cp_msg_id cp_opcode cp_acks cp_dest_psid cp_tls_auth cp_src_psid
       cp_key_id].
  rewrite Hh, Hs, Hk, Hsrc, Hacks, Htls.
  assert (Hop : match cp_msg_id f with Some _ => opc | None => ACK_V1 end
                = match cp_msg_id f with Some _ => cp_opcode f | None => ACK_V1 end).
  { rewrite Hopc. destruct (cp_msg_id f); reflexivity. }
  rewrite Hop.
  assert (Hdd : match cp_acks f with
                | [] => Ret (match cp_msg_id f with
                             | Some id => prepend_id (cp_payload f) id
                             | None => cp_payload f
                             end)
                | _ :: _ =>
                    match (if psid_defined (psid_peer (proto e))
                           then Some (psid_peer (proto e)) else None) with
                    | Some d => Ret (psid_prepend d
                                       (match cp_msg_id f with
                                        | Some id => prepend_id (cp_payload f) id
                                        | None => cp_payload f
                                        end))
                    | None => Throw (proto_error "peer_psid_undef")
                    end
                end
                = match cp_acks f with
                  | [] => Ret (match cp_msg_id f with
                               | Some id => prepend_id (cp_payload f) id
                               | None => cp_payload f
                               end)
                  | _ :: _ =>
                      match cp_dest_psid f with
                      | Some d => Ret (psid_prepend d
                                         (match cp_msg_id f with
                                          | Some id => prepend_id (cp_payload f) id
                                          | None => cp_payload f
                                          end))
                      | None => Throw (proto_error "peer_psid_undef")
                      end
                  end).
  { destruct (cp_acks f); [reflexivity |].
    destruct Hd as (d & Hd1 & Hd2). rewrite Hd1, (Hdest d Hd1), Hd2. reflexivity. }
  rewrite Hdd.
  destruct (use_tls_auth (proto r)).
  - destruct Hta as (hm & pid & Hta). rewrite Hta, (Hpid hm pid Hta). reflexivity.
  - rewrite Hta. reflexivity.
Qed.

(** C6.  For a control packet in which [decode] finds every field (in
    tls-auth mode the HMAC verifies too), [decapsulate] does with the
    packet exactly what [decapsulate_fields] does with the decoded
    fields; and when the ACK list is no longer than [max_ack_list], a
    key context that holds these fields and is handed the opcode and the
    payload puts the packet back together byte for byte: [encapsulate]
    with the decoded message id, or [generate_ack] when there is none
    (an ACK_V1 packet). *)
Theorem control_packet_roundtrip (p : Packet) (r e : KSt) (f : ControlPacket) :
  decode (use_tls_auth (proto r)) (ta_hmac_recv (proto r)) (hmac_size (proto r)) (buf p)
  = Some f ->
  opcode p = cp_opcode f ->
  sends r e f ->
  (length (cp_acks f) <= cfg_max_ack_list (config (proto e)))%nat ->
  decapsulate p r = decapsulate_fields f r
  /\ exists e',
       match cp_msg_id f with
       | Some id => encapsulate id
       | None => generate_ack
       end (mkPktSt e (mkPacket (cp_opcode f) (cp_payload f)))
       = (mkPktSt e' p, Ret tt).
Proof.
  intros Hdec Hopc Hsends Hmax.
  split; [exact (decapsulate_decoded p r f Hdec Hopc) |].
  pose proof (encode_decoded _ _ _ _ _ _ Hdec Hmax) as Henc.
  assert (Hp : mkPacket (cp_opcode f) (buf p) = p)
    by (rewrite <- Hopc; destruct p; reflexivity).
  destruct (cp_msg_id f) as [id |] eqn:Hm.
  - pose proof (encapsulate_emits_encode id (mkPacket (cp_opcode f) (cp_payload f)) e)
      as He.
    cbv zeta in He. cbn [opcode buf] in He.
    rewrite <- Hm in He.
    rewrite (encode_sends r e (buf p) f (cp_opcode f) Hdec Hsends) in He
      by (rewrite Hm; reflexivity).
    rewrite Henc in He. destruct He as [Hr Hpk].
    destruct (encapsulate id _) as [[e' P] o]. cbn [fst snd packet] in Hr, Hpk.
    subst o P. rewrite Hp. exists e'. reflexivity.
  - pose proof (generate_ack_emits_encode (mkPacket (cp_opcode f) (cp_payload f)) e)
      as He.
    cbv zeta in He. cbn [opcode buf] in He.
    rewrite <- Hm in He.
    rewrite (encode_sends r e (buf p) f ACK_V1 Hdec Hsends) in He
      by (rewrite Hm; reflexivity).
    rewrite Henc in He. destruct He as [Hr Hpk].
    destruct (generate_ack _) as [[e' P] o]. cbn [fst snd packet] in Hr, Hpk.
    subst o P. rewrite Hp. exists e'. reflexivity.
Qed.

End FieldsProps.

(** A CONTROL_V1 packet with five ACKs is decoded and accepted by
    [decapsulate], yet a key context that holds its fields sends only
    four of the ACKs and keeps the fifth: the packet that [encapsulate]
    builds is another one. *)
Lemma five_acks_do_not_roundtrip :
  let p := Cases.five_ack_packet in
  let f := Cases.five_ack_fields in
  let r := Demo.demo_kst PROTO_UDP true in
  let e := Cases.peer_kst 0 [1; 2; 3; 4; 5] (mkPacketID 7 99) in
  @decode Demo.demo true tt 2 (buf p) = Some f
  /\ snd (@decapsulate Demo.demo p r) = Ret true
  /\ @sends Demo.demo r e f
  /\ snd (@encapsulate Demo.demo 0 (mkPktSt e (mkPacket CONTROL_V1 [xaa]))) = Ret tt
  /\ packet (fst (@encapsulate Demo.demo 0 (mkPktSt e (mkPacket CONTROL_V1 [xaa])))) <> p
  /\ xmit_acks
       (self (kst (fst (@encapsulate Demo.demo 0
                          (mkPktSt e (mkPacket CONTROL_V1 [xaa])))))) = [5]
  /\ @encode Demo.demo tt 2 4 f <> Ret (buf p).
Proof.
  cbv zeta. split; [reflexivity |]. split; [vm_compute; reflexivity |].
  split.
  { unfold sends. do 6 (split; [reflexivity |]). split.
    - intros d H. inversion H. reflexivity.
    - intros hm pid H. inversion H. reflexivity. }
  split; [vm_compute; reflexivity |].
  split; [vm_compute; discriminate |].
  split; [vm_compute; reflexivity |].
  vm_compute. discriminate.
Qed.

(** The genuine CONTROL_V1 packet and an ACK_V1 packet carrying two
    ACKs, both in tls-auth layout, are put back together from their
    decoded fields by the peer of the toy engine. *)
Lemma control_packet_roundtrip_witness :
  @decapsulate Demo.demo Demo.genuine_packet (Demo.demo_kst PROTO_UDP true)
  = @decapsulate_fields Demo.demo Demo.genuine_fields (Demo.demo_kst PROTO_UDP true)
  /\ (exists e',
        @encapsulate Demo.demo 0
          (mkPktSt (Cases.peer_kst 0 [] (mkPacketID 7 99)) (mkPacket CONTROL_V1 [xaa]))
        = (mkPktSt e' Demo.genuine_packet, Ret tt))
  /\ (exists e',
        @generate_ack Demo.demo
          (mkPktSt (Cases.peer_kst 3 [1; 65536] (mkPacketID 258 99)) (mkPacket ACK_V1 []))
        = (mkPktSt e' (mkPacket ACK_V1 Demo.ack_packet), Ret tt)).
Proof.
  assert (Hs : forall kid acks pid hm dest msg opc pl,
             dest = None \/ dest = Some Demo.self_id ->
             @sends Demo.demo (Demo.demo_kst PROTO_UDP true) (Cases.peer_kst kid acks pid)
               (mkControlPacket opc kid Demo.peer_id (Some (hm, pid)) acks dest msg pl)).
  { intros kid acks pid hm dest msg opc pl Hd. unfold sends.
    do 6 (split; [reflexivity |]). split.
    - cbn. intros d H. destruct Hd as [Hd | Hd]; rewrite Hd in H; inversion H.
      reflexivity.
    - cbn. intros hm' pid' H. inversion H. reflexivity. }
  destruct (@control_packet_roundtrip Demo.demo Demo.genuine_packet
              (Demo.demo_kst PROTO_UDP true) (Cases.peer_kst 0 [] (mkPacketID 7 99))
              Demo.genuine_fields) as [H1 H2].
  - reflexivity.
  - reflexivity.
  - apply Hs. left. reflexivity.
  - cbn. lia.
  - destruct (@control_packet_roundtrip Demo.demo (mkPacket ACK_V1 Demo.ack_packet)
                (Demo.demo_kst PROTO_UDP true)
                (Cases.peer_kst 3 [1; 65536] (mkPacketID 258 99))
                Demo.ack_fields) as [_ H3].
    + reflexivity.
    + reflexivity.
    + apply Hs. right. reflexivity.
    + cbn. lia.
    + split; [exact H1 | split; [exact H2 | exact H3]].
Defined.

Section Policies.

Context {C : Collaborators}.

(** [data_decrypt] on a packet that the cipher instance of its key
    context accepts. *)
Lemma data_decrypt_authentic (type : PacketType) (b : Buffer) (pc : ProtoContext)
      (sl : Slot) (k : KeyContext) (op : byte) (body plain x : Buffer) (cr' : CryptoDC) :
  snd (select_key_context type false pc) = Ret (sl, k) ->
  crypto_ready k = true ->
  buf_index0 b = Ret op ->
  buf_advance (op_head_size (byte_to_Z op)) b = Ret body ->
  crypto_decrypt (crypto k) body (seconds_since_epoch (now_ (core pc)))
    (if Nat.eqb (op_head_size (byte_to_Z op)) OP_SIZE_V2
     then Some (firstn OP_SIZE_V2 b) else None) = (cr', Ret (SUCCESS, plain)) ->
  match compress k with
  | Some c => snd (comp_decompress c plain)
  | None => Ret plain
  end = Ret x ->
  let r := data_decrypt type b pc in
  snd r = Ret ((0 <? length x)%nat, if is_keepalive x then [] else x)
  /\ keepalive_expire (core (fst r))
     = if (0 <? length x)%nat
       then time_add (now_ (core pc)) (cfg_keepalive_timeout (config (core pc)))
       else keepalive_expire (core pc).
Proof.
  intros Hsel Hready Hop Hadv Hcrypto Hx. cbv zeta.
  pose proof (decrypt_accepted b op body plain x cr' (mkKSt (core pc) k)
                Hready Hop Hadv Hcrypto Hx) as Hd.
  pose proof (framed_decrypt (is_tcp (core pc)) false b (mkKSt (core pc) k) eq_refl)
    as Hfr.
  apply frame_keepalive_expire in Hfr. destruct Hfr as (Hk & Hn & Hc & _).
  assert (Hcall : exists pc1,
             call sl k (decrypt b) pc = (pc1, Ret x)
             /\ keepalive_expire (core pc1) = keepalive_expire (core pc)
             /\ now_ (core pc1) = now_ (core pc)
             /\ config (core pc1) = config (core pc)).
  { unfold call. destruct (decrypt b (mkKSt (core pc) k)) as [s1 o].
    cbn [fst snd proto] in *. subst o. eexists. split; [reflexivity |].
    destruct sl; cbn; auto. }
  destruct Hcall as (pc1 & Hcall & Hk1 & Hn1 & Hc1).
  rewrite (data_decrypt_eq type b pc pc1 sl k x Hsel Hcall). cbn [fst snd].
  split; [reflexivity |].
  destruct (0 <? length x)%nat.
  - unfold received, update_last_received. cbn. rewrite Hn1, Hc1. reflexivity.
  - exact Hk1.
Qed.

(** What [decrypt] hands back after the cipher instance has reported an
    HMAC or decrypt error and left [out] in the buffer: [out] as the
    decompressor of the key context returns it. *)
Lemma decrypt_rejected_out (b : Buffer) (op : byte) (body : Buffer)
      (c' : CryptoDC) (err : ErrorType) (out : Buffer) (s : KSt) :
  crypto_ready (self s) = true ->
  buf_index0 b = Ret op ->
  buf_advance (op_head_size (byte_to_Z op)) b = Ret body ->
  crypto_decrypt (crypto (self s)) body (seconds_since_epoch (now_ (proto s)))
    (if Nat.eqb (op_head_size (byte_to_Z op)) OP_SIZE_V2
     then Some (firstn OP_SIZE_V2 b) else None) = (c', Ret (err, out)) ->
  err = HMAC_ERROR \/ err = DECRYPT_ERROR ->
  snd (decrypt b s)
  = match compress (self s) with
    | Some c =>
        match snd (comp_decompress c out) with
        | Throw BufferException => Ret []
        | o => o
        end
    | None => Ret out
    end.
Proof.
  intros Hready Hop Hadv Hcrypto Herr.
  pose proof (decrypt_try_rejected b op body c' err out s Hready Hop Hadv Hcrypto Herr)
    as Hpath.
  unfold decrypt, catch_buffer. rewrite Hpath.
  match goal with
  | |- context [bind _ _ ?st] => set (s2 := st)
  end.
  assert (Hc2 : compress (self s2) = compress (self s)).
  { subst s2. cbn [self]. unfold Base_invalidate.
    destruct (is_tcp (proto s)); [| reflexivity].
    destruct (invalidated_ (set_crypto c' (self s))); reflexivity. }
  unfold bind at 1. unfold gets at 1.
  unfold bind at 1.
  match goal with
  | |- context [when ?c ?m s2] =>
      destruct (nothrow_when c m (nothrow_data_limit_add _ _) s2) as [u Hu];
      pose proof (keeps_when dc_rel (HR := dc_rel_FrameRel) c m
                    (keeps_dc_data_limit_add _ _) s2) as Hk;
      destruct (when c m s2) as [s3 o]
  end.
  cbn [fst snd] in Hu, Hk. subst o.
  destruct Hk as (_ & _ & Hc & _). rewrite Hc2 in Hc.
  unfold bind, gets. rewrite Hc.
  destruct (compress (self s)) as [c |]; [| reflexivity].
  unfold decompress_call. destruct (comp_decompress c out) as [c2 [x | e]];
    [reflexivity |].
  destruct e; try reflexivity.
  rewrite decrypt_catch_eq. reflexivity.
Qed.



End Policies.




